(** * Colon-link credential autofill extension: a shallow embedding

    The repository ships two generations of the same extension:

    - the anti-loop build (one bundle holding a service worker followed by a
      content script), embedded below as [Background] and [Content];
    - the "Pro" build ([src/background.js], [src/content.js]), embedded
      as [ProBackground] and [ProContent].

    JavaScript strings are modelled as Rocq byte strings holding the UTF-8
    encoding of the text.  The host platform (URL parsing, the DOM, the
    clock, the message channel) is the boundary of the model: its answers are
    data of the model, what the scripts do with them is translated from the
    source. *)

From Stdlib Require Import ZArith String Ascii List Bool Lia DecimalString.
From stdpp Require Import base gmap strings.
Import ListNotations.
Open Scope Z_scope.

(** ** JavaScript string primitives used by the scripts *)
Module Js.

(** A string is truthy when it is not empty. *)
Definition truthy (s : string) : bool :=
  match s with EmptyString => false | String _ _ => true end.

(** [a || b] on strings. *)
Definition orElse (a b : string) : string := if truthy a then a else b.

Definition lowerAscii (c : ascii) : ascii :=
  let n := nat_of_ascii c in
  if ((65 <=? n) && (n <=? 90))%nat then ascii_of_nat (n + 32) else c.

(** [String.prototype.toLowerCase] on the ASCII letters; bytes of other
    characters are passed through unchanged. *)
Fixpoint toLowerCase (s : string) : string :=
  match s with
  | EmptyString => EmptyString
  | String c r => String (lowerAscii c) (toLowerCase r)
  end.

(** [s.startsWith(p)]. *)
Fixpoint startsWith (s p : string) : bool :=
  match p, s with
  | EmptyString, _ => true
  | String _ _, EmptyString => false
  | String a p', String b s' => Ascii.eqb a b && startsWith s' p'
  end.

(** [s.includes(t)]. *)
Fixpoint includes (s t : string) : bool :=
  startsWith s t ||
  match s with
  | EmptyString => false
  | String _ r => includes r t
  end.

(** [arr.some(t => s.includes(t))]. *)
Definition someIncluded (s : string) (arr : list string) : bool :=
  existsb (includes s) arr.

(** Largest index [i <= bound] holding [c], or [-1]. *)
Fixpoint lastIdx (c : ascii) (s : string) (bound : Z) : Z :=
  match s with
  | EmptyString => -1
  | String a r =>
      let k := lastIdx c r (bound - 1) in
      if 0 <=? k then k + 1
      else if Ascii.eqb a c && (0 <=? bound) then 0 else -1
  end.

(** [s.lastIndexOf(c, position)]: the position is clamped to [0] from
    below, so index [0] is always inspected. *)
Definition lastIndexOfFrom (c : ascii) (s : string) (position : Z) : Z :=
  lastIdx c s (Z.max 0 position).

(** [s.lastIndexOf(c)]. *)
Definition lastIndexOf (c : ascii) (s : string) : Z :=
  lastIdx c s (Z.of_nat (String.length s)).

Fixpoint take (n : nat) (s : string) : string :=
  match n, s with
  | O, _ => EmptyString
  | S _, EmptyString => EmptyString
  | S n', String a r => String a (take n' r)
  end.

Fixpoint drop (n : nat) (s : string) : string :=
  match n, s with
  | O, _ => s
  | S _, EmptyString => EmptyString
  | S n', String _ r => drop n' r
  end.

Definition relIndex (len i : Z) : Z :=
  if i <? 0 then Z.max (len + i) 0 else Z.min i len.

(** [s.slice(start, end)]. *)
Definition slice (s : string) (start end_ : Z) : string :=
  let len := Z.of_nat (String.length s) in
  let from := relIndex len start in
  let to := relIndex len end_ in
  take (Z.to_nat (Z.max (to - from) 0)) (drop (Z.to_nat from) s).

(** [s.slice(start)]. *)
Definition sliceFrom (s : string) (start : Z) : string :=
  slice s start (Z.of_nat (String.length s)).

(** *** White space, as [String.prototype.trim] sees it

    One-byte white space: TAB, LF, VT, FF, CR and SPACE.  The other
    white-space code points are recognised by their UTF-8 encodings:
    U+00A0; U+1680, U+2000..U+200A, U+2028, U+2029, U+202F, U+205F,
    U+3000 and U+FEFF. *)
Definition ws1 (a : ascii) : bool :=
  let n := nat_of_ascii a in
  (((9 <=? n) && (n <=? 13)) || (n =? 32))%nat.

Definition ws2 (a b : ascii) : bool :=
  ((nat_of_ascii a =? 194) && (nat_of_ascii b =? 160))%nat.

Definition ws3 (a b c : ascii) : bool :=
  let x := nat_of_ascii a in
  let y := nat_of_ascii b in
  let z := nat_of_ascii c in
  (((x =? 225) && (y =? 154) && (z =? 128))
   || ((x =? 226) && (y =? 128)
       && (((128 <=? z) && (z <=? 138)) || (z =? 168) || (z =? 169) || (z =? 175)))
   || ((x =? 226) && (y =? 129) && (z =? 159))
   || ((x =? 227) && (y =? 128) && (z =? 128))
   || ((x =? 239) && (y =? 187) && (z =? 191)))%nat.

Fixpoint trimStart (s : string) : string :=
  match s with
  | EmptyString => EmptyString
  | String a r =>
      if ws1 a then trimStart r
      else
        match r with
        | String b r2 =>
            if ws2 a b then trimStart r2
            else
              match r2 with
              | String c r3 => if ws3 a b c then trimStart r3 else s
              | EmptyString => s
              end
        | EmptyString => s
        end
  end.

(** The whole string is white space. *)
Definition blank (s : string) : bool :=
  match trimStart s with EmptyString => true | String _ _ => false end.

Fixpoint trimEnd (s : string) : string :=
  match s with
  | EmptyString => EmptyString
  | String a r => if blank s then EmptyString else String a (trimEnd r)
  end.

(** [s.trim()]. *)
Definition trim (s : string) : string := trimEnd (trimStart s).

(** *** [decodeURIComponent] (ECMA-262, Decode with an empty preserved set)

    [None] stands for the thrown [URIError]. *)
Definition hexDigit (c : ascii) : option nat :=
  let n := nat_of_ascii c in
  if ((48 <=? n) && (n <=? 57))%nat then Some (n - 48)%nat
  else if ((65 <=? n) && (n <=? 70))%nat then Some (n - 55)%nat
  else if ((97 <=? n) && (n <=? 102))%nat then Some (n - 87)%nat
  else None.

Definition hexOctet (h l : ascii) : option nat :=
  match hexDigit h, hexDigit l with
  | Some x, Some y => Some (16 * x + y)%nat
  | _, _ => None
  end.

Inductive token : Type :=
| Lit (c : ascii)
| Esc (octet : nat).

(** First pass: every ["%"] must open a two-digit hexadecimal escape. *)
Fixpoint tokens (s : string) : option (list token) :=
  match s with
  | EmptyString => Some []
  | String c r =>
      if Ascii.eqb c "%" then
        match r with
        | String h (String l r') =>
            match hexOctet h l, tokens r' with
            | Some o, Some ts => Some (Esc o :: ts)
            | _, _ => None
            end
        | _ => None
        end
      else
        match tokens r with
        | Some ts => Some (Lit c :: ts)
        | None => None
        end
  end.

(** Number of leading one bits of an octet. *)
Definition leadingOnes (o : nat) : nat :=
  if (o <? 128)%nat then 0%nat
  else if (o <? 192)%nat then 1%nat
  else if (o <? 224)%nat then 2%nat
  else if (o <? 240)%nat then 3%nat
  else if (o <? 248)%nat then 4%nat
  else 5%nat.

Definition cont (o : nat) : bool := ((128 <=? o) && (o <=? 191))%nat.

(** Well-formed UTF-8 encodings of one code point (no overlong forms, no
    surrogates, nothing above U+10FFFF). *)
Definition wellFormed2 (a b : nat) : bool := ((194 <=? a) && (a <=? 223))%nat && cont b.

Definition wellFormed3 (a b c : nat) : bool :=
  ((((a =? 224) && (160 <=? b) && (b <=? 191))
    || ((225 <=? a) && (a <=? 236) && cont b)
    || ((a =? 237) && (128 <=? b) && (b <=? 159))
    || ((238 <=? a) && (a <=? 239) && cont b)) && cont c)%nat.

Definition wellFormed4 (a b c d : nat) : bool :=
  ((((a =? 240) && (144 <=? b) && (b <=? 191))
    || ((241 <=? a) && (a <=? 243) && cont b)
    || ((a =? 244) && (128 <=? b) && (b <=? 143))) && cont c && cont d)%nat.

Definition emit (os : list nat) (rest : option string) : option string :=
  match rest with
  | Some r => Some (fold_right (fun o acc => String (ascii_of_nat o) acc) r os)
  | None => None
  end.

(** Second pass: an escape below 128 is that character; a lead octet must
    be followed by the right number of escapes and form a code point. *)
Fixpoint decodeTokens (ts : list token) : option string :=
  match ts with
  | [] => Some EmptyString
  | Lit c :: r =>
      match decodeTokens r with
      | Some d => Some (String c d)
      | None => None
      end
  | Esc a :: r =>
      match leadingOnes a with
      | 0%nat => emit [a] (decodeTokens r)
      | 2%nat =>
          match r with
          | Esc b :: r2 =>
              if wellFormed2 a b then emit [a; b] (decodeTokens r2) else None
          | _ => None
          end
      | 3%nat =>
          match r with
          | Esc b :: Esc c :: r3 =>
              if wellFormed3 a b c then emit [a; b; c] (decodeTokens r3) else None
          | _ => None
          end
      | 4%nat =>
          match r with
          | Esc b :: Esc c :: Esc d :: r4 =>
              if wellFormed4 a b c d then emit [a; b; c; d] (decodeTokens r4) else None
          | _ => None
          end
      | _ => None
      end
  end.

Definition decodeURIComponent (s : string) : option string :=
  match tokens s with
  | Some ts => decodeTokens ts
  | None => None
  end.

(** [try { x = decodeURIComponent(x); } catch {}]. *)
Definition tryDecode (x : string) : string :=
  match decodeURIComponent x with
  | Some d => d
  | None => x
  end.

End Js.

(** ** Messages exchanged between a page and the service worker *)
Module Msg.

Record Mode : Type := { twoStep : bool }.

(** The credential entry kept per tab: [{ u, p, mode: { twoStep }, stage }]. *)
Record Creds : Type := { u : string; p : string; mode : Mode; stage : string }.

Inductive t : Type :=
| storeRawHref (href : string)
| requestCreds
| updateStage (stage : string)
| clearCreds
| markOriginFailure.

Definition setStage (c : Creds) (s : string) : Creds :=
  {| u := u c; p := p c; mode := mode c; stage := s |}.

End Msg.

(** ** The platform's URL parser

    [new URL(s)] either throws ([None]) or yields an object of which the
    scripts read the serialisation ([toString()]) and the origin. *)
Record Url : Type := { toString : string; origin : string }.

(** ** Service worker of the anti-loop build *)
Module Background.

(** Cooldown window for origin failures: 10 minutes. *)
Definition SUBMIT_COOLDOWN_MS : Z := 10 * 60 * 1000.

Record Link : Type := { url : string; u : string; p : string }.

(** [/^https?$/i.test(base)] *)
Definition bareScheme (base : string) : bool :=
  let l := Js.toLowerCase base in
  String.eqb l "http" || String.eqb l "https".

(** [/^https?:\/\//i.test(base)] *)
Definition hasHttpPrefix (base : string) : bool :=
  let l := Js.toLowerCase base in
  Js.startsWith l "http://" || Js.startsWith l "https://".

Record Tab : Type := { id : Z; tabUrl : string }.

Record Sender : Type := { tab : option Tab }.

(** [info] of a context-menu click; an absent property is the empty string. *)
Record ClickInfo : Type :=
  { menuItemId : string; selectionText : string; linkUrl : string }.

(** The three maps of the worker. *)
Record Store : Type :=
  { credsByTab : gmap Z Msg.Creds;
    rawHrefPerTab : gmap Z string;
    failUntilByOrigin : gmap string Z }.

(** What the worker asks of the browser.  [arm] is the entry the creation
    callback stores under the new tab, when there is one. *)
Inductive Command : Type :=
| tabsCreate (url : string) (arm : option Msg.Creds)
| windowsCreate (url : string) (incognito : bool) (arm : option Msg.Creds).

Definition armTab (st : Store) (tabId : Z) (payload : Msg.Creds) : Store :=
  {| credsByTab := <[tabId := payload]> (credsByTab st);
     rawHrefPerTab := rawHrefPerTab st;
     failUntilByOrigin := failUntilByOrigin st |}.

Definition disarmTab (st : Store) (tabId : Z) : Store :=
  {| credsByTab := delete tabId (credsByTab st);
     rawHrefPerTab := rawHrefPerTab st;
     failUntilByOrigin := failUntilByOrigin st |}.

(** [tabId] of [sender?.tab?.id] when it is truthy. *)
Definition truthyTabId (sender : Sender) : option Z :=
  match tab sender with
  | Some t => if id t =? 0 then None else Some (id t)
  | None => None
  end.

Section Host.

Variable URL : string -> option Url.

Definition originOf (urlStr : string) : string :=
  match URL urlStr with
  | Some x => origin x
  | None => EmptyString
  end.

Definition parseColonLink (raw : string) : option Link :=
  if negb (Js.truthy raw) then None
  else
    let s := Js.trim raw in
    let href := s in
    let last := Js.lastIndexOf ":" href in
    let prev := Js.lastIndexOfFrom ":" href (last - 1) in
    if (last <=? 0) || (prev <=? 0) then None
    else
      let base := Js.trim (Js.slice href 0 prev) in
      let u0 := Js.trim (Js.slice href (prev + 1) last) in
      let p0 := Js.trim (Js.sliceFrom href (last + 1)) in
      if bareScheme base then None
      else
        let base := if hasHttpPrefix base then base else "https://" +:+ base in
        let u1 := Js.tryDecode u0 in
        let p1 := Js.tryDecode p0 in
        match URL base with
        | Some x => Some {| url := toString x; u := u1; p := p1 |}
        | None => None
        end.

(** The text a context-menu click is about: the href captured for the
    tab, else the selection, else the link. *)
Definition clickedRaw (st : Store) (info : ClickInfo) (tb : option Tab) : string :=
  let cached :=
    match tb with
    | Some t => default EmptyString (rawHrefPerTab st !! id t)
    | None => EmptyString
    end in
  Js.orElse cached (Js.orElse (selectionText info) (Js.orElse (linkUrl info) EmptyString)).

(** [if (cached) rawHrefPerTab.delete(tabId)] *)
Definition dropCached (st : Store) (tb : option Tab) : Store :=
  match tb with
  | Some t =>
      if Js.truthy (default EmptyString (rawHrefPerTab st !! id t)) then
        {| credsByTab := credsByTab st;
           rawHrefPerTab := delete (id t) (rawHrefPerTab st);
           failUntilByOrigin := failUntilByOrigin st |}
      else st
  | None => st
  end.

(** [chrome.contextMenus.onClicked] *)
Definition onClicked (now : Z) (st : Store) (info : ClickInfo) (tb : option Tab)
  : Store * list Command :=
  let raw := clickedRaw st info tb in
  let st1 := dropCached st tb in
  match parseColonLink raw with
  | None => (st1, [])
  | Some parsed =>
      let origin := originOf (url parsed) in
      let until := default 0 (failUntilByOrigin st1 !! origin) in
      let incog :=
        String.eqb (menuItemId info) "cl-open-incog"
        || String.eqb (menuItemId info) "cl-open-incog-2step" in
      if now <? until then
        if incog then (st1, [windowsCreate (url parsed) true None])
        else (st1, [tabsCreate (url parsed) None])
      else
        let twoStep :=
          String.eqb (menuItemId info) "cl-open-2step"
          || String.eqb (menuItemId info) "cl-open-incog-2step" in
        let payload :=
          {| Msg.u := u parsed; Msg.p := p parsed;
             Msg.mode := {| Msg.twoStep := twoStep |}; Msg.stage := "init" |} in
        if incog then (st1, [windowsCreate (url parsed) true (Some payload)])
        else (st1, [tabsCreate (url parsed) (Some payload)])
  end.

(** The creation callbacks: [newTab] is the tab the browser reports. *)
Definition onCreated (st : Store) (cmd : Command) (newTab : option Z) : Store :=
  match cmd, newTab with
  | tabsCreate _ (Some payload), Some tabId => armTab st tabId payload
  | windowsCreate _ _ (Some payload), Some tabId =>
      if tabId =? 0 then st else armTab st tabId payload
  | _, _ => st
  end.

(** [chrome.runtime.onMessage]; the second component is the reply given
    through [sendResponse], if any. *)
Definition onMessage (now : Z) (st : Store) (msg : Msg.t) (sender : Sender)
  : Store * option (option Msg.Creds) :=
  match truthyTabId sender with
  | None => (st, None)
  | Some tabId =>
      match msg with
      | Msg.storeRawHref h =>
          ({| credsByTab := credsByTab st;
              rawHrefPerTab := <[tabId := Js.orElse h EmptyString]> (rawHrefPerTab st);
              failUntilByOrigin := failUntilByOrigin st |}, None)
      | Msg.requestCreds => (st, Some (credsByTab st !! tabId))
      | Msg.updateStage s =>
          match credsByTab st !! tabId with
          | Some c => (armTab st tabId (Msg.setStage c s), None)
          | None => (st, None)
          end
      | Msg.clearCreds => (disarmTab st tabId, None)
      | Msg.markOriginFailure =>
          let url := match tab sender with Some t => tabUrl t | None => EmptyString end in
          let origin := originOf url in
          if Js.truthy origin then
            ({| credsByTab := credsByTab st;
                rawHrefPerTab := rawHrefPerTab st;
                failUntilByOrigin :=
                  <[origin := now + SUBMIT_COOLDOWN_MS]> (failUntilByOrigin st) |}, None)
          else (st, None)
      end
  end.

(** [chrome.tabs.onRemoved] *)
Definition onRemoved (st : Store) (tabId : Z) : Store := disarmTab st tabId.

End Host.

End Background.

(** ** Service worker of the Pro build: the flexible parser *)
Module ProBackground.

Record Link : Type := { url : string; username : string; password : string }.

Section Host.

Variable URL : string -> option Url.

Definition parseColonLinkFlexible (href : string) : option Link :=
  if negb (Js.truthy href) then None
  else
    let last := Js.lastIndexOf ":" href in
    let prev := Js.lastIndexOfFrom ":" href (last - 1) in
    if (last <=? 0) || (prev <=? 0) then None
    else
      let base := Js.trim (Js.slice href 0 prev) in
      let u := Js.trim (Js.slice href (prev + 1) last) in
      let p := Js.trim (Js.sliceFrom href (last + 1)) in
      let base := if Background.hasHttpPrefix base then base else "https://" +:+ base in
      match URL base with
      | Some x =>
          Some {| url := toString x; username := Js.tryDecode u; password := Js.tryDecode p |}
      | None => None
      end.

End Host.

End ProBackground.

(** ** The page as the content scripts observe it

    The DOM is the boundary of the model: a page is given by the answers of
    the DOM queries the scripts make.  Nodes are identified by numbers. *)
Module Dom.

(** An [<input>] element. [type] is the reflected property [el.type];
    [typeAttr] is the content attribute that CSS selectors inspect.
    [form] is the form owner, [ancestorForms] the enclosing [<form>]
    elements (nearest first), [closestRoleForm] the nearest ancestor
    carrying [role="form"]. *)
Record Input : Type :=
  { eid : nat;
    type : string;
    typeAttr : option string;
    name : string;
    id : string;
    placeholder : string;
    ariaLabel : option string;
    autocomplete : string;
    form : option nat;
    ancestorForms : list nat;
    closestRoleForm : option nat;
    parentElement : option nat }.

Inductive ControlTag : Type := button | input.

(** A [<button>] or an [<input type="submit">]: what the selectors
    ["button, input[type=submit]"] can return.  [typeSubmit] tells that the
    [type] attribute is ["submit"] (always so for the [input] tag). *)
Record Control : Type :=
  { bid : nat;
    tag : ControlTag;
    typeSubmit : bool;
    innerText : string;
    value : string }.

(** One document-like root: its inputs and its controls in document order,
    and for every element the controls below it. *)
Record Root : Type :=
  { inputs : list Input;
    controls : list Control;
    controlsIn : nat -> list Control }.

(** [bodyText] is [document.body.innerText], [None] when reading it
    throws.  A frame whose [contentDocument] is not accessible is [None]. *)
Record Page : Type :=
  { href : string;
    bodyText : option string;
    document : Root;
    shadowRoots : list Root;
    frames : list (option Root) }.

(** [el.closest("form")] *)
Definition closestForm (el : Input) : option nat := head (ancestorForms el).

(** Matches ['button[type="submit"], input[type="submit"]']. *)
Definition submitTyped (c : Control) : bool :=
  match tag c with
  | input => true
  | button => typeSubmit c
  end.

(** Matches ['button']. *)
Definition isButton (c : Control) : bool :=
  match tag c with
  | button => true
  | input => false
  end.

(** The [type] attribute equals [t], compared without regard to case. *)
Definition typeAttrIs (t : string) (el : Input) : bool :=
  match typeAttr el with
  | Some a => String.eqb (Js.toLowerCase a) t
  | None => false
  end.

(** Matches ['input[type="email"], input[type="text"], input:not([type])']. *)
Definition textLike (el : Input) : bool :=
  typeAttrIs "email" el || typeAttrIs "text" el
  || match typeAttr el with None => true | Some _ => false end.

(** [form.querySelectorAll(sel)] over the inputs of the root that holds
    the form. *)
Definition inputsIn (root : Root) (formId : nat) (sel : Input -> bool) : list Input :=
  List.filter (fun el => existsb (Nat.eqb formId) (ancestorForms el) && sel el) (inputs root).

(** [allRoots()]: the document, then every open shadow root, then every
    accessible frame document. *)
Definition allRoots (pg : Page) : list Root :=
  document pg :: shadowRoots pg ++ omap (fun f => f) (frames pg).

(** What a callback observes while it runs. *)
Record Env : Type := { now : Z; page : Page }.

(** What a script does to the page and to the channel. *)
Inductive Event : Type :=
| setVal (el : nat) (val : string)
| click (b : nat)
| send (m : Msg.t)
| toast (msg : string).

Definition isClick (e : Event) : bool :=
  match e with click _ => true | _ => false end.

Definition isSetVal (e : Event) : bool :=
  match e with setVal _ _ => true | _ => false end.

(** A fill or a submit: anything done to the page's form. *)
Definition isAction (e : Event) : bool := isClick e || isSetVal e.

Definition clicks (log : list Event) : Z := Z.of_nat (length (List.filter isClick log)).

(** Running maximum of the scoring loops: the first element with the
    strictly highest score wins. *)
Fixpoint scan (score : Input -> Z) (els : list Input) (best : option Input) (bestScore : Z)
  : option Input * Z :=
  match els with
  | [] => (best, bestScore)
  | el :: rest =>
      let s := score el in
      if bestScore <? s then scan score rest (Some el) s
      else scan score rest best bestScore
  end.

Definition isSome {A : Type} (o : option A) : bool :=
  match o with Some _ => true | None => false end.

(** [a || b] on nullable references. *)
Definition orRef {A : Type} (a b : option A) : option A :=
  match a with Some _ => a | None => b end.

End Dom.

(** ** Content script of the anti-loop build *)
Module Content.
Import Dom.

Definition SCAN_MS : Z := 800.
(** Set to true if the script should click the submit button by itself. *)
Definition AUTO_SUBMIT_DEFAULT : bool := false.
(** Maximum number of automatic submit clicks per tab. *)
Definition MAX_SUBMITS_PER_TAB : Z := 1.
(** After a detected failure, no automatic action for this long. *)
Definition SUBMIT_COOLDOWN_MS : Z := 10 * 60 * 1000.

Definition FAILURE_TERMS : list string :=
  ["invalid"; "incorrect"; "try again"; "failed"; "mismatch"; "not match";
   "unauthorized"; "forbidden"; "access denied"; "locked"; "captcha";
   "too many"; "limit"; "banned";
   "無効"; "エラー"; "错误"; "失敗"; "fehlgeschlagen"; "неверный"; "ошибка"; "gagal"]%string.

Definition USER_TERMS : list string :=
  ["user"; "username"; "login"; "email"; "e-mail"; "mail"; "id"; "correo";
   "benutzer"; "로그인"; "メール"; "邮箱"; "帳號"]%string.

Definition PASS_TERMS : list string :=
  ["pass"; "password"; "senha"; "пароль"; "סיסמה"; "密碼"; "密码"; "비밀번호";
   "パスワード"]%string.

(** Credentials and progress of this tab. *)
Record State : Type :=
  { armed : bool; u : string; p : string; twoStep : bool; stage : string }.

(** Anti-loop bookkeeping. *)
Record Anti : Type :=
  { autoSubmit : bool;
    submittedCount : Z;
    lastSubmitAt : Z;
    coolDownUntil : Z;
    lastUrlAfterSubmit : string }.

Definition norm (s : string) : string := Js.toLowerCase s.

Definition hasAny (s : string) (arr : list string) : bool :=
  Js.someIncluded (norm s) arr.

Definition meta (el : Input) : string :=
  name el +:+ " " +:+ id el +:+ " " +:+ placeholder el +:+ " "
  +:+ default EmptyString (ariaLabel el).

(** Body of the first loop of [findBestInputs]. *)
Definition userScoreOf (el : Input) : Z :=
  let t := norm (type el) in
  let ac := norm (autocomplete el) in
  (if negb (Js.truthy t) || String.eqb t "text" || String.eqb t "email" then 2 else 0)
  + (if hasAny (meta el) USER_TERMS then 6 else 0)
  + (if String.eqb ac "username" || String.eqb ac "email" then 6 else 0)
  + (if String.eqb t "email" then 3 else 0).

(** Body of the second loop of [findBestInputs]. *)
Definition passScoreOf (el : Input) : Z :=
  let t := norm (type el) in
  let ac := norm (autocomplete el) in
  (if String.eqb t "password" then 8 else 0)
  + (if hasAny (meta el) PASS_TERMS then 6 else 0)
  + (if Js.includes ac "password" then 6 else 0).

(** Returns [(userBest, passBest)]. *)
Definition findBestInputs (root : Root) : option Input * option Input :=
  (fst (scan userScoreOf (inputs root) None (-1)),
   fst (scan passScoreOf (inputs root) None (-1))).

Definition controlText (b : Control) : string :=
  norm (Js.orElse (innerText b) (Js.orElse (value b) EmptyString)).

Definition saysSubmit (b : Control) : bool :=
  let txt := controlText b in
  Js.includes txt "login" || Js.includes txt "sign in"
  || Js.includes txt "continue" || Js.includes txt "next".

(** Locate a submit button near the given element. *)
Definition findSubmitNear (pg : Page) (root : Root) (el : Input) : option Control :=
  let viaForm :=
    match orRef (form el) (closestForm el) with
    | Some f => find submitTyped (controlsIn root f)
    | None => None
    end in
  match viaForm with
  | Some btn => Some btn
  | None =>
      let near :=
        match orRef (closestForm el) (orRef (closestRoleForm el) (parentElement el)) with
        | Some n => controlsIn root n
        | None => controls (document pg)
        end in
      find saysSubmit near
  end.

(** *** The script's effects

    A computation reads and updates the anti-loop record and appends to
    the log of events. *)
Definition M (A : Type) : Type := Anti -> A * Anti * list Event.

Definition ret {A : Type} (x : A) : M A := fun a => (x, a, []).

Definition bind {A B : Type} (m : M A) (k : A -> M B) : M B :=
  fun a =>
    let '(x, a1, l1) := m a in
    let '(y, a2, l2) := k x a1 in
    (y, a2, l1 ++ l2).

Definition emit (e : Event) : M unit := fun a => (tt, a, [e]).

Definition when (c : bool) (m : M unit) : M unit := if c then m else ret tt.

Notation "m ;;; k" := (bind m (fun _ => k))
  (at level 90, right associativity).

(** Determine if we can auto-click submit based on the anti-loop guards. *)
Definition canAutoSubmit (now : Z) (a : Anti) : bool :=
  if negb (autoSubmit a) then false
  else if now <? coolDownUntil a then false
  else if MAX_SUBMITS_PER_TAB <=? submittedCount a then false
  else true.

(** Record that we have auto-clicked submit. *)
Definition recordSubmit (e : Env) : M unit :=
  fun a =>
    (tt,
     {| autoSubmit := autoSubmit a;
        submittedCount := submittedCount a + 1;
        lastSubmitAt := now e;
        coolDownUntil := coolDownUntil a;
        lastUrlAfterSubmit := href (page e) |},
     []).

(** Start a cool down after failure. *)
Definition onFailureCoolDown (e : Env) (a : Anti) : Anti :=
  {| autoSubmit := autoSubmit a;
     submittedCount := submittedCount a;
     lastSubmitAt := lastSubmitAt a;
     coolDownUntil := now e + SUBMIT_COOLDOWN_MS;
     lastUrlAfterSubmit := lastUrlAfterSubmit a |}.

(** [if (submit && canAutoSubmit()) { submit.click(); recordSubmit(); }] *)
Definition clickIfAllowed (e : Env) (submit : option Control) : M unit :=
  fun a =>
    match submit with
    | Some b =>
        if canAutoSubmit (now e) a then (emit (click (bid b)) ;;; recordSubmit e) a
        else ret tt a
    | None => ret tt a
    end.

(** Detect if the current page shows evidence of a login failure. *)
Definition pageShowsLikelyFailure (e : Env) (a : Anti) : bool :=
  let byText :=
    match bodyText (page e) with
    | Some body =>
        let txt := Js.toLowerCase (Js.orElse body EmptyString) in
        existsb (fun k => Js.includes txt k) FAILURE_TERMS
    | None => false
    end in
  if byText then true
  else
    match snd (findBestInputs (document (page e))) with
    | Some _ =>
        Js.truthy (lastUrlAfterSubmit a)
        && String.eqb (lastUrlAfterSubmit a) (href (page e))
    | None => false
    end.

(** Fill username and password if present on the page, optionally
    auto-submit.  [anyFilled] is the flag carried across the roots. *)
Fixpoint fillBothFrom (e : Env) (u p : string) (roots : list Root) (anyFilled : bool)
  : M bool :=
  match roots with
  | [] => ret anyFilled
  | root :: rest =>
      let '(userBest, passBest) := findBestInputs root in
      let fillsUser := isSome userBest && Js.truthy u in
      let fillsPass := isSome passBest && Js.truthy p in
      when fillsUser
        (match userBest with Some el => emit (setVal (eid el) u) | None => ret tt end) ;;;
      when fillsPass
        (match passBest with Some el => emit (setVal (eid el) p) | None => ret tt end) ;;;
      let changed := fillsUser || fillsPass in
      match passBest with
      | Some pb =>
          if changed then
            clickIfAllowed e (findSubmitNear (page e) root pb) ;;; ret true
          else fillBothFrom e u p rest (anyFilled || changed)
      | None => fillBothFrom e u p rest (anyFilled || changed)
      end
  end.

Definition fillBoth (e : Env) (u p : string) : M bool :=
  fillBothFrom e u p (allRoots (page e)) false.

(** Fill only the username/email field (first step of two-step). *)
Fixpoint fillUserFrom (e : Env) (u : string) (roots : list Root) : M bool :=
  match roots with
  | [] => ret false
  | root :: rest =>
      match findBestInputs root with
      | (Some ub, None) =>
          if Js.truthy u then
            emit (setVal (eid ub) u) ;;;
            clickIfAllowed e (findSubmitNear (page e) root ub) ;;; ret true
          else fillUserFrom e u rest
      | _ => fillUserFrom e u rest
      end
  end.

Definition fillUser (e : Env) (u : string) : M bool :=
  fillUserFrom e u (allRoots (page e)).

(** Fill only the password field (second step of two-step). *)
Fixpoint fillPassFrom (e : Env) (p : string) (roots : list Root) : M bool :=
  match roots with
  | [] => ret false
  | root :: rest =>
      match snd (findBestInputs root) with
      | Some pb =>
          if Js.truthy p then
            emit (setVal (eid pb) p) ;;;
            clickIfAllowed e (findSubmitNear (page e) root pb) ;;; ret true
          else fillPassFrom e p rest
      | None => fillPassFrom e p rest
      end
  end.

Definition fillPass (e : Env) (p : string) : M bool :=
  fillPassFrom e p (allRoots (page e)).

(** *** The two flows as reactions to the host's callbacks

    [attempts], [intervalOn] and [observerOn] stand for the local counter,
    the interval handle and the mutation observer of [runNormal] or
    [runTwoStep]; a cleared interval and a disconnected observer never call
    back. *)
Record Script : Type :=
  { state : State;
    anti : Anti;
    attempts : Z;
    intervalOn : bool;
    observerOn : bool }.

Inductive Trigger : Type :=
| tick (e : Env)            (* the interval of SCAN_MS fires *)
| mutation (e : Env)        (* the mutation observer reports a change *)
| observerTimeout.        (* the timeout that disconnects the observer *)

Definition setArmed (s : State) (b : bool) : State :=
  {| armed := b; u := u s; p := p s; twoStep := twoStep s; stage := stage s |}.

Definition setStage (s : State) (g : string) : State :=
  {| armed := armed s; u := u s; p := p s; twoStep := twoStep s; stage := g |}.

(** The variables before the worker has answered. *)
Definition initial (auto : bool) : Script :=
  {| state := {| armed := false; u := ""; p := ""; twoStep := false; stage := "" |};
     anti := {| autoSubmit := auto; submittedCount := 0; lastSubmitAt := 0;
                coolDownUntil := 0; lastUrlAfterSubmit := "" |};
     attempts := 0;
     intervalOn := false;
     observerOn := false |}.

(** The callback of [requestCreds]: arm and start the flow, or do nothing
    when the worker holds no entry for this tab. *)
Definition requestCreds (s : Script) (res : option Msg.Creds) : Script :=
  match res with
  | None => s
  | Some c =>
      {| state := {| armed := true; u := Msg.u c; p := Msg.p c;
                     twoStep := Msg.twoStep (Msg.mode c);
                     stage := Js.orElse (Msg.stage c) "init" |};
         anti := anti s;
         attempts := 0;
         intervalOn := true;
         observerOn := true |}
  end.

(** The failure branch shared by both interval callbacks. *)
Definition failed (e : Env) (s : Script) (n : Z) : Script * list Event :=
  ({| state := setArmed (state s) false;
      anti := onFailureCoolDown e (anti s);
      attempts := n;
      intervalOn := false;
      observerOn := observerOn s |},
   [send Msg.clearCreds; send Msg.markOriginFailure]).

(** Interval callback of [runNormal]. *)
Definition tickNormal (e : Env) (s : Script) : Script * list Event :=
  let n := attempts s + 1 in
  if negb (armed (state s)) then
    ({| state := state s; anti := anti s; attempts := n;
        intervalOn := false; observerOn := observerOn s |}, [])
  else if pageShowsLikelyFailure e (anti s) then failed e s n
  else
    let '(ok, a, log) := fillBoth e (u (state s)) (p (state s)) (anti s) in
    if ok then
      ({| state := setArmed (state s) false; anti := a; attempts := n;
          intervalOn := false; observerOn := observerOn s |},
       log ++ [send Msg.clearCreds])
    else
      ({| state := state s; anti := a; attempts := n;
          intervalOn := negb (400 <=? n); observerOn := observerOn s |}, log).

(** Mutation callback of [runNormal]. *)
Definition mutationNormal (e : Env) (s : Script) : Script * list Event :=
  if negb (armed (state s)) then (s, [])
  else
    let '(_, a, log) := fillBoth e (u (state s)) (p (state s)) (anti s) in
    ({| state := state s; anti := a; attempts := attempts s;
        intervalOn := intervalOn s; observerOn := observerOn s |}, log).

(** Interval callback of [runTwoStep]. *)
Definition tickTwoStep (e : Env) (s : Script) : Script * list Event :=
  let n := attempts s + 1 in
  if negb (armed (state s)) then
    ({| state := state s; anti := anti s; attempts := n;
        intervalOn := false; observerOn := observerOn s |}, [])
  else if pageShowsLikelyFailure e (anti s) then failed e s n
  else if String.eqb (stage (state s)) "init" then
    let '(ok, a, log) := fillBoth e (u (state s)) (p (state s)) (anti s) in
    if ok then
      ({| state := setArmed (state s) false; anti := a; attempts := n;
          intervalOn := false; observerOn := observerOn s |},
       log ++ [send Msg.clearCreds])
    else
      let '(ok2, a2, log2) := fillUser e (u (state s)) a in
      if ok2 then
        ({| state := setStage (state s) "userSubmitted"; anti := a2; attempts := n;
            intervalOn := negb (1000 <=? n); observerOn := observerOn s |},
         log ++ log2 ++ [send (Msg.updateStage "userSubmitted")])
      else
        ({| state := state s; anti := a2; attempts := n;
            intervalOn := negb (1000 <=? n); observerOn := observerOn s |},
         log ++ log2)
  else
    let '(ok, a, log) := fillPass e (p (state s)) (anti s) in
    if ok then
      ({| state := setArmed (state s) false; anti := a; attempts := n;
          intervalOn := false; observerOn := observerOn s |},
       log ++ [send Msg.clearCreds])
    else
      ({| state := state s; anti := a; attempts := n;
          intervalOn := negb (1000 <=? n); observerOn := observerOn s |}, log).

(** Mutation callback of [runTwoStep]. *)
Definition mutationTwoStep (e : Env) (s : Script) : Script * list Event :=
  if negb (armed (state s)) then (s, [])
  else
    let '(_, a, log) :=
      if String.eqb (stage (state s)) "userSubmitted" then fillPass e (p (state s)) (anti s)
      else fillBoth e (u (state s)) (p (state s)) (anti s) in
    ({| state := state s; anti := a; attempts := attempts s;
        intervalOn := intervalOn s; observerOn := observerOn s |}, log).

(** One callback.  [requestCreds] starts [runTwoStep] when the entry says
    two-step and [runNormal] otherwise; the flag never changes afterwards. *)
Definition step (s : Script) (t : Trigger) : Script * list Event :=
  match t with
  | tick e =>
      if intervalOn s then
        if twoStep (state s) then tickTwoStep e s else tickNormal e s
      else (s, [])
  | mutation e =>
      if observerOn s then
        if twoStep (state s) then mutationTwoStep e s else mutationNormal e s
      else (s, [])
  | observerTimeout =>
      ({| state := state s; anti := anti s; attempts := attempts s;
          intervalOn := intervalOn s; observerOn := false |}, [])
  end.

Fixpoint run (s : Script) (ts : list Trigger) : Script * list Event :=
  match ts with
  | [] => (s, [])
  | t :: rest =>
      let '(s1, l1) := step s t in
      let '(s2, l2) := run s1 rest in
      (s2, l1 ++ l2)
  end.

(** The script as shipped, from injection to the end of the triggers. *)
Definition script (res : option Msg.Creds) (ts : list Trigger) : Script * list Event :=
  run (requestCreds (initial AUTO_SUBMIT_DEFAULT) res) ts.

End Content.

(** ** Content script of the Pro build *)
Module ProContent.
Import Dom.

Definition AUTO_SUBMIT : bool := true.
Definition SCAN_INTERVAL_MS : Z := 800.

Definition USER_TERMS : list string :=
  ["user"; "username"; "login"; "email"; "e-mail"; "mail"; "usuario"; "usuário";
   "utilisateur"; "utente"; "usuari"; "correo"; "adresse"; "benutzer";
   "benutzername"; "anmelden"; "einloggen"; "brugernavn"; "gebruikersnaam"; "e-post";
   "имя"; "логин"; "пользов"; "користувач"; "логін"; "użytkownik"; "kullanıcı";
   "eposta"; "χρήστη"; "σύνδεση"; "משתמש"; ("דוא" +:+ String (ascii_of_nat 34) "ל");
   "بريد"; "مستخدم"; "حساب"; "ايميل"; "ईमेल"; "उपयोगकर्ता"; "メール"; "ユーザー"; "ログイン";
   "电子邮件"; "郵件"; "邮箱"; "帳號"; "賬號"; "사용자"; "아이디"]%string.

Definition PASS_TERMS : list string :=
  ["pass"; "password"; "senha"; "mot de passe"; "contrasena"; "contraseña"; "hasło";
   "şifre"; "пароль"; "סיסמה"; "密碼"; "密码"; "암호"; "비밀번호"; "パスワード"; "รหัสผ่าน";
   "mật khẩu"]%string.

Definition SUBMIT_TERMS : list string :=
  ["login"; "log in"; "sign in"; "anmelden"; "einloggen"; "connexion"; "accedi";
   "acceso"; "entrar"; "iniciar sesión"; "giriş"; "войти"; "התחבר"; "تسجيل الدخول";
   "ログイン"; "로그인"; "登录"; "登入"; "đăng nhập"; "เข้าสู่ระบบ"; "zaloguj"; "continue";
   "next"; "weiter"; "suivant"; "avanti"; "continuar"; "siguiente"; "下一步"; "继续";
   "次へ"; "다음"; "продолжить"; "lanjut"; "berikutnya"]%string.

Definition norm (s : string) : string := Js.toLowerCase s.

Definition hasTerm (str : string) (terms : list string) : bool :=
  Js.someIncluded (norm str) terms.

(** Score potential username inputs. *)
Definition scoreUsernameInput (el : Input) : Z :=
  let type := norm (type el) in
  let nameId := norm (name el) +:+ " " +:+ norm (id el) in
  let placeholder := norm (placeholder el) in
  let aria := norm (default EmptyString (ariaLabel el)) in
  let ac := norm (autocomplete el) in
  (if String.eqb type "email" || String.eqb type "text" || negb (Js.truthy type)
   then 2 else 0)
  + (if hasTerm nameId USER_TERMS then 6 else 0)
  + (if hasTerm placeholder USER_TERMS then 4 else 0)
  + (if hasTerm aria USER_TERMS then 4 else 0)
  + (if String.eqb ac "username" || String.eqb ac "email" then 6 else 0)
  + (if String.eqb type "email" then 3 else 0).

(** Score potential password inputs. *)
Definition scorePasswordInput (el : Input) : Z :=
  let type := norm (type el) in
  let nameId := norm (name el) +:+ " " +:+ norm (id el) in
  let placeholder := norm (placeholder el) in
  let aria := norm (default EmptyString (ariaLabel el)) in
  let ac := norm (autocomplete el) in
  (if String.eqb type "password" then 8 else 0)
  + (if hasTerm nameId PASS_TERMS then 5 else 0)
  + (if hasTerm placeholder PASS_TERMS then 4 else 0)
  + (if hasTerm aria PASS_TERMS then 4 else 0)
  + (if Js.includes ac "password" then 6 else 0).

(** [passBest.form !== userBest.form], both present. *)
Definition formsDiffer (passBest userBest : Input) : option nat :=
  match form passBest, form userBest with
  | Some pf, Some uf => if Nat.eqb pf uf then None else Some pf
  | _, _ => None
  end.

(** Find the best username and password inputs on a root, preferring a
    username field in the same form as the password field.  Returns
    [(userBest, passBest)]. *)
Definition findBestInputs (root : Root) : option Input * option Input :=
  let '(passBest, passScore) := scan scorePasswordInput (inputs root) None (-1) in
  let '(userBest, userScore) := scan scoreUsernameInput (inputs root) None (-1) in
  match passBest, userBest with
  | Some pb, Some ub =>
      match formsDiffer pb ub with
      | Some pf =>
          let cands := inputsIn root pf textLike in
          let '(best, bestScore) := scan scoreUsernameInput cands None (-1) in
          match best with
          | Some b =>
              if Z.max 3 (userScore - 2) <=? bestScore then (Some b, passBest)
              else (userBest, passBest)
          | None => (userBest, passBest)
          end
      | None => (userBest, passBest)
      end
  | _, _ => (userBest, passBest)
  end.

(** [s.length]: UTF-16 code units of a UTF-8 encoded text. *)
Fixpoint length16 (s : string) : Z :=
  match s with
  | EmptyString => 0
  | String c r =>
      let n := nat_of_ascii c in
      (if ((128 <=? n) && (n <=? 191))%nat then 0
       else if (240 <=? n)%nat then 2 else 1) + length16 r
  end.

(** Locate a submit/continue button near a context element or root. *)
Definition findSubmitButton (root : Root) (ctx : Input) : option Control :=
  let viaForm :=
    match orRef (form ctx) (closestForm ctx) with
    | Some f => find submitTyped (controlsIn root f)
    | None => None
    end in
  match viaForm with
  | Some btn => Some btn
  | None =>
      let cands :=
        match orRef (closestForm ctx) (orRef (closestRoleForm ctx) (parentElement ctx)) with
        | Some n => controlsIn root n
        | None => []
        end in
      match
        find (fun c => hasTerm (norm (Js.orElse (innerText c) (Js.orElse (value c) EmptyString)))
                         SUBMIT_TERMS) cands
      with
      | Some c => Some c
      | None =>
          match find submitTyped (controls root) with
          | Some any => Some any
          | None =>
              find (fun b =>
                      let t := norm (innerText b) in
                      isButton b && Js.truthy t && (length16 t <? 28)
                      && hasTerm t SUBMIT_TERMS)
                   (controls root)
          end
      end
  end.

(** [submit?.click?.()] *)
Definition clickOf (submit : option Control) : list Event :=
  match submit with
  | Some b => [click (bid b)]
  | None => []
  end.

(** Fill the username/email only (for two-step flows). *)
Fixpoint fillUsernameOnlyFrom (u : string) (roots : list Root) : bool * list Event :=
  match roots with
  | [] => (false, [])
  | root :: rest =>
      match findBestInputs root with
      | (Some ub, None) =>
          if Js.truthy u then
            (true, setVal (eid ub) u :: clickOf (findSubmitButton root ub))
          else fillUsernameOnlyFrom u rest
      | _ => fillUsernameOnlyFrom u rest
      end
  end.

Definition fillUsernameOnly (pg : Page) (u : string) : bool * list Event :=
  fillUsernameOnlyFrom u (allRoots pg).

(** Fill only the password field (for two-step flows). *)
Fixpoint fillPasswordIfPresentFrom (p : string) (roots : list Root) : bool * list Event :=
  match roots with
  | [] => (false, [])
  | root :: rest =>
      match snd (findBestInputs root) with
      | Some pb =>
          if Js.truthy p then
            (true, setVal (eid pb) p :: clickOf (findSubmitButton root pb))
          else fillPasswordIfPresentFrom p rest
      | None => fillPasswordIfPresentFrom p rest
      end
  end.

Definition fillPasswordIfPresent (pg : Page) (p : string) : bool * list Event :=
  fillPasswordIfPresentFrom p (allRoots pg).

(** Fill both username and password if present.  [any] is declared
    outside the loop and so carried from one root to the next. *)
Fixpoint fillBothIfPresentFrom (u p : string) (roots : list Root) (any : bool)
  : bool * list Event :=
  match roots with
  | [] => (false, [])
  | root :: rest =>
      let '(userBest, passBest) := findBestInputs root in
      let fillsUser := isSome userBest && Js.truthy u in
      let fillsPass := isSome passBest && Js.truthy p in
      let l1 :=
        match userBest with
        | Some el => if fillsUser then [setVal (eid el) u] else []
        | None => []
        end in
      let l2 :=
        match passBest with
        | Some el => if fillsPass then [setVal (eid el) p] else []
        | None => []
        end in
      let any1 := any || fillsUser || fillsPass in
      match passBest with
      | Some pb =>
          if any1 then (true, l1 ++ l2 ++ clickOf (findSubmitButton root pb))
          else
            let '(ok, l3) := fillBothIfPresentFrom u p rest any1 in
            (ok, l1 ++ l2 ++ l3)
      | None =>
          let '(ok, l3) := fillBothIfPresentFrom u p rest any1 in
          (ok, l1 ++ l2 ++ l3)
      end
  end.

Definition fillBothIfPresent (pg : Page) (u p : string) : bool * list Event :=
  fillBothIfPresentFrom u p (allRoots pg) false.

(** *** The two flows as reactions to the host's callbacks

    [stage] and [attempts] are the locals of [tryAutofillTwoStep] or
    [tryAutofillNormal]; [intervalOn] and [observerOn] stand for the
    interval handle and the mutation observer. *)
Record Script : Type :=
  { creds : option Msg.Creds;
    stage : string;
    attempts : Z;
    intervalOn : bool;
    observerOn : bool }.

Inductive Trigger : Type :=
| tick (pg : Page)          (* the interval of SCAN_INTERVAL_MS fires *)
| mutation (pg : Page)      (* the mutation observer reports a change *)
| beforeunload            (* the disposers run *)
| manualFill (pg : Page) (res : option Msg.Creds)
                          (* a [manualFill] message, at the worker's answer *)
| disarmed.               (* a [disarmed] message *)

Definition idle : Script :=
  {| creds := None; stage := ""; attempts := 0; intervalOn := false; observerOn := false |}.

(** The callback of [requestCredsAndMaybeFill]. *)
Definition requestCredsAndMaybeFill (res : option Msg.Creds) : Script :=
  match res with
  | None => idle
  | Some c =>
      {| creds := Some c;
         stage := if Msg.twoStep (Msg.mode c) then Js.orElse (Msg.stage c) "init" else "";
         attempts := 0;
         intervalOn := true;
         observerOn := true |}
  end.

Definition stop (s : Script) (n : Z) : Script :=
  {| creds := creds s; stage := stage s; attempts := n;
     intervalOn := false; observerOn := observerOn s |}.

(** Interval callback of [tryAutofillNormal]. *)
Definition tickNormal (pg : Page) (c : Msg.Creds) (s : Script) : Script * list Event :=
  let n := attempts s + 1 in
  let '(ok, log) := fillBothIfPresent pg (Msg.u c) (Msg.p c) in
  if ok then (stop s n, log ++ [send Msg.clearCreds; toast "Autofilled ✔︎"])
  else
    ({| creds := creds s; stage := stage s; attempts := n;
        intervalOn := negb (400 <=? n); observerOn := observerOn s |}, log).

(** Mutation callback of [tryAutofillNormal]. *)
Definition mutationNormal (pg : Page) (c : Msg.Creds) (s : Script) : Script * list Event :=
  (s, snd (fillBothIfPresent pg (Msg.u c) (Msg.p c))).

(** Interval callback of [tryAutofillTwoStep]. *)
Definition tickTwoStep (pg : Page) (c : Msg.Creds) (s : Script) : Script * list Event :=
  let n := attempts s + 1 in
  if String.eqb (stage s) "init" then
    let '(ok, log) := fillBothIfPresent pg (Msg.u c) (Msg.p c) in
    if ok then (stop s n, log ++ [send Msg.clearCreds; toast "Autofilled ✔︎"])
    else
      let '(ok2, log2) := fillUsernameOnly pg (Msg.u c) in
      ({| creds := creds s;
          stage := if ok2 then "userSubmitted" else stage s;
          attempts := n;
          intervalOn := negb (500 <=? n);
          observerOn := observerOn s |},
       log ++ log2 ++ (if ok2 then [send (Msg.updateStage "userSubmitted")] else []))
  else
    let '(ok, log) := fillPasswordIfPresent pg (Msg.p c) in
    if ok then (stop s n, log ++ [send Msg.clearCreds; toast "Password filled ✔︎"])
    else
      ({| creds := creds s; stage := stage s; attempts := n;
          intervalOn := negb (500 <=? n); observerOn := observerOn s |}, log).

(** Mutation callback of [tryAutofillTwoStep]. *)
Definition mutationTwoStep (pg : Page) (c : Msg.Creds) (s : Script) : Script * list Event :=
  if String.eqb (stage s) "userSubmitted" then
    let '(ok, log) := fillPasswordIfPresent pg (Msg.p c) in
    if ok then
      ({| creds := creds s; stage := stage s; attempts := attempts s;
          intervalOn := false; observerOn := false |},
       log ++ [send Msg.clearCreds; toast "Password filled ✔︎"])
    else (s, log)
  else (s, snd (fillBothIfPresent pg (Msg.u c) (Msg.p c))).

(** The listener for [manualFill]: it asks the worker for the tab's entry
    and, at the answer [res], fills by the entry's own mode and stage.  It
    reads and writes none of the variables of the two flows. *)
Definition onManualFill (pg : Page) (res : option Msg.Creds) : list Event :=
  match res with
  | None => [toast "No stored credentials for this tab."]
  | Some c =>
      if Msg.twoStep (Msg.mode c) then
        if String.eqb (Msg.stage c) "userSubmitted" then
          let '(ok, log) := fillPasswordIfPresent pg (Msg.p c) in
          log ++ (if ok then [send Msg.clearCreds] else [])
              ++ [toast (if ok then "Password filled (manual) ✔︎"
                         else "Password field not found yet.")]
        else
          let '(ok1, log1) := fillUsernameOnly pg (Msg.u c) in
          let '(ok, log2) :=
            if ok1 then (true, []) else fillBothIfPresent pg (Msg.u c) (Msg.p c) in
          log1 ++ log2
               ++ (if ok then [send (Msg.updateStage "userSubmitted")] else [])
               ++ [toast (if ok then "Username filled (manual) ✔︎"
                          else "Username field not found yet.")]
      else
        let '(ok, log) := fillBothIfPresent pg (Msg.u c) (Msg.p c) in
        log ++ (if ok then [send Msg.clearCreds] else [])
            ++ [toast (if ok then "Manual fill ✔︎" else "Login fields not found.")]
  end.

(** One callback.  The interval, the observer and the disposers exist once
    [requestCredsAndMaybeFill] has got an entry; the message listener is
    registered at start-up. *)
Definition step (s : Script) (t : Trigger) : Script * list Event :=
  match t with
  | tick pg =>
      match creds s with
      | None => (s, [])
      | Some c =>
          if intervalOn s then
            if Msg.twoStep (Msg.mode c) then tickTwoStep pg c s else tickNormal pg c s
          else (s, [])
      end
  | mutation pg =>
      match creds s with
      | None => (s, [])
      | Some c =>
          if observerOn s then
            if Msg.twoStep (Msg.mode c) then mutationTwoStep pg c s else mutationNormal pg c s
          else (s, [])
      end
  | beforeunload =>
      match creds s with
      | None => (s, [])
      | Some _ =>
          ({| creds := creds s; stage := stage s; attempts := attempts s;
              intervalOn := false; observerOn := false |}, [])
      end
  | manualFill pg res => (s, onManualFill pg res)
  | disarmed => (s, [toast "Autofill disarmed."])
  end.

Fixpoint run (s : Script) (ts : list Trigger) : Script * list Event :=
  match ts with
  | [] => (s, [])
  | t :: rest =>
      let '(s1, l1) := step s t in
      let '(s2, l2) := run s1 rest in
      (s2, l1 ++ l2)
  end.

End ProContent.

(** ** The colon-link grammar and the decoding rule, in the spec's words *)
Module Grammar.
Fixpoint count (c : ascii) (s : string) : nat :=
  match s with
  | EmptyString => 0%nat
  | String a r => ((if Ascii.eqb a c then 1 else 0) + count c r)%nat
  end.

(** Colons at valid, non-leading positions. *)
Definition colonsAfterFirst (s : string) : nat := count ":" (Js.drop 1 s).

Definition absent (c : ascii) (s : string) : Prop := count c s = 0%nat.

Definition colonLink (s base user pass : string) : Prop :=
  s = base +:+ ":" +:+ user +:+ ":" +:+ pass
  /\ base <> EmptyString /\ absent ":" user /\ absent ":" pass.

Definition decodedOrRaw (segment out : string) : Prop :=
  match Js.decodeURIComponent segment with
  | Some d => out = d
  | None => out = segment
  end.
(** Position of a character in a text. *)
Fixpoint indexIn (c : ascii) (s : string) : option nat :=
  match s with
  | EmptyString => None
  | String a r => if Ascii.eqb a c then Some 0%nat else option_map S (indexIn c r)
  end.

(** The value of a hexadecimal digit, in either case. *)
Definition hexValue (c : ascii) : option nat :=
  match indexIn c "0123456789abcdef", indexIn c "0123456789ABCDEF" with
  | Some v, _ => Some v
  | None, Some v => Some v
  | None, None => None
  end.

(** Percent-decoding, octet by octet: every ["%"] opens an escape of two
    hexadecimal digits and stands for the octet they spell, every other
    character stands for itself.  [escapesBelow n] asks in addition that every
    escape spells an octet below [n]. *)
Inductive escapesBelow (n : nat) : string -> string -> Prop :=
| decoded_end : escapesBelow n EmptyString EmptyString
| decoded_char (c : ascii) (s d : string) :
    c <> "%"%char -> escapesBelow n s d -> escapesBelow n (String c s) (String c d)
| decoded_escape (h l : ascii) (x y : nat) (s d : string) :
    hexValue h = Some x -> hexValue l = Some y -> (16 * x + y < n)%nat ->
    escapesBelow n s d ->
    escapesBelow n (String "%" (String h (String l s)))
                 (String (ascii_of_nat (16 * x + y)) d).

Definition percentDecoded : string -> string -> Prop := escapesBelow 256.

(** The spec's rule for a credential: the segment percent-decoded, or the
    segment itself; decoded whenever every escape spells an ASCII character;
    the segment itself whenever it has no decoding at all. *)
Definition decodedElseRaw (segment out : string) : Prop :=
  (percentDecoded segment out \/ out = segment)
  /\ (forall d, escapesBelow 128 segment d -> out = d)
  /\ ((forall d, ~ percentDecoded segment d) -> out = segment).

(** The octets a token list spells. *)
Fixpoint spell (ts : list Js.token) : string :=
  match ts with
  | [] => EmptyString
  | Js.Lit c :: r => String c (spell r)
  | Js.Esc o :: r => String (ascii_of_nat o) (spell r)
  end.
End Grammar.

(** ** The claims on the flow and on the scorer, in the spec's words *)
Module Claimed.
Import Dom.

(** Failure detection pre-empts the callback [mk]. *)
Definition preempts (mk : Env -> Content.Trigger) : Prop :=
  forall s e,
    Content.armed (Content.state s) = true ->
    Content.intervalOn s = true -> Content.observerOn s = true ->
    Content.pageShowsLikelyFailure e (Content.anti s) = true ->
    Content.armed (Content.state (fst (Content.step s (mk e)))) = false
    /\ snd (Content.step s (mk e)) = [send Msg.clearCreds; send Msg.markOriginFailure].

(** The re-search replaces the global best exactly when the candidate is
    within [tol] of it. *)
Definition switchesExactlyWithin (tol : Z) : Prop :=
  forall root ub us pb ps pf c cs,
    scan ProContent.scoreUsernameInput (inputs root) None (-1) = (Some ub, us) ->
    scan ProContent.scorePasswordInput (inputs root) None (-1) = (Some pb, ps) ->
    ProContent.formsDiffer pb ub = Some pf ->
    scan ProContent.scoreUsernameInput (inputsIn root pf textLike) None (-1) = (Some c, cs) ->
    (fst (ProContent.findBestInputs root) = Some c <-> us - cs <= tol).

(** With one password field and one e-mail field in different forms, the
    e-mail field is chosen when it is within [tol] of the best score. *)
Definition emailChosenWithin (tol : Z) : Prop :=
  forall root pw em,
    inputs root = [pw; em] ->
    type pw = "password"%string -> type em = "email"%string ->
    ProContent.formsDiffer pw em <> None ->
    snd (scan ProContent.scoreUsernameInput (inputs root) None (-1))
      - ProContent.scoreUsernameInput em <= tol ->
    fst (ProContent.findBestInputs root) = Some em.
End Claimed.

(** ** Bookkeeping predicates for the anti-loop script *)
Module Governor.
Import Dom Content.

(** What a computation of the fill family does to the anti-loop record:
    every click is counted, the count stays under the cap, the switch and
    the cooldown are left alone, and nothing is clicked while automatic
    submission is off. *)
Definition governed {A : Type} (m : M A) : Prop :=
  forall a x a' l, m a = (x, a', l) ->
    submittedCount a' = submittedCount a + clicks l
    /\ (submittedCount a <= MAX_SUBMITS_PER_TAB -> submittedCount a' <= MAX_SUBMITS_PER_TAB)
    /\ autoSubmit a' = autoSubmit a
    /\ coolDownUntil a' = coolDownUntil a
    /\ (autoSubmit a = false -> a' = a /\ clicks l = 0).

(** The same for one callback or a run of callbacks, from script [s] to
    script [s'] with log [l]. *)
Definition capped (s s' : Script) (l : list Event) : Prop :=
  submittedCount (anti s') = submittedCount (anti s) + clicks l
  /\ (submittedCount (anti s) <= MAX_SUBMITS_PER_TAB ->
      submittedCount (anti s') <= MAX_SUBMITS_PER_TAB)
  /\ autoSubmit (anti s') = autoSubmit (anti s)
  /\ (autoSubmit (anti s) = false -> clicks l = 0).

(** A computation that only touches the page's form. *)
Definition actsOnly {A : Type} (m : M A) : Prop :=
  forall a, Forall (fun ev => isAction ev = true) (snd (m a)).
End Governor.

(** ** Sample pages, credentials and worker states *)
Module Samples.
Import Dom.

Definition field (n : nat) (ty nm : string) (f : nat) : Input :=
  {| eid := n; type := ty; typeAttr := Some ty; name := nm; id := ""; placeholder := "";
     ariaLabel := None; autocomplete := ""; form := Some f; ancestorForms := [f];
     closestRoleForm := None; parentElement := Some f |}.

(** [<form id=10><input type=text name=username><input type=password
    name=password><button type=submit>Sign in</button></form>] *)
Definition usernameField : Input := field 1 "text" "username" 10.
Definition passwordField : Input := field 2 "password" "password" 10.
Definition submitButton : Control :=
  {| bid := 3; tag := button; typeSubmit := true; innerText := "Sign in"; value := "" |}.

Definition within (f : nat) (cs : list Control) : nat -> list Control :=
  fun n => if Nat.eqb n f then cs else [].

Definition loginRoot : Root :=
  {| inputs := [usernameField; passwordField]; controls := [submitButton];
     controlsIn := within 10 [submitButton] |}.

Definition pageOf (text : string) (r : Root) : Page :=
  {| href := "https://shop.test/login"; bodyText := Some text; document := r;
     shadowRoots := []; frames := [] |}.

Definition loginPage : Page := pageOf "Welcome back" loginRoot.

(** The same form after the site has refused the credentials. *)
Definition rejectedPage : Page := pageOf "Incorrect password. Try again." loginRoot.

(** First screen of a two-step login:
    [<form id=10><input type=text name=username><button>Next</button></form>] *)
Definition nextButton : Control :=
  {| bid := 4; tag := button; typeSubmit := false; innerText := "Next"; value := "" |}.

Definition usernameOnlyRoot : Root :=
  {| inputs := [usernameField]; controls := [nextButton];
     controlsIn := within 10 [nextButton] |}.

Definition usernameOnlyPage : Page := pageOf "Sign in" usernameOnlyRoot.

Definition alice : Msg.Creds :=
  {| Msg.u := "alice"; Msg.p := "s3cr3t"; Msg.mode := {| Msg.twoStep := false |};
     Msg.stage := "init" |}.

Definition aliceTwoStep : Msg.Creds :=
  {| Msg.u := "alice"; Msg.p := "s3cr3t"; Msg.mode := {| Msg.twoStep := true |};
     Msg.stage := "init" |}.

Definition at_ (t : Z) (pg : Page) : Env := {| now := t; page := pg |}.

(** A newsletter box in form 1, then a login form 2 with a password field
    and an unlabelled text field. *)
Definition newsletterRoot : Root :=
  {| inputs := [field 1 "text" "" 1; field 2 "password" "pwd" 2; field 3 "text" "" 2];
     controls := []; controlsIn := fun _ => [] |}.

(** Two e-mail fields of equal score, the first one outside the login form. *)
Definition twoEmailsRoot : Root :=
  {| inputs := [field 1 "email" "" 1; field 2 "password" "pwd" 2; field 3 "email" "" 2];
     controls := []; controlsIn := fun _ => [] |}.

(** A password field named [login_password] in form 2 and an e-mail field
    in form 1. *)
Definition loginPasswordRoot : Root :=
  {| inputs := [field 2 "password" "login_password" 2; field 1 "email" "" 1];
     controls := []; controlsIn := fun _ => [] |}.

(** A password field in form 2 and an e-mail field in form 1. *)
Definition splitRoot : Root :=
  {| inputs := [field 2 "password" "pwd" 2; field 1 "email" "" 1];
     controls := []; controlsIn := fun _ => [] |}.

Definition emptyStore : Background.Store :=
  {| Background.credsByTab := ∅; Background.rawHrefPerTab := ∅;
     Background.failUntilByOrigin := ∅ |}.

Definition shopTab : Background.Tab :=
  {| Background.id := 7; Background.tabUrl := "https://shop.test/login" |}.

Definition shopSender : Background.Sender := {| Background.tab := Some shopTab |}.

(** A stand-in for the platform's URL parser: it accepts what starts with
    [http://] or [https://], serialises it unchanged and takes the whole
    text for the origin. *)
Definition sampleURL (s : string) : option Url :=
  if Background.hasHttpPrefix s then Some {| toString := s; origin := s |} else None.

(** The worker after [shop.test] has been marked as failing at time 1000. *)
Definition cooledStore : Background.Store :=
  fst (Background.onMessage sampleURL 1000 emptyStore Msg.markOriginFailure shopSender).

Definition linkClick : Background.ClickInfo :=
  {| Background.menuItemId := "cl-open"; Background.selectionText := "";
     Background.linkUrl := "https://shop.test/login:alice:s3cr3t" |}.
(** The text up to the first ["/"]. *)
Fixpoint hostOf (s : string) : string :=
  match s with
  | EmptyString => EmptyString
  | String c r => if Ascii.eqb c "/" then EmptyString else String c (hostOf r)
  end.

(** A second stand-in for the URL parser, whose origin is the scheme and
    the host of the address: [https://shop.test] for every address of
    that site. *)
Definition originURL (s : string) : option Url :=
  if Background.hasHttpPrefix s then
    let n := if Js.startsWith (Js.toLowerCase s) "https://" then 8%nat else 7%nat in
    Some {| toString := s; origin := Js.take n s +:+ hostOf (Js.drop n s) |}
  else None.

Definition accountClick : Background.ClickInfo :=
  {| Background.menuItemId := "cl-open"; Background.selectionText := "";
     Background.linkUrl := "https://shop.test/account:alice:s3cr3t" |}.

Definition otherClick : Background.ClickInfo :=
  {| Background.menuItemId := "cl-open"; Background.selectionText := "";
     Background.linkUrl := "https://other.test/login:alice:s3cr3t" |}.
End Samples.

(** ** Start-up code of the anti-loop content script *)
Module ContentBoot.

(** The [contextmenu] listener: the raw [href] of the anchor under the
    pointer, or the empty string when there is none, goes to the worker. *)
Definition onContextMenu (anchorHref : option string) : Msg.t :=
Msg.storeRawHref (Js.orElse (default EmptyString anchorHref) EmptyString).

(** [salvageAddressBar]: an address that itself has the colon-link shape is
    sent to the worker. *)
Definition salvageAddressBar (href : string) : list Msg.t :=
let last := Js.lastIndexOf ":" href in
let prev := Js.lastIndexOfFrom ":" href (last - 1) in
if (0 <? last) && (0 <? prev) then [Msg.storeRawHref href] else [].

End ContentBoot.

(** ** Service worker of the Pro build: the maps and the handlers *)
Module ProWorker.

(** Map of tabId to [{ u, p, stage, mode }] and map of tabId to the raw href
    captured on the originating page. *)
Record Store : Type :=
{ credsByTab : gmap Z Msg.Creds;
  rawHrefByTab : gmap Z string }.

(** The messages the worker understands; [mode] of [openArmedTab] may be
    missing. *)
Inductive Request : Type :=
| setRawHrefForTab (href : string)
| openArmedTab (url u p : string) (mode : option Msg.Mode)
| requestCreds
| clearCreds
| updateStage (stage : string)
| disarmTab
| unknown.

Record ClickInfo : Type := { menuItemId : string; linkUrl : string }.

(** [chrome.tabs.create({ url }, callback)]: the callback stores [arm] under
    the new tab. *)
Inductive Command : Type :=
| tabsCreate (url : string) (arm : Msg.Creds).

Definition setCreds (st : Store) (tabId : Z) (c : Msg.Creds) : Store :=
{| credsByTab := <[tabId := c]> (credsByTab st); rawHrefByTab := rawHrefByTab st |}.

Definition deleteCreds (st : Store) (tabId : Z) : Store :=
{| credsByTab := delete tabId (credsByTab st); rawHrefByTab := rawHrefByTab st |}.

(** The raw href kept for the tab when there is a usable one, else
    [info.linkUrl]. *)
Definition clickedRaw (st : Store) (info : ClickInfo) (tb : option Background.Tab) : string :=
let raw :=
  match tb with
  | Some t =>
      if Background.id t =? 0 then EmptyString
      else default EmptyString (rawHrefByTab st !! Background.id t)
  | None => EmptyString
  end in
if Js.truthy raw then raw else Js.orElse (linkUrl info) EmptyString.

(** The creation callback: [if (!newTab) return; credsByTab.set(newTab.id, ...)]. *)
Definition onCreated (st : Store) (cmd : Command) (newTab : option Z) : Store :=
match cmd, newTab with
| tabsCreate _ payload, Some tabId => setCreds st tabId payload
| _, None => st
end.

Section Host.

Variable URL : string -> option Url.

(** [chrome.contextMenus.onClicked] *)
Definition onClicked (st : Store) (info : ClickInfo) (tb : option Background.Tab)
  : list Command :=
match ProBackground.parseColonLinkFlexible URL (clickedRaw st info tb) with
| None => []
| Some parsed =>
    let twoStep := String.eqb (menuItemId info) "openColonLinkTwoStep" in
    [tabsCreate (ProBackground.url parsed)
       {| Msg.u := ProBackground.username parsed; Msg.p := ProBackground.password parsed;
          Msg.mode := {| Msg.twoStep := twoStep |}; Msg.stage := "init" |}]
end.

End Host.

(** [chrome.runtime.onMessage]: the new store, what is asked of the browser,
    and the reply given through [sendResponse] ([Some None] is the empty
    object). *)
Definition onMessage (st : Store) (msg : Request) (sender : Background.Sender)
  : Store * list Command * option (option Msg.Creds) :=
match msg with
| setRawHrefForTab h =>
    match Background.tab sender with
    | Some t =>
        ({| credsByTab := credsByTab st;
            rawHrefByTab := <[Background.id t := h]> (rawHrefByTab st) |}, [], None)
    | None => (st, [], None)
    end
| openArmedTab url u p mode =>
    (st,
     [tabsCreate url
        {| Msg.u := u; Msg.p := p;
           Msg.mode := default {| Msg.twoStep := false |} mode; Msg.stage := "init" |}],
     None)
| requestCreds =>
    match Background.truthyTabId sender with
    | Some tabId => (st, [], Some (credsByTab st !! tabId))
    | None => (st, [], Some None)
    end
| clearCreds | disarmTab =>
    match Background.truthyTabId sender with
    | Some tabId => (deleteCreds st tabId, [], None)
    | None => (st, [], None)
    end
| updateStage s =>
    match Background.truthyTabId sender with
    | Some tabId =>
        match credsByTab st !! tabId with
        | Some c => (setCreds st tabId (Msg.setStage c s), [], None)
        | None => (st, [], None)
        end
    | None => (st, [], None)
    end
| unknown => (st, [], None)
end.

End ProWorker.

(** ** Link handling of the Pro content script and of the popup *)
Module ProLinks.

(** [try { x = decodeURIComponent(x.trim()); } catch {}] *)
Definition decodeTrimmed (x : string) : string :=
match Js.decodeURIComponent (Js.trim x) with
| Some d => d
| None => x
end.

Section Host.

Variable URL : string -> option Url.

(** [parseColonLinkFlexible] as [src/content.js] and [src/popup.js] have it
    (the two copies are the same text). *)
Definition parseColonLinkFlexible (href : string) : option ProBackground.Link :=
if negb (Js.truthy href) then None
else
  let raw := Js.trim href in
  let last := Js.lastIndexOf ":" raw in
  let prev := Js.lastIndexOfFrom ":" raw (last - 1) in
  if (last <=? 0) || (prev <=? 0) then None
  else
    let base := Js.slice raw 0 prev in
    let u := Js.slice raw (prev + 1) last in
    let p := Js.sliceFrom raw (last + 1) in
    let base := if Background.hasHttpPrefix base then base else "https://" +:+ base in
    match URL base with
    | Some x =>
        Some {| ProBackground.url := toString x;
                ProBackground.username := Js.trim (decodeTrimmed u);
                ProBackground.password := Js.trim (decodeTrimmed p) |}
    | None => None
    end.

(** The [click], [auxclick] and [mousedown] listeners once they have found
    the anchor: a colon-link is taken over and opened armed, two-step when
    Alt is held. *)
Definition onLinkClick (anchorHref : option string) (altKey : bool)
  : option ProWorker.Request :=
match parseColonLinkFlexible (Js.orElse (default EmptyString anchorHref) EmptyString) with
| Some parsed =>
    Some (ProWorker.openArmedTab (ProBackground.url parsed) (ProBackground.username parsed)
            (ProBackground.password parsed) (Some {| Msg.twoStep := altKey |}))
| None => None
end.

End Host.

End ProLinks.

(** ** The popup: a pasted list of links opened in batch *)
Module Popup.

Definition LF : ascii := ascii_of_nat 10.
Definition CR : ascii := ascii_of_nat 13.

Definition consHead (c : ascii) (ls : list string) : list string :=
match ls with
| l :: rest => String c l :: rest
| [] => [String c EmptyString]
end.

(** [s.split(/\r?\n/)] *)
Fixpoint splitLines (s : string) : list string :=
match s with
| EmptyString => [EmptyString]
| String c r =>
    if Ascii.eqb c LF then EmptyString :: splitLines r
    else if Ascii.eqb c CR then
      match r with
      | String d r' =>
          if Ascii.eqb d LF then EmptyString :: splitLines r'
          else consHead c (splitLines r)
      | EmptyString => consHead c (splitLines r)
      end
    else consHead c (splitLines r)
end.

Record Item : Type :=
{ raw : string; parsed : option ProBackground.Link; valid : bool }.

(** A row paired with its checkbox, as the Open handler reads them: the
    text of the row's [.url] cell and [checks[i].checked]. *)
Record Row : Type := { urlText : string; checked : bool }.

(** What the handlers find under the list element: for every [.row]
    element, in document order, the text of its first [.url] descendant
    ([None] when it has none), and for every [.chk] element, in document
    order, its [checked] state. *)
Record Listing : Type := { cells : list (option string); boxes : list bool }.

(** What the HTML parser makes of the markup of one row [div], as the
    selectors see it: the text of the first [.url] descendant, the [.row]
    elements the markup brings along (each with the text of its own first
    [.url] descendant) and the states of the [.chk] descendants. *)
Record Fragment : Type :=
{ urlCell : option string; innerRows : list (option string); innerBoxes : list bool }.

Definition quote : string := String (ascii_of_nat 34) EmptyString.
Definition newline : string := String LF EmptyString.

(** [`${idx}`] *)
Definition decimal (n : nat) : string := NilEmpty.string_of_uint (Nat.to_uint n).

Section Host.

Variable URL : string -> option Url.

(** [row.innerHTML = markup] on a fresh [div]. *)
Variable innerHTML : string -> Fragment.

(** The handler of the Parse button, up to [renderList]. *)
Definition parseBtn (value : string) (validateToggle : bool) : list Item :=
let lines := List.filter Js.truthy (map Js.trim (splitLines value)) in
map (fun raw =>
       let parsed := ProLinks.parseColonLinkFlexible URL raw in
       let valid :=
         match parsed with
         | Some l => if validateToggle then Background.hasHttpPrefix (ProBackground.url l) else true
         | None => false
         end in
       {| raw := raw; parsed := parsed; valid := valid |})
    lines.

(** The markup [renderList] gives the row of an item; [None] when reading
    [it.parsed.url] off [null] throws. *)
Definition rowMarkup (idx : nat) (it : Item) : option string :=
let mark := if valid it then "checked" else EmptyString in
let muted :=
  if valid it then
    match parsed it with
    | Some l => Some (ProBackground.url l +:+ " — " +:+ ProBackground.username l +:+ " / •••")
    | None => None
    end
  else Some "Invalid colon‑link" in
match muted with
| Some m =>
    Some (newline
          +:+ "        <input type=" +:+ quote +:+ "checkbox" +:+ quote
          +:+ " class=" +:+ quote +:+ "chk" +:+ quote +:+ " " +:+ mark
          +:+ " data-idx=" +:+ quote +:+ decimal idx +:+ quote +:+ " />" +:+ newline
          +:+ "        <div>" +:+ newline
          +:+ "          <div class=" +:+ quote +:+ "url" +:+ quote +:+ ">"
          +:+ raw it +:+ "</div>" +:+ newline
          +:+ "          <div class=" +:+ quote +:+ "muted" +:+ quote +:+ ">"
          +:+ m +:+ "</div>" +:+ newline
          +:+ "        </div>" +:+ newline
          +:+ "      ")
| None => None
end.

(** The rows [renderList] appends from item [idx] on, until one throws. *)
Fixpoint renderFrom (idx : nat) (items : list Item) : Listing :=
match items with
| [] => {| cells := []; boxes := [] |}
| it :: rest =>
    match rowMarkup idx it with
    | Some markup =>
        let f := innerHTML markup in
        let l := renderFrom (S idx) rest in
        {| cells := urlCell f :: innerRows f ++ cells l;
           boxes := innerBoxes f ++ boxes l |}
    | None => {| cells := []; boxes := [] |}
    end
end.

(** [renderList]: the list is emptied, then filled row by row. *)
Definition renderList (items : list Item) : Listing := renderFrom 0 items.

(** The handler of the "first 100" button: [ch.checked = i < 100] over every
    [.chk] element. *)
Definition select100 (l : Listing) : Listing :=
{| cells := cells l; boxes := imap (fun i _ => (i <? 100)%nat) (boxes l) |}.

(** The handler of the "select all" button. *)
Definition selectAll (l : Listing) : Listing :=
{| cells := cells l; boxes := map (fun _ => true) (boxes l) |}.

(** [updateCount]: the number shown as selected. *)
Definition countSelected (l : Listing) : nat :=
length (List.filter (fun b : bool => b) (boxes l)).

(** [rows.map((row, i) => ...)] of the Open handler: row [i] goes with
    [checks[i]]; [None] when a row has no [.url] cell or no checkbox of that
    index, where the handler throws. *)
Fixpoint pairRows (cs : list (option string)) (bs : list bool) : option (list Row) :=
match cs with
| [] => Some []
| c :: cs' =>
    match c, bs with
    | Some text, b :: bs' =>
        match pairRows cs' bs' with
        | Some rows => Some ({| urlText := text; checked := b |} :: rows)
        | None => None
        end
    | _, _ => None
    end
end.

(** The handler of the Open button once the rows are paired: the messages
    sent, in order. *)
Definition openSelected (rows : list Row) : list ProWorker.Request :=
let selectedItems :=
  omap (fun r =>
          if checked r then ProLinks.parseColonLinkFlexible URL (urlText r) else None)
       rows in
map (fun l =>
       ProWorker.openArmedTab (ProBackground.url l) (ProBackground.username l)
         (ProBackground.password l) (Some {| Msg.twoStep := false |}))
    (firstn 100 selectedItems).

(** The handler of the Open button; nothing is sent when it throws. *)
Definition openSelectedBtn (l : Listing) : list ProWorker.Request :=
match pairRows (cells l) (boxes l) with
| Some rows => openSelected rows
| None => []
end.

End Host.

End Popup.

(** ** A stand-in for the HTML parser *)
Module PopupSamples.

(** The text after the first occurrence of [m]. *)
Fixpoint afterFirst (m s : string) : string :=
match s with
| EmptyString => EmptyString
| String _ r => if Js.startsWith s m then Js.drop (String.length m) s else afterFirst m r
end.

(** The text before the first occurrence of [m]. *)
Fixpoint beforeFirst (m s : string) : string :=
match s with
| EmptyString => EmptyString
| String c r => if Js.startsWith s m then EmptyString else String c (beforeFirst m r)
end.

(** What the HTML parser makes of a row whose texts hold no markup: the one
    checkbox of the template, checked when the markup says so, and the url
    cell with its text. *)
Definition plainHTML (markup : string) : Popup.Fragment :=
{| Popup.urlCell :=
     Some (beforeFirst "</div>"
             (afterFirst ("class=" +:+ Popup.quote +:+ "url" +:+ Popup.quote +:+ ">") markup));
   Popup.innerRows := [];
   Popup.innerBoxes :=
     [Js.includes markup ("class=" +:+ Popup.quote +:+ "chk" +:+ Popup.quote +:+ " checked ")] |}.

End PopupSamples.

(** ** Readings of commands and logs used to state the facts below *)
Module Stated.

(** The entry a create command arms, if any, and the address it opens. *)
Definition armOf (c : Background.Command) : option Msg.Creds :=
match c with
| Background.tabsCreate _ a => a
| Background.windowsCreate _ _ a => a
end.

Definition urlOf (c : Background.Command) : string :=
match c with
| Background.tabsCreate u _ => u
| Background.windowsCreate u _ _ => u
end.

Definition incognitoOf (c : Background.Command) : bool :=
match c with
| Background.tabsCreate _ _ => false
| Background.windowsCreate _ i _ => i
end.

(** The entry a context-menu click on [parsed] is to arm: the link's
    credentials at stage ["init"], two-step for the two-step menu items. *)
Definition payloadOf (info : Background.ClickInfo) (parsed : Background.Link) : Msg.Creds :=
{| Msg.u := Background.u parsed; Msg.p := Background.p parsed;
   Msg.mode := {| Msg.twoStep := String.eqb (Background.menuItemId info) "cl-open-2step"
                                 || String.eqb (Background.menuItemId info) "cl-open-incog-2step" |};
   Msg.stage := "init" |}.

(** The text begins with a white-space character. *)
Definition startsWs (s : string) : bool :=
match s with
| String a r =>
    Js.ws1 a
    || match r with
       | String b r2 =>
           Js.ws2 a b
           || match r2 with
              | String c _ => Js.ws3 a b c
              | EmptyString => false
              end
       | EmptyString => false
       end
| EmptyString => false
end.

Definition isClearCreds (e : Dom.Event) : bool :=
match e with Dom.send Msg.clearCreds => true | _ => false end.

Definition isMarkOriginFailure (e : Dom.Event) : bool :=
match e with Dom.send Msg.markOriginFailure => true | _ => false end.

Definition isUpdateStage (e : Dom.Event) : bool :=
match e with Dom.send (Msg.updateStage _) => true | _ => false end.

Definition isSend (e : Dom.Event) : bool :=
match e with Dom.send _ => true | _ => false end.

(** How often an event of the given kind occurs in a log. *)
Definition occurrences (kind : Dom.Event -> bool) (log : list Dom.Event) : nat :=
length (List.filter kind log).

(** The interval callbacks among the triggers. *)
Definition isTick (t : Content.Trigger) : bool :=
match t with Content.tick _ => true | _ => false end.

(** The attempt ceilings of [runTwoStep] and [runNormal]. *)
Definition pollLimit (twoStep : bool) : Z := if twoStep then 1000 else 400.

(** The text test of the failure detector. *)
Definition showsFailureText (pg : Dom.Page) : bool :=
match Dom.bodyText pg with
| Some body => existsb (fun k => Js.includes (Js.toLowerCase body) k) Content.FAILURE_TERMS
| None => false
end.

(** The callbacks of the Pro content script after which [updateStage] goes
    out: a manual fill answered with a two-step entry that is not yet at
    ["userSubmitted"], on a page where [fillBothIfPresent] succeeds. *)
Definition advancesStage (t : ProContent.Trigger) : bool :=
match t with
| ProContent.manualFill pg (Some c) =>
    Msg.twoStep (Msg.mode c) && negb (String.eqb (Msg.stage c) "userSubmitted")
    && fst (ProContent.fillBothIfPresent pg (Msg.u c) (Msg.p c))
| _ => false
end.

Definition isManualFill (t : ProContent.Trigger) : bool :=
match t with ProContent.manualFill _ _ => true | _ => false end.

(** The text holds neither a line feed nor a carriage return. *)
Fixpoint unbroken (s : string) : bool :=
match s with
| EmptyString => true
| String c r => negb (Ascii.eqb c Popup.LF) && negb (Ascii.eqb c Popup.CR) && unbroken r
end.

(** The lines written one after the other with [sep] between them. *)
Fixpoint joinWith (sep : string) (ls : list string) : string :=
match ls with
| [] => EmptyString
| [l] => l
| l :: rest => l +:+ sep +:+ joinWith sep rest
end.

(** What the Open button sends for a parsed link. *)
Definition openRequest (l : ProBackground.Link) : ProWorker.Request :=
ProWorker.openArmedTab (ProBackground.url l) (ProBackground.username l)
  (ProBackground.password l) (Some {| Msg.twoStep := false |}).

(** [x] is the first element of [els] with the highest score. *)
Definition firstBest (score : Dom.Input -> Z) (els : list Dom.Input) (x : Dom.Input) : Prop :=
exists before after,
  els = before ++ x :: after
  /\ Forall (fun y => score y < score x) before
  /\ Forall (fun y => score y <= score x) after.

End Stated.

(** * Facts

    Everything below is proved about the definitions above. *)

Import Grammar Governor Dom Samples.

#[local] Arguments String.append !_ _ / : simpl nomatch.

Ltac parts := repeat match goal with |- _ /\ _ => split end.
Ltac fin := parts; try reflexivity; try lia; try congruence;
  try (intros; parts; try reflexivity; try lia; try congruence).

(** ** Strings *)
Section StringFacts.
Lemma app_length_Z (s t : string) :
  Z.of_nat (String.length (s +:+ t)) = Z.of_nat (String.length s) + Z.of_nat (String.length t).
Proof. induction s as [|a s IH]; simpl; [lia|]. lia. Qed.

Lemma append_assoc (a b c : string) : (a +:+ b) +:+ c = a +:+ (b +:+ c).
Proof. induction a as [|x a IH]; simpl; [reflexivity|]. now rewrite IH. Qed.

Lemma append_nil_r (a : string) : a +:+ "" = a.
Proof. induction a as [|x a IH]; simpl; [reflexivity|]. now rewrite IH. Qed.

Lemma count_app c (s t : string) : count c (s +:+ t) = (count c s + count c t)%nat.
Proof. induction s as [|a s IH]; simpl; [reflexivity|]. rewrite IH. lia. Qed.

Lemma take_app_exact (s t : string) : Js.take (String.length s) (s +:+ t) = s.
Proof. induction s as [|a s IH]; simpl; [now destruct t|]. now rewrite IH. Qed.

Lemma drop_app_exact (s t : string) : Js.drop (String.length s) (s +:+ t) = t.
Proof. induction s as [|a s IH]; simpl; [reflexivity|]. exact IH. Qed.

Lemma take_all (s : string) n : (String.length s <= n)%nat -> Js.take n s = s.
Proof.
  revert n; induction s as [|a s IH]; intros [|n] H; simpl in *; try reflexivity; try lia.
  rewrite IH; [reflexivity|lia].
Qed.

Lemma take_drop (s : string) n : Js.take n s +:+ Js.drop n s = s.
Proof.
  revert n; induction s as [|a s IH]; intros [|n]; simpl; try reflexivity.
  now rewrite IH.
Qed.

Lemma take_length (s : string) n : (n <= String.length s)%nat -> String.length (Js.take n s) = n.
Proof.
  revert n; induction s as [|a s IH]; intros [|n] H; simpl in *; try reflexivity; try lia.
  rewrite IH; [reflexivity|lia].
Qed.

Lemma count_take_le c (s : string) n : (count c (Js.take n s) <= count c s)%nat.
Proof.
  revert n; induction s as [|a s IH]; intros [|n]; simpl; try lia.
  specialize (IH n). lia.
Qed.

Lemma count_drop_le c (s : string) n : (count c (Js.drop n s) <= count c s)%nat.
Proof.
  revert n; induction s as [|a s IH]; intros [|n]; simpl; try lia.
  specialize (IH n). lia.
Qed.

Lemma lastIdx_lower c s b : -1 <= Js.lastIdx c s b.
Proof.
  revert b; induction s as [|a s IH]; intros b; simpl; [lia|].
  specialize (IH (b - 1)).
  destruct (0 <=? Js.lastIdx c s (b - 1)) eqn:E; [lia|].
  destruct (Ascii.eqb a c && (0 <=? b)); lia.
Qed.

(** What a non-negative answer of [lastIdx] means. *)
Lemma lastIdx_found c s b k :
  Js.lastIdx c s b = k -> 0 <= k ->
  exists s1 s2, s = s1 +:+ String c s2 /\ Z.of_nat (String.length s1) = k /\ k <= b
                /\ absent c (Js.take (Z.to_nat (b - k)) s2).
Proof.
  revert b k; induction s as [|a s IH]; intros b k; simpl.
  - intros <- ?. lia.
  - destruct (0 <=? Js.lastIdx c s (b - 1)) eqn:E.
    + intros <- _. apply Z.leb_le in E.
      destruct (IH (b - 1) _ eq_refl E) as (s1 & s2 & -> & Hl & Hb & Ha).
      exists (String a s1), s2. simpl. repeat split; [lia|lia|].
      replace (b - (Js.lastIdx c (s1 +:+ String c s2) (b - 1) + 1))
        with (b - 1 - Js.lastIdx c (s1 +:+ String c s2) (b - 1)) by lia.
      exact Ha.
    + apply Z.leb_gt in E.
      destruct (Ascii.eqb a c && (0 <=? b)) eqn:F; intros <- Hk; [|lia].
      apply andb_true_iff in F as [F1 F2].
      apply Ascii.eqb_eq in F1 as ->. apply Z.leb_le in F2.
      exists EmptyString, s. simpl. repeat split; [lia|].
      (* no c within the first b characters of s *)
      clear IH Hk. rewrite Z.sub_0_r.
      assert (G : forall (t : string) (d : Z), Js.lastIdx c t (d - 1) < 0 ->
                                absent c (Js.take (Z.to_nat d) t)).
      { clear. induction t as [|x t IHt]; intros d H.
        - now destruct (Z.to_nat d).
        - simpl in H. destruct (Z.to_nat d) as [|n] eqn:Hd; [reflexivity|].
          simpl. unfold absent in *. simpl.
          destruct (0 <=? Js.lastIdx c t (d - 1 - 1)) eqn:E1.
          { apply Z.leb_le in E1. lia. }
          apply Z.leb_gt in E1.
          assert (0 <= d - 1) by lia.
          destruct (Ascii.eqb x c) eqn:E2.
          { simpl in H. destruct (0 <=? d - 1) eqn:E3; [lia|]. apply Z.leb_gt in E3. lia. }
          simpl. specialize (IHt (d - 1) E1).
          replace (Z.to_nat (d - 1)) with n in IHt by lia. exact IHt. }
      apply G. exact E.
Qed.

(** Conversely, [lastIdx] finds the last occurrence within the bound. *)
Lemma lastIdx_at c s1 s2 b :
  Z.of_nat (String.length s1) <= b ->
  absent c (Js.take (Z.to_nat (b - Z.of_nat (String.length s1))) s2) ->
  Js.lastIdx c (s1 +:+ String c s2) b = Z.of_nat (String.length s1).
Proof.
  revert b; induction s1 as [|a s1 IH]; intros b Hb Ha.
  - simpl in *. rewrite Z.sub_0_r in Ha.
    assert (G : forall (t : string) (d : Z), absent c (Js.take (Z.to_nat d) t) ->
                                Js.lastIdx c t (d - 1) = -1).
    { clear. induction t as [|x t IHt]; intros d H; [reflexivity|].
      simpl. destruct (Z.to_nat d) as [|n] eqn:Hd.
      - assert (d <= 0) by lia.
        assert (Js.lastIdx c t (d - 1 - 1) = -1).
        { apply IHt. replace (Z.to_nat (d - 1)) with 0%nat by lia. reflexivity. }
        rewrite H1. simpl. destruct (0 <=? d - 1) eqn:E; [apply Z.leb_le in E; lia|].
        now rewrite andb_false_r.
      - unfold absent in H. simpl in H.
        destruct (Ascii.eqb x c) eqn:E2; [simpl in H; lia|]. simpl in H.
        rewrite IHt; [reflexivity|]. replace (Z.to_nat (d - 1)) with n by lia. exact H. }
    rewrite (G s2 b Ha). simpl. rewrite Ascii.eqb_refl.
    destruct (0 <=? b) eqn:E; [reflexivity|]. apply Z.leb_gt in E. lia.
  - simpl. rewrite IH.
    + assert ((0 <=? Z.of_nat (String.length s1)) = true) as -> by (apply Z.leb_le; lia).
      simpl String.length. lia.
    + simpl String.length in Hb. lia.
    + simpl String.length in Ha.
      replace (b - 1 - Z.of_nat (String.length s1))
        with (b - Z.of_nat (S (String.length s1))) by lia. exact Ha.
Qed.
End StringFacts.

Section MoreStringFacts.
Lemma app_split (s1 x t1 y : string) :
  s1 +:+ x = t1 +:+ y -> (String.length t1 <= String.length s1)%nat ->
  exists m, s1 = t1 +:+ m /\ y = m +:+ x.
Proof.
  revert s1; induction t1 as [|a t1 IH]; intros s1 H L; simpl in *.
  - exists s1. split; [reflexivity|]. now symmetry.
  - destruct s1 as [|b s1]; simpl in *; [lia|].
    injection H as -> H. destruct (IH s1 H ltac:(lia)) as (m & -> & ->).
    now exists m.
Qed.

Lemma slice_mid (x y z : string) :
  Js.slice (x +:+ y +:+ z) (Z.of_nat (String.length x))
    (Z.of_nat (String.length x) + Z.of_nat (String.length y)) = y.
Proof.
  unfold Js.slice, Js.relIndex. rewrite !app_length_Z.
  destruct (Z.of_nat (String.length x) <? 0) eqn:E1; [apply Z.ltb_lt in E1; lia|].
  destruct (Z.of_nat (String.length x) + Z.of_nat (String.length y) <? 0) eqn:E2;
    [apply Z.ltb_lt in E2; lia|].
  rewrite Z.min_l by lia. rewrite Z.min_l by lia.
  rewrite Nat2Z.id, drop_app_exact.
  replace (Z.to_nat _) with (String.length y) by lia.
  apply take_app_exact.
Qed.

Lemma slice_head (y z : string) : Js.slice (y +:+ z) 0 (Z.of_nat (String.length y)) = y.
Proof. exact (slice_mid "" y z). Qed.

Lemma sliceFrom_tail (x z : string) : Js.sliceFrom (x +:+ z) (Z.of_nat (String.length x)) = z.
Proof.
  unfold Js.sliceFrom. rewrite app_length_Z.
  pose proof (slice_mid x z "") as H. rewrite append_nil_r in H. exact H.
Qed.

Lemma absent_take c (s : string) n : absent c s -> absent c (Js.take n s).
Proof. unfold absent. pose proof (count_take_le c s n). lia. Qed.

(** The indices the parsers compute on a colon-link. *)
Lemma colonLink_indices (s b us ps : string) :
  colonLink s b us ps ->
  Js.lastIndexOf ":" s = Z.of_nat (String.length b) + 1 + Z.of_nat (String.length us)
  /\ Js.lastIndexOfFrom ":" s (Js.lastIndexOf ":" s - 1) = Z.of_nat (String.length b)
  /\ 0 < Z.of_nat (String.length b).
Proof.
  intros (-> & Hb & Hu & Hp).
  assert (L : Js.lastIndexOf ":" (b +:+ ":" +:+ us +:+ ":" +:+ ps)
              = Z.of_nat (String.length b) + 1 + Z.of_nat (String.length us)).
  { unfold Js.lastIndexOf.
    change (b +:+ ":" +:+ us +:+ ":" +:+ ps) with (b +:+ (":" +:+ us +:+ String ":" ps)).
    rewrite <- (append_assoc b), <- (append_assoc (b +:+ ":")).
    rewrite lastIdx_at.
    - rewrite !app_length_Z. simpl. lia.
    - rewrite !app_length_Z. simpl. lia.
    - now apply absent_take. }
  split; [exact L|]. split.
  - rewrite L. unfold Js.lastIndexOfFrom.
    change (b +:+ ":" +:+ us +:+ ":" +:+ ps) with (b +:+ String ":" (us +:+ ":" +:+ ps)).
    rewrite lastIdx_at; [reflexivity|lia|].
    replace (Z.to_nat _) with (String.length us) by lia.
    now rewrite take_app_exact.
  - destruct b; [congruence|]. simpl. lia.
Qed.

Lemma colonLink_slices (s b us ps : string) :
  colonLink s b us ps ->
  Js.slice s 0 (Z.of_nat (String.length b)) = b
  /\ Js.slice s (Z.of_nat (String.length b) + 1)
       (Z.of_nat (String.length b) + 1 + Z.of_nat (String.length us)) = us
  /\ Js.sliceFrom s (Z.of_nat (String.length b) + 1 + Z.of_nat (String.length us) + 1) = ps.
Proof.
  intros (-> & _). repeat split.
  - apply slice_head.
  - pose proof (slice_mid (b +:+ ":") us (":" +:+ ps)) as H.
    rewrite app_length_Z, append_assoc in H. exact H.
  - pose proof (sliceFrom_tail (b +:+ ":" +:+ us +:+ ":") ps) as H.
    rewrite !app_length_Z in H. simpl String.length in H.
    rewrite !append_assoc in H.
    replace (Z.of_nat (String.length b) + 1 + Z.of_nat (String.length us) + 1)
      with (Z.of_nat (String.length b) + (Z.of_nat 1 + (Z.of_nat (String.length us) + Z.of_nat 1)))
      by lia.
    exact H.
Qed.

(** Two colons at positive indices split the string as a colon-link. *)
Lemma two_colons_decompose (s : string) :
  0 < Js.lastIndexOf ":" s ->
  0 < Js.lastIndexOfFrom ":" s (Js.lastIndexOf ":" s - 1) ->
  exists b us ps, colonLink s b us ps.
Proof.
  intros Hl Hp.
  destruct (lastIdx_found ":" s _ _ eq_refl (Z.lt_le_incl _ _ Hl))
    as (s1 & s2 & E1 & L1 & _ & A1).
  fold (Js.lastIndexOf ":" s) in L1, A1.
  unfold Js.lastIndexOfFrom in Hp.
  destruct (lastIdx_found ":" s _ _ eq_refl (Z.lt_le_incl _ _ Hp))
    as (t1 & t2 & E2 & L2 & B2 & A2).
  set (prev := Js.lastIdx ":" s (0 `max` (Js.lastIndexOf ":" s - 1))) in *.
  clearbody prev.
  rewrite Z.max_r in B2, A2 by lia.
  assert (E : s1 +:+ String ":" s2 = t1 +:+ String ":" t2) by congruence.
  destruct (app_split _ _ _ _ E ltac:(lia)) as (m & -> & Hm).
  rewrite app_length_Z in L1.
  destruct m as [|x m]; simpl in Hm.
  { simpl in L1. lia. }
  injection Hm as <- ->.
  exists t1, m, s2. split; [|split; [|split]].
  - rewrite E1, append_assoc. reflexivity.
  - intros ->. simpl in L2. lia.
  - simpl String.length in L1.
    replace (Z.to_nat (Js.lastIndexOf ":" s - 1 - prev)) with (String.length m) in A2 by lia.
    now rewrite take_app_exact in A2.
  - assert (Hlen : Z.of_nat (String.length s)
                   = Js.lastIndexOf ":" s + 1 + Z.of_nat (String.length s2)).
    { rewrite E1 at 1. rewrite !app_length_Z.
      simpl String.length in *. lia. }
    rewrite take_all in A1; [exact A1|]. lia.
Qed.

Lemma colonLink_count (s b us ps : string) :
  colonLink s b us ps -> (2 <= colonsAfterFirst s)%nat.
Proof.
  intros (-> & Hb & _). destruct b as [|a b]; [congruence|].
  unfold colonsAfterFirst. simpl. rewrite !count_app. simpl. rewrite count_app. simpl. lia.
Qed.

Lemma trimStart_suffix (s : string) : exists w, s = w +:+ Js.trimStart s.
Proof.
  assert (G : forall n (s : string), (String.length s <= n)%nat -> exists w, s = w +:+ Js.trimStart s).
  { induction n as [|n IH]; intros [|a r] L; simpl in L; try lia;
      try (now exists EmptyString).
    simpl. destruct (Js.ws1 a).
    { destruct (IH r ltac:(lia)) as (w & Hw). exists (String a w). simpl. now rewrite <- Hw. }
    destruct r as [|b r2]; [now exists EmptyString|].
    destruct (Js.ws2 a b).
    { destruct (IH r2 ltac:(simpl in L; lia)) as (w & Hw).
      exists (String a (String b w)). simpl. now rewrite <- Hw. }
    destruct r2 as [|c r3]; [now exists EmptyString|].
    destruct (Js.ws3 a b c); [|now exists EmptyString].
    destruct (IH r3 ltac:(simpl in L; lia)) as (w & Hw).
    exists (String a (String b (String c w))). simpl. now rewrite <- Hw. }
  exact (G _ s (le_n _)).
Qed.

Lemma trimEnd_prefix (s : string) : exists w, s = Js.trimEnd s +:+ w.
Proof.
  induction s as [|a r IH]; [now exists EmptyString|].
  simpl. destruct (Js.blank (String a r)).
  - now exists (String a r).
  - destruct IH as (w & Hw). exists w. simpl. now rewrite <- Hw.
Qed.

Lemma trim_inside (s : string) : exists w1 w2, s = w1 +:+ Js.trim s +:+ w2.
Proof.
  destruct (trimStart_suffix s) as (w1 & H1).
  destruct (trimEnd_prefix (Js.trimStart s)) as (w2 & H2).
  exists w1, w2. unfold Js.trim. now rewrite <- H2.
Qed.

Lemma colonsAfterFirst_trim (s : string) :
  (colonsAfterFirst (Js.trim s) <= colonsAfterFirst s)%nat.
Proof.
  destruct (trim_inside s) as (w1 & w2 & H).
  unfold colonsAfterFirst. rewrite H at 2.
  destruct w1 as [|a w1].
  - simpl. destruct (Js.trim s) as [|x t]; simpl; [lia|].
    rewrite count_app. lia.
  - change (Js.drop 1 (String a w1 +:+ Js.trim s +:+ w2)) with (w1 +:+ Js.trim s +:+ w2).
    rewrite !count_app.
    pose proof (count_drop_le ":" (Js.trim s) 1). lia.
Qed.
End MoreStringFacts.

(** ** Percent-decoding *)
Section Decoding.

Lemma hexValue_hexDigit (c : ascii) : hexValue c = Js.hexDigit c.
Proof. destruct c as [[] [] [] [] [] [] [] []]; reflexivity. Qed.

Lemma hexDigit_small c v : Js.hexDigit c = Some v -> (v < 16)%nat.
Proof. destruct c as [[] [] [] [] [] [] [] []]; intros [= <-]; simpl; lia. Qed.

Lemma hexOctet_values h l o :
  Js.hexOctet h l = Some o ->
  exists x y, hexValue h = Some x /\ hexValue l = Some y /\ o = (16 * x + y)%nat
              /\ (o < 256)%nat.
Proof.
  unfold Js.hexOctet. rewrite <- !hexValue_hexDigit.
  destruct (hexValue h) as [x|] eqn:X; [|discriminate].
  destruct (hexValue l) as [y|] eqn:Y; [|discriminate].
  intros [= <-]. exists x, y. repeat split; auto.
  rewrite hexValue_hexDigit in X, Y.
  apply hexDigit_small in X, Y. lia.
Qed.

Lemma tokens_spell (s : string) (ts : list Js.token) :
  Js.tokens s = Some ts -> percentDecoded s (spell ts).
Proof.
  remember (String.length s) as n eqn:N. revert s ts N.
  induction n as [n IH] using lt_wf_ind. intros s ts N.
  destruct s as [|c r]; simpl.
  - intros [= <-]. constructor.
  - destruct (Ascii.eqb c "%") eqn:E.
    + apply Ascii.eqb_eq in E. subst c.
      destruct r as [|h [|l r']]; try discriminate.
      destruct (Js.hexOctet h l) as [o|] eqn:O; [|discriminate].
      destruct (Js.tokens r') as [ts'|] eqn:T; [|discriminate].
      intros [= <-]. destruct (hexOctet_values _ _ _ O) as (x & y & X & Y & -> & B).
      simpl. apply decoded_escape; auto.
      apply (IH (String.length r')); [subst n; simpl; lia|reflexivity|exact T].
    + destruct (Js.tokens r) as [ts'|] eqn:T; [|discriminate].
      intros [= <-]. simpl. apply decoded_char.
      * intros ->. discriminate E.
      * apply (IH (String.length r)); [subst n; simpl; lia|reflexivity|exact T].
Qed.

Lemma emit_spell os rest d :
  Js.emit os rest = Some d ->
  exists d', rest = Some d' /\ d = fold_right (fun o acc => String (ascii_of_nat o) acc) d' os.
Proof. destruct rest as [r|]; [|discriminate]. intros [= <-]. eauto. Qed.

Lemma decodeTokens_spell (ts : list Js.token) (d : string) :
  Js.decodeTokens ts = Some d -> d = spell ts.
Proof.
  remember (length ts) as n eqn:N. revert ts d N.
  induction n as [n IH] using lt_wf_ind. intros ts d N.
  destruct ts as [|[c|a] r]; simpl.
  - now intros [= <-].
  - destruct (Js.decodeTokens r) as [d'|] eqn:D; [|discriminate].
    intros [= <-]. f_equal. apply (IH (length r)); [subst n; simpl; lia|reflexivity|exact D].
  - destruct (Js.leadingOnes a) as [|[|[|[|[|k]]]]].
    + intros H. apply emit_spell in H as (d' & D & ->). simpl. f_equal.
      apply (IH (length r)); [subst n; simpl; lia|reflexivity|exact D].
    + discriminate.
    + destruct r as [|[c|b] r2]; try discriminate.
      destruct (Js.wellFormed2 a b); [|discriminate].
      intros H. apply emit_spell in H as (d' & D & ->). simpl. do 2 f_equal.
      apply (IH (length r2)); [subst n; simpl; lia|reflexivity|exact D].
    + destruct r as [|[c1|b] [|[c2|c] r3]]; try discriminate.
      destruct (Js.wellFormed3 a b c); [|discriminate].
      intros H. apply emit_spell in H as (d' & D & ->). simpl. do 3 f_equal.
      apply (IH (length r3)); [subst n; simpl; lia|reflexivity|exact D].
    + destruct r as [|[c1|b] [|[c2|c] [|[c3|e] r4]]]; try discriminate.
      destruct (Js.wellFormed4 a b c e); [|discriminate].
      intros H. apply emit_spell in H as (d' & D & ->). simpl. do 4 f_equal.
      apply (IH (length r4)); [subst n; simpl; lia|reflexivity|exact D].
    + discriminate.
Qed.

(** What [decodeURIComponent] returns is the percent-decoding of its input. *)
Lemma decodeURIComponent_decodes (s d : string) :
  Js.decodeURIComponent s = Some d -> percentDecoded s d.
Proof.
  unfold Js.decodeURIComponent. destruct (Js.tokens s) as [ts|] eqn:T; [|discriminate].
  intros D. apply decodeTokens_spell in D. subst d. now apply tokens_spell.
Qed.

(** Escapes of ASCII characters never make it throw. *)
Lemma decodeURIComponent_ascii (s d : string) :
  escapesBelow 128 s d -> Js.decodeURIComponent s = Some d.
Proof.
  unfold Js.decodeURIComponent. induction 1 as [|c s d C _ IH|h l x y s d X Y B _ IH].
  - reflexivity.
  - simpl. destruct (Ascii.eqb c "%") eqn:E; [apply Ascii.eqb_eq in E; contradiction|].
    destruct (Js.tokens s) as [ts|]; [|discriminate]. simpl. now rewrite IH.
  - cbn [Js.tokens]. rewrite Ascii.eqb_refl. unfold Js.hexOctet.
    rewrite <- !hexValue_hexDigit, X, Y.
    destruct (Js.tokens s) as [ts|]; [|discriminate].
    cbn [Js.decodeTokens]. unfold Js.leadingOnes.
    destruct (Nat.ltb_spec (16 * x + y) 128) as [_|F]; [|lia].
    rewrite IH. reflexivity.
Qed.

Lemma tryDecode_decodedElseRaw (seg : string) : decodedElseRaw seg (Js.tryDecode seg).
Proof.
  unfold decodedElseRaw, Js.tryDecode. split; [|split].
  - destruct (Js.decodeURIComponent seg) as [d|] eqn:D; [left|now right].
    now apply decodeURIComponent_decodes.
  - intros d H. now rewrite (decodeURIComponent_ascii _ _ H).
  - intros N. destruct (Js.decodeURIComponent seg) as [d|] eqn:D; [|reflexivity].
    destruct (N d). now apply decodeURIComponent_decodes.
Qed.

Lemma colonLink_parts (s b us ps : string) :
  colonLink s b us ps ->
  let last := Js.lastIndexOf ":" s in
  let prev := Js.lastIndexOfFrom ":" s (last - 1) in
  b = Js.slice s 0 prev /\ us = Js.slice s (prev + 1) last /\ ps = Js.sliceFrom s (last + 1).
Proof.
  intros L. destruct (colonLink_indices _ _ _ _ L) as (E1 & E2 & _).
  destruct (colonLink_slices _ _ _ _ L) as (S1 & S2 & S3).
  cbv zeta. rewrite E2, E1. repeat split; symmetry; assumption.
Qed.

Lemma bob_decodes : escapesBelow 128 "bob%40x.com" "bob@x.com".
Proof.
  do 3 (apply decoded_char; [discriminate|]).
  apply (decoded_escape 128 "4" "0" 4 0); [reflexivity|reflexivity|simpl; lia|].
  do 5 (apply decoded_char; [discriminate|]). apply decoded_end.
Qed.

Lemma pass_decodes : escapesBelow 128 "p%40ss" "p@ss".
Proof.
  apply decoded_char; [discriminate|].
  apply (decoded_escape 128 "4" "0" 4 0); [reflexivity|reflexivity|simpl; lia|].
  do 2 (apply decoded_char; [discriminate|]). apply decoded_end.
Qed.

Lemma cut_escape_has_no_decoding d : ~ percentDecoded "100%" d.
Proof.
  intros H. unfold percentDecoded in H.
  do 3 (inversion H as [|? ? ? ? H'|]; subst; clear H; rename H' into H).
  inversion H; subst. congruence.
Qed.

Lemma bad_digits_have_no_decoding d : ~ percentDecoded "p%zz" d.
Proof.
  intros H. unfold percentDecoded in H.
  inversion H as [|? ? ? ? H'|]; subst; clear H; rename H' into H.
  inversion H as [|? ? ? N ?|? ? ? ? ? ? X ? ? ?]; subst; [congruence|discriminate X].
Qed.
End Decoding.

(** ** The parsers *)
Section Parsers.
Variable URL : string -> option Url.

Lemma truthy_trim (raw : string) : Js.truthy (Js.trim raw) = true -> Js.truthy raw = true.
Proof. destruct raw; [discriminate|reflexivity]. Qed.

Lemma colonLink_truthy (s b us ps : string) : colonLink s b us ps -> Js.truthy s = true.
Proof. intros (-> & Hb & _). destruct b; [congruence|reflexivity]. Qed.

(** The anti-loop parser on an input whose trimmed text is a colon-link. *)
Lemma parseColonLink_on_link (raw b us ps : string) :
  colonLink (Js.trim raw) b us ps ->
  Background.parseColonLink URL raw =
    if Background.bareScheme (Js.trim b) then None
    else
      match URL (if Background.hasHttpPrefix (Js.trim b) then Js.trim b
                 else "https://" +:+ Js.trim b) with
      | Some x => Some {| Background.url := toString x;
                          Background.u := Js.tryDecode (Js.trim us);
                          Background.p := Js.tryDecode (Js.trim ps) |}
      | None => None
      end.
Proof.
  intros H. unfold Background.parseColonLink.
  rewrite (truthy_trim _ (colonLink_truthy _ _ _ _ H)). simpl negb. cbv iota.
  destruct (colonLink_indices _ _ _ _ H) as (L & P & B).
  destruct (colonLink_slices _ _ _ _ H) as (S1 & S2 & S3).
  cbv zeta. rewrite P, L.
  replace (_ <=? 0) with false by (symmetry; apply Z.leb_gt; lia).
  replace (_ <=? 0) with false by (symmetry; apply Z.leb_gt; lia).
  simpl orb. cbv iota. rewrite S1, S2, S3. reflexivity.
Qed.

(** The flexible parser on a colon-link. *)
Lemma parseColonLinkFlexible_on_link (raw b us ps : string) :
  colonLink raw b us ps ->
  ProBackground.parseColonLinkFlexible URL raw =
    match URL (if Background.hasHttpPrefix (Js.trim b) then Js.trim b
               else "https://" +:+ Js.trim b) with
    | Some x => Some {| ProBackground.url := toString x;
                        ProBackground.username := Js.tryDecode (Js.trim us);
                        ProBackground.password := Js.tryDecode (Js.trim ps) |}
    | None => None
    end.
Proof.
  intros H. unfold ProBackground.parseColonLinkFlexible.
  rewrite (colonLink_truthy _ _ _ _ H). simpl negb. cbv iota.
  destruct (colonLink_indices _ _ _ _ H) as (L & P & B).
  destruct (colonLink_slices _ _ _ _ H) as (S1 & S2 & S3).
  cbv zeta. rewrite P, L.
  replace (_ <=? 0) with false by (symmetry; apply Z.leb_gt; lia).
  replace (_ <=? 0) with false by (symmetry; apply Z.leb_gt; lia).
  simpl orb. cbv iota. rewrite S1, S2, S3. reflexivity.
Qed.

Lemma parseColonLink_some_link (raw : string) r :
  Background.parseColonLink URL raw = Some r ->
  exists b us ps, colonLink (Js.trim raw) b us ps.
Proof.
  unfold Background.parseColonLink.
  destruct (negb (Js.truthy raw)); [discriminate|]. cbv zeta.
  destruct (Js.lastIndexOf ":" (Js.trim raw) <=? 0) eqn:E1; [discriminate|].
  destruct (Js.lastIndexOfFrom ":" (Js.trim raw) (Js.lastIndexOf ":" (Js.trim raw) - 1) <=? 0)
    eqn:E2; [discriminate|]. intros _.
  apply Z.leb_gt in E1, E2. now apply two_colons_decompose.
Qed.

Lemma parseColonLinkFlexible_some_link (raw : string) r :
  ProBackground.parseColonLinkFlexible URL raw = Some r ->
  exists b us ps, colonLink raw b us ps.
Proof.
  unfold ProBackground.parseColonLinkFlexible.
  destruct (negb (Js.truthy raw)); [discriminate|]. cbv zeta.
  destruct (Js.lastIndexOf ":" raw <=? 0) eqn:E1; [discriminate|].
  destruct (Js.lastIndexOfFrom ":" raw (Js.lastIndexOf ":" raw - 1) <=? 0)
    eqn:E2; [discriminate|]. intros _.
  apply Z.leb_gt in E1, E2. now apply two_colons_decompose.
Qed.

Lemma tryDecode_decodedOrRaw (seg : string) : decodedOrRaw seg (Js.tryDecode seg).
Proof. unfold decodedOrRaw, Js.tryDecode. now destruct (Js.decodeURIComponent seg). Qed.

(** The anti-loop parser refuses a bare scheme as base. *)
Lemma parseColonLink_rejects_bare_scheme (raw b us ps : string) :
  colonLink (Js.trim raw) b us ps ->
  Background.bareScheme (Js.trim b) = true ->
  Background.parseColonLink URL raw = None.
Proof. intros H B. rewrite (parseColonLink_on_link _ _ _ _ H), B. reflexivity. Qed.

End Parsers.


(** Claim C9.  An input with fewer than two colons at non-leading positions
    (the last colon is missing or leads the text, or the colon before it is
    missing or leads the text) is not a link: both the anti-loop parser and
    the flexible parser return null, and neither raises an error (both are
    total functions). *)
Theorem fewer_than_two_colons_not_a_link (URL : string -> option Url) (raw : string) :
  (colonsAfterFirst raw < 2)%nat ->
  Background.parseColonLink URL raw = None
  /\ ProBackground.parseColonLinkFlexible URL raw = None.
Proof.
  intros H. split.
  - destruct (Background.parseColonLink URL raw) as [r|] eqn:E; [|reflexivity].
    destruct (parseColonLink_some_link _ _ _ E) as (b & us & ps & L).
    pose proof (colonLink_count _ _ _ _ L). pose proof (colonsAfterFirst_trim raw). lia.
  - destruct (ProBackground.parseColonLinkFlexible URL raw) as [r|] eqn:E; [|reflexivity].
    destruct (parseColonLinkFlexible_some_link _ _ _ E) as (b & us & ps & L).
    pose proof (colonLink_count _ _ _ _ L). lia.
Qed.

Lemma fewer_than_two_colons_witness :
  Background.parseColonLink Samples.sampleURL "example.com:alice" = None
  /\ ProBackground.parseColonLinkFlexible Samples.sampleURL "example.com:alice" = None.
Proof. apply fewer_than_two_colons_not_a_link. vm_compute. lia. Defined.

(** Claim C10.  For both parsers: a successful parse comes from a text
    [base:user:pass] split at its two right-most colons, and each credential
    of the result is the percent-decoded trimmed segment when decoding
    succeeds and the trimmed segment itself when decoding throws.  In the
    spec's own terms ([decodedElseRaw]): the credential is the octet-by-octet
    percent-decoding of the segment or the segment itself; it is the decoding
    whenever every escape spells an ASCII character (so ["bob%40x.com"] gives
    ["bob@x.com"]); and it is the segment itself whenever the segment has no
    decoding (a cut or non-hexadecimal escape).  Whether decoding throws has
    no bearing on success, which only depends on the split, on the base and
    on the URL parser. *)
Theorem credentials_decoded_or_kept_raw (URL : string -> option Url) (raw : string) :
  (forall r, Background.parseColonLink URL raw = Some r ->
     exists b us ps, colonLink (Js.trim raw) b us ps
       /\ decodedOrRaw (Js.trim us) (Background.u r)
       /\ decodedOrRaw (Js.trim ps) (Background.p r)
       /\ decodedElseRaw (Js.trim us) (Background.u r)
       /\ decodedElseRaw (Js.trim ps) (Background.p r))
  /\ (forall r, ProBackground.parseColonLinkFlexible URL raw = Some r ->
     exists b us ps, colonLink raw b us ps
       /\ decodedOrRaw (Js.trim us) (ProBackground.username r)
       /\ decodedOrRaw (Js.trim ps) (ProBackground.password r)
       /\ decodedElseRaw (Js.trim us) (ProBackground.username r)
       /\ decodedElseRaw (Js.trim ps) (ProBackground.password r))
  /\ (forall b us ps x, colonLink (Js.trim raw) b us ps ->
     Background.bareScheme (Js.trim b) = false ->
     URL (if Background.hasHttpPrefix (Js.trim b) then Js.trim b
          else "https://" +:+ Js.trim b) = Some x ->
     exists r, Background.parseColonLink URL raw = Some r)
  /\ (forall b us ps x, colonLink raw b us ps ->
     URL (if Background.hasHttpPrefix (Js.trim b) then Js.trim b
          else "https://" +:+ Js.trim b) = Some x ->
     exists r, ProBackground.parseColonLinkFlexible URL raw = Some r).
Proof.
  repeat split.
  - intros r E. destruct (parseColonLink_some_link _ _ _ E) as (b & us & ps & L).
    exists b, us, ps. split; [exact L|].
    rewrite (parseColonLink_on_link _ _ _ _ _ L) in E.
    destruct (Background.bareScheme _); [discriminate|].
    destruct (URL _); [|discriminate]. injection E as <-. simpl.
    repeat split; try apply tryDecode_decodedOrRaw; apply tryDecode_decodedElseRaw.
  - intros r E. destruct (parseColonLinkFlexible_some_link _ _ _ E) as (b & us & ps & L).
    exists b, us, ps. split; [exact L|].
    rewrite (parseColonLinkFlexible_on_link _ _ _ _ _ L) in E.
    destruct (URL _); [|discriminate]. injection E as <-. simpl.
    repeat split; try apply tryDecode_decodedOrRaw; apply tryDecode_decodedElseRaw.
  - intros b us ps x L B U. rewrite (parseColonLink_on_link _ _ _ _ _ L), B, U. eauto.
  - intros b us ps x L U. rewrite (parseColonLinkFlexible_on_link _ _ _ _ _ L), U. eauto.
Qed.

Example parse_alice :
  Background.parseColonLink Samples.sampleURL "example.com:alice:s3cr3t"
  = Some {| Background.url := "https://example.com"; Background.u := "alice"; Background.p := "s3cr3t" |}.
Proof. reflexivity. Qed.

Example parse_bob (URL : string -> option Url) :
  Background.parseColonLink URL "https://shop.test/login:bob%40x.com:p%40ss"
  = match URL "https://shop.test/login" with
    | Some x => Some {| Background.url := toString x; Background.u := "bob@x.com"; Background.p := "p@ss" |}
    | None => None
    end.
Proof. reflexivity. Qed.

Example parse_undecodable (URL : string -> option Url) :
  ProBackground.parseColonLinkFlexible URL "example.com:100%:p%zz"
  = match URL "https://example.com" with
    | Some x => Some {| ProBackground.url := toString x; ProBackground.username := "100%"; ProBackground.password := "p%zz" |}
    | None => None
    end.
Proof. reflexivity. Qed.

(** Claim C7, evaluated on the input ["https:alice:s3cr3t"], whose base
    segment is the bare scheme token [https].  The flexible parser of the Pro
    worker prepends ["https://"] and hands ["https://https"] to the URL parser,
    so a link comes back whenever that text parses; the anti-loop parser
    returns null on the same input. *)
Theorem flexible_parser_coerces_bare_scheme (URL : string -> option Url) :
  ProBackground.parseColonLinkFlexible URL "https:alice:s3cr3t"
  = match URL "https://https" with
    | Some x => Some {| ProBackground.url := toString x; ProBackground.username := "alice"; ProBackground.password := "s3cr3t" |}
    | None => None
    end
  /\ Background.parseColonLink URL "https:alice:s3cr3t" = None.
Proof. split; reflexivity. Qed.

(** ** The anti-loop governor *)
Section ContentFacts.
Import Dom Content.


Lemma clicks_app (l1 l2 : list Event) : clicks (l1 ++ l2) = clicks l1 + clicks l2.
Proof. unfold clicks. rewrite List.filter_app, List.length_app. lia. Qed.

Lemma clicks_nil : clicks [] = 0.
Proof. reflexivity. Qed.

Lemma clicks_send m : clicks [send m] = 0.
Proof. reflexivity. Qed.

Ltac tidy := simpl fst; simpl snd; simpl anti; rewrite ?clicks_app, ?clicks_send, ?clicks_nil.

Lemma governed_ret {A : Type} (x : A) : governed (ret x).
Proof. intros a y a' l [= <- <- <-]. rewrite clicks_nil. fin. Qed.

Lemma governed_bind {A B : Type} (m : M A) (k : A -> M B) :
  governed m -> (forall x, governed (k x)) -> governed (bind m k).
Proof.
  intros Hm Hk a y a' l. unfold bind.
  destruct (m a) as [[x a1] l1] eqn:E1. destruct (k x a1) as [[y2 a2] l2] eqn:E2.
  intros [= <- <- <-]; try rename y2 into y.
  destruct (Hm _ _ _ _ E1) as (C1 & B1 & A1 & D1 & Q1).
  destruct (Hk _ _ _ _ _ E2) as (C2 & B2 & A2 & D2 & Q2).
  rewrite clicks_app. parts; try lia; try congruence.
  intros F. destruct (Q1 F) as [-> Z1]. destruct (Q2 F) as [-> Z2]. split; [reflexivity|lia].
Qed.

Lemma governed_setVal el v : governed (emit (setVal el v)).
Proof. intros a y a' l [= <- <- <-]. unfold clicks. simpl. fin. Qed.

Lemma governed_when c (m : M unit) : governed m -> governed (when c m).
Proof. destruct c; [trivial|]. intros _. apply governed_ret. Qed.

Lemma governed_clickIfAllowed e submit : governed (clickIfAllowed e submit).
Proof.
  intros a y a' l. unfold clickIfAllowed.
  destruct submit as [b|]; [|apply governed_ret].
  destruct (canAutoSubmit (now e) a) eqn:C; [|apply governed_ret].
  unfold canAutoSubmit in C.
  destruct (autoSubmit a) eqn:Au; [|discriminate]. simpl in C.
  destruct (now e <? coolDownUntil a); [discriminate|].
  destruct (MAX_SUBMITS_PER_TAB <=? submittedCount a) eqn:Cap; [discriminate|].
  apply Z.leb_gt in Cap.
  intros [= <- <- <-]. unfold clicks. simpl. fin.
Qed.

Lemma governed_fillBothFrom e u p roots anyFilled : governed (fillBothFrom e u p roots anyFilled).
Proof.
  revert anyFilled; induction roots as [|root rest IH]; intros anyFilled; cbn [fillBothFrom].
  - apply governed_ret.
  - destruct (findBestInputs root) as [userBest passBest].
    apply governed_bind.
    { apply governed_when. destruct userBest; [apply governed_setVal|apply governed_ret]. }
    intros _. apply governed_bind.
    { apply governed_when. destruct passBest; [apply governed_setVal|apply governed_ret]. }
    intros _. destruct passBest as [pb|]; [|apply IH].
    destruct (_ || _); [|apply IH].
    apply governed_bind; [apply governed_clickIfAllowed|]. intros _. apply governed_ret.
Qed.

Lemma governed_fillBoth e u p : governed (fillBoth e u p).
Proof. apply governed_fillBothFrom. Qed.

Lemma governed_fillUserFrom e u roots : governed (fillUserFrom e u roots).
Proof.
  induction roots as [|root rest IH]; cbn [fillUserFrom].
  - apply governed_ret.
  - destruct (findBestInputs root) as [[ub|] [pb|]]; try apply IH.
    destruct (Js.truthy u); [|apply IH].
    apply governed_bind; [apply governed_setVal|]. intros _.
    apply governed_bind; [apply governed_clickIfAllowed|]. intros _. apply governed_ret.
Qed.

Lemma governed_fillUser e u : governed (fillUser e u).
Proof. apply governed_fillUserFrom. Qed.

Lemma governed_fillPassFrom e p roots : governed (fillPassFrom e p roots).
Proof.
  induction roots as [|root rest IH]; cbn [fillPassFrom].
  - apply governed_ret.
  - destruct (snd (findBestInputs root)) as [pb|]; [|apply IH].
    destruct (Js.truthy p); [|apply IH].
    apply governed_bind; [apply governed_setVal|]. intros _.
    apply governed_bind; [apply governed_clickIfAllowed|]. intros _. apply governed_ret.
Qed.

Lemma governed_fillPass e p : governed (fillPass e p).
Proof. apply governed_fillPassFrom. Qed.

Lemma capped_refl s : capped s s [].
Proof. unfold capped. rewrite clicks_nil. fin. Qed.

Lemma capped_of_governed {A : Type} (m : M A) s s' x l extra :
  governed m -> m (anti s) = (x, anti s', l) -> clicks extra = 0 -> capped s s' (l ++ extra).
Proof.
  intros G E X. destruct (G _ _ _ _ E) as (C & B & Au & _ & Q).
  unfold capped. rewrite clicks_app, X. parts; try lia; try congruence.
  intros F. destruct (Q F). lia.
Qed.

Lemma step_capped s t : capped s (fst (step s t)) (snd (step s t)).
Proof.
  destruct t as [e|e|]; simpl.
  - destruct (intervalOn s); [|apply capped_refl].
    destruct (twoStep (state s)).
    + unfold tickTwoStep. destruct (negb (armed (state s))); [unfold capped; tidy; fin|].
      destruct (pageShowsLikelyFailure e (anti s)).
      { unfold capped, clicks. simpl. fin. }
      destruct (String.eqb (stage (state s)) "init").
      * destruct (fillBoth e _ _ (anti s)) as [[ok a] log] eqn:E1.
        pose proof (governed_fillBoth _ _ _ _ _ _ _ E1) as (C1 & B1 & A1 & _ & Q1).
        destruct ok.
        { unfold capped. tidy. parts; try lia; try congruence.
          intros F. destruct (Q1 F). lia. }
        destruct (fillUser e _ a) as [[ok2 a2] log2] eqn:E2.
        pose proof (governed_fillUser _ _ _ _ _ _ E2) as (C2 & B2 & A2 & _ & Q2).
        destruct ok2; unfold capped; tidy; parts; try lia; try congruence.
        all: intros F; destruct (Q1 F) as [-> Z1]; destruct (Q2 F) as [_ Z2]; lia.
      * destruct (fillPass e _ (anti s)) as [[ok a] log] eqn:E1.
        pose proof (governed_fillPass _ _ _ _ _ _ E1) as (C1 & B1 & A1 & _ & Q1).
        destruct ok; unfold capped; tidy; parts; try lia; try congruence.
        all: intros F; destruct (Q1 F); lia.
    + unfold tickNormal. destruct (negb (armed (state s))); [unfold capped; tidy; fin|].
      destruct (pageShowsLikelyFailure e (anti s)).
      { unfold capped, clicks. simpl. fin. }
      destruct (fillBoth e _ _ (anti s)) as [[ok a] log] eqn:E1.
      pose proof (governed_fillBoth _ _ _ _ _ _ _ E1) as (C1 & B1 & A1 & _ & Q1).
      destruct ok; unfold capped; tidy; parts; try lia; try congruence.
      all: intros F; destruct (Q1 F); lia.
  - destruct (observerOn s); [|apply capped_refl].
    destruct (twoStep (state s)).
    + unfold mutationTwoStep. destruct (negb (armed (state s))); [apply capped_refl|].
      destruct (String.eqb (stage (state s)) "userSubmitted").
      * destruct (fillPass e _ (anti s)) as [[ok a] log] eqn:E1.
        pose proof (governed_fillPass _ _ _ _ _ _ E1) as (C1 & B1 & A1 & _ & Q1).
        unfold capped; tidy. parts; try lia; try congruence.
        intros F. now destruct (Q1 F).
      * destruct (fillBoth e _ _ (anti s)) as [[ok a] log] eqn:E1.
        pose proof (governed_fillBoth _ _ _ _ _ _ _ E1) as (C1 & B1 & A1 & _ & Q1).
        unfold capped; tidy. parts; try lia; try congruence.
        intros F. now destruct (Q1 F).
    + unfold mutationNormal. destruct (negb (armed (state s))); [apply capped_refl|].
      destruct (fillBoth e _ _ (anti s)) as [[ok a] log] eqn:E1.
      pose proof (governed_fillBoth _ _ _ _ _ _ _ E1) as (C1 & B1 & A1 & _ & Q1).
      unfold capped; tidy. parts; try lia; try congruence.
      intros F. now destruct (Q1 F).
  - unfold capped; tidy; fin.
Qed.

Lemma run_capped s ts : capped s (fst (run s ts)) (snd (run s ts)).
Proof.
  revert s; induction ts as [|t rest IH]; intros s; simpl.
  - apply capped_refl.
  - pose proof (step_capped s t) as H1.
    destruct (step s t) as [s1 l1]. simpl in H1.
    pose proof (IH s1) as H2. destruct (run s1 rest) as [s2 l2]. simpl in *.
    destruct H1 as (C1 & B1 & A1 & Q1). destruct H2 as (C2 & B2 & A2 & Q2).
    unfold capped. rewrite clicks_app. parts; try lia; try congruence.
    intros F. rewrite Q1 by exact F. rewrite Q2 by congruence. lia.
Qed.

Lemma clicks_nonneg l : 0 <= clicks l.
Proof. unfold clicks. lia. Qed.

(** The cap of the anti-loop script, whatever the setting of the switch. *)
Theorem anti_loop_caps_clicks (auto : bool) (res : option Msg.Creds) (ts : list Trigger) :
  clicks (snd (run (requestCreds (initial auto) res) ts)) <= MAX_SUBMITS_PER_TAB.
Proof.
  pose proof (run_capped (requestCreds (initial auto) res) ts) as (C & B & _).
  assert (Z : submittedCount (anti (requestCreds (initial auto) res)) = 0)
    by (destruct res; reflexivity).
  rewrite Z in *. unfold MAX_SUBMITS_PER_TAB in *. lia.
Qed.

(** Disarmed is terminal: nothing is done to the page or the channel. *)
Lemma step_disarmed s t :
  armed (state s) = false ->
  snd (step s t) = [] /\ armed (state (fst (step s t))) = false.
Proof.
  intros H. destruct t as [e|e|]; simpl.
  - destruct (intervalOn s); [|now split].
    destruct (twoStep (state s)); unfold tickTwoStep, tickNormal; rewrite H; now split.
  - destruct (observerOn s); [|now split].
    destruct (twoStep (state s)); unfold mutationTwoStep, mutationNormal; rewrite H; now split.
  - now split.
Qed.

Theorem disarmed_is_silent s ts :
  armed (state s) = false ->
  snd (run s ts) = [] /\ armed (state (fst (run s ts))) = false.
Proof.
  revert s; induction ts as [|t rest IH]; intros s H; simpl; [now split|].
  destruct (step_disarmed s t H) as [L A].
  destruct (step s t) as [s1 l1]. simpl in *. subst l1.
  specialize (IH s1 A). destruct (run s1 rest) as [s2 l2]. simpl in *.
  destruct IH as [-> ?]. now split.
Qed.
End ContentFacts.

(** ** The scorers *)
Section ScanFacts.
Variable score : Input -> Z.

Lemma scan_keeps_some els b bs : exists x, fst (scan score els (Some b) bs) = Some x.
Proof.
  revert b bs; induction els as [|el rest IH]; intros b bs; simpl; [eauto|].
  destruct (bs <? score el); apply IH.
Qed.

Lemma scan_nonempty el rest :
  0 <= score el -> exists x, fst (scan score (el :: rest) None (-1)) = Some x.
Proof.
  intros H. simpl. destruct (-1 <? score el) eqn:E; [apply scan_keeps_some|].
  apply Z.ltb_ge in E. lia.
Qed.

Lemma scan_in els b bs x :
  fst (scan score els b bs) = Some x -> In x els \/ b = Some x.
Proof.
  revert b bs; induction els as [|el rest IH]; intros b bs; simpl; [now right|].
  destruct (bs <? score el); intros H; destruct (IH _ _ H) as [|E]; auto.
  injection E as ->. auto.
Qed.
End ScanFacts.

Section ContentScorer.
Import Content.

Lemma passScoreOf_nonneg el : 0 <= passScoreOf el.
Proof.
  unfold passScoreOf.
  destruct (String.eqb _ "password"), (hasAny _ _), (Js.includes _ _); lia.
Qed.

Lemma userScoreOf_nonneg el : 0 <= userScoreOf el.
Proof.
  unfold userScoreOf.
  destruct (negb _ || _ || _), (hasAny _ _), (String.eqb _ "username" || _),
    (String.eqb (norm (type el)) "email"); lia.
Qed.

(** Every root with an input has a password candidate. *)
Lemma any_input_is_password_candidate root :
  snd (findBestInputs root) = None <-> inputs root = [].
Proof.
  unfold findBestInputs. simpl. split.
  - destruct (inputs root) as [|el rest]; [reflexivity|]. intros H.
    destruct (scan_nonempty passScoreOf el rest (passScoreOf_nonneg el)) as [x Hx].
    congruence.
  - now intros ->.
Qed.

Lemma user_without_password_impossible root ub :
  findBestInputs root <> (Some ub, None).
Proof.
  intros H. assert (P : snd (findBestInputs root) = None) by now rewrite H.
  apply any_input_is_password_candidate in P.
  unfold findBestInputs in H. rewrite P in H. discriminate.
Qed.

(** Hence the username step of the two-step flow never fills anything. *)
Lemma fillUser_never_fills e u a : fillUser e u a = (false, a, []).
Proof.
  unfold fillUser. induction (allRoots (page e)) as [|root rest IH]; cbn [fillUserFrom].
  - reflexivity.
  - destruct (findBestInputs root) as [[ub|] [pb|]] eqn:E; try exact IH.
    now apply user_without_password_impossible in E.
Qed.
End ContentScorer.

Section MutationFacts.
Import Content.

Lemma actsOnly_ret {A : Type} (x : A) : actsOnly (ret x).
Proof. intros a. constructor. Qed.

Lemma actsOnly_bind {A B : Type} (m : M A) (k : A -> M B) :
  actsOnly m -> (forall x, actsOnly (k x)) -> actsOnly (bind m k).
Proof.
  intros Hm Hk a. unfold bind. specialize (Hm a).
  destruct (m a) as [[x a1] l1]. specialize (Hk x a1).
  destruct (k x a1) as [[y a2] l2]. simpl in *. apply Forall_app. now split.
Qed.

Lemma actsOnly_setVal el v : actsOnly (emit (setVal el v)).
Proof. intros a. repeat constructor. Qed.

Lemma actsOnly_when c (m : M unit) : actsOnly m -> actsOnly (when c m).
Proof. destruct c; [trivial|]. intros _. apply actsOnly_ret. Qed.

Lemma actsOnly_clickIfAllowed e submit : actsOnly (clickIfAllowed e submit).
Proof.
  intros a. unfold clickIfAllowed. destruct submit as [b|]; [|constructor].
  destruct (canAutoSubmit (now e) a); repeat constructor.
Qed.

Lemma actsOnly_fillBoth e u p : actsOnly (fillBoth e u p).
Proof.
  unfold fillBoth. generalize false.
  induction (allRoots (page e)) as [|root rest IH]; intros anyFilled; cbn [fillBothFrom].
  - apply actsOnly_ret.
  - destruct (findBestInputs root) as [userBest passBest].
    apply actsOnly_bind.
    { apply actsOnly_when. destruct userBest; [apply actsOnly_setVal|apply actsOnly_ret]. }
    intros _. apply actsOnly_bind.
    { apply actsOnly_when. destruct passBest; [apply actsOnly_setVal|apply actsOnly_ret]. }
    intros _. destruct passBest as [pb|]; [|apply IH].
    destruct (_ || _); [|apply IH].
    apply actsOnly_bind; [apply actsOnly_clickIfAllowed|]. intros _. apply actsOnly_ret.
Qed.

Lemma actsOnly_fillPass e p : actsOnly (fillPass e p).
Proof.
  unfold fillPass. induction (allRoots (page e)) as [|root rest IH]; cbn [fillPassFrom].
  - apply actsOnly_ret.
  - destruct (snd (findBestInputs root)) as [pb|]; [|apply IH].
    destruct (Js.truthy p); [|apply IH].
    apply actsOnly_bind; [apply actsOnly_setVal|]. intros _.
    apply actsOnly_bind; [apply actsOnly_clickIfAllowed|]. intros _. apply actsOnly_ret.
Qed.

(** A mutation callback never talks to the worker and never disarms. *)
Lemma mutation_only_refills s e :
  Forall (fun ev => isAction ev = true) (snd (step s (mutation e)))
  /\ armed (state (fst (step s (mutation e)))) = armed (state s).
Proof.
  simpl. destruct (observerOn s); [|split; [constructor|reflexivity]].
  destruct (twoStep (state s)); unfold mutationTwoStep, mutationNormal;
    destruct (negb (armed (state s))); try (split; [constructor|reflexivity]).
  - destruct (String.eqb (stage (state s)) "userSubmitted").
    + pose proof (actsOnly_fillPass e (p (state s)) (anti s)) as H.
      destruct (fillPass e _ (anti s)) as [[ok a] log]. now split.
    + pose proof (actsOnly_fillBoth e (u (state s)) (p (state s)) (anti s)) as H.
      destruct (fillBoth e _ _ (anti s)) as [[ok a] log]. now split.
  - pose proof (actsOnly_fillBoth e (u (state s)) (p (state s)) (anti s)) as H.
    destruct (fillBoth e _ _ (anti s)) as [[ok a] log]. now split.
Qed.
End MutationFacts.

(** Claim C2.  In the anti-loop content script the switch
    [anti.autoSubmit] starts as [AUTO_SUBMIT_DEFAULT = false] and stays false
    whatever credentials arrive and whatever callbacks fire; so
    [canAutoSubmit] is false in every reachable state, [fillBoth],
    [fillUser] and [fillPass] never click there, and the whole run clicks
    nothing. *)
Theorem shipped_script_never_auto_submits (res : option Msg.Creds) (ts : list Content.Trigger) :
  Content.AUTO_SUBMIT_DEFAULT = false
  /\ Content.autoSubmit (Content.anti (fst (Content.script res ts))) = false
  /\ (forall now, Content.canAutoSubmit now (Content.anti (fst (Content.script res ts))) = false)
  /\ (forall e u p,
        clicks (snd (Content.fillBoth e u p (Content.anti (fst (Content.script res ts))))) = 0
        /\ clicks (snd (Content.fillUser e u (Content.anti (fst (Content.script res ts))))) = 0
        /\ clicks (snd (Content.fillPass e p (Content.anti (fst (Content.script res ts))))) = 0)
  /\ clicks (snd (Content.script res ts)) = 0.
Proof.
  unfold Content.script.
  pose proof (run_capped (Content.requestCreds (Content.initial Content.AUTO_SUBMIT_DEFAULT) res) ts)
    as (_ & _ & A & Q).
  assert (Z : Content.autoSubmit
                (Content.anti (Content.requestCreds (Content.initial Content.AUTO_SUBMIT_DEFAULT) res))
              = false) by (destruct res; reflexivity).
  rewrite Z in A. specialize (Q Z).
  split; [reflexivity|]. split; [exact A|]. split; [|split; [|exact Q]].
  - intros now. unfold Content.canAutoSubmit. now rewrite A.
  - intros e u p.
    set (a := Content.anti _) in *.
    destruct (Content.fillBoth e u p a) as [[x1 a1] l1] eqn:E1.
    destruct (Content.fillUser e u a) as [[x2 a2] l2] eqn:E2.
    destruct (Content.fillPass e p a) as [[x3 a3] l3] eqn:E3.
    destruct (governed_fillBoth _ _ _ _ _ _ _ E1) as (_ & _ & _ & _ & Q1).
    destruct (governed_fillUser _ _ _ _ _ _ E2) as (_ & _ & _ & _ & Q2).
    destruct (governed_fillPass _ _ _ _ _ _ E3) as (_ & _ & _ & _ & Q3).
    simpl. repeat split; [apply Q1|apply Q2|apply Q3]; exact A.
Qed.

(** Claim C1, evaluated on the Pro content script.  On a page with an
    ordinary login form every mutation notification fills both fields and
    clicks the submit button: [n] notifications give [n] clicks, and two
    already exceed [MAX_SUBMITS_PER_TAB].  (The anti-loop script obeys the
    cap: [anti_loop_caps_clicks].) *)
Theorem pro_observer_clicks_without_cap :
  (forall n, clicks (snd (ProContent.run (ProContent.requestCredsAndMaybeFill (Some alice))
                            (repeat (ProContent.mutation loginPage) n))) = Z.of_nat n)
  /\ Content.MAX_SUBMITS_PER_TAB
     < clicks (snd (ProContent.run (ProContent.requestCredsAndMaybeFill (Some alice))
                      [ProContent.mutation loginPage; ProContent.mutation loginPage])).
Proof.
  split; [|reflexivity].
  intros n. induction n as [|n IH]; [reflexivity|].
  cbn [repeat ProContent.run].
  change (ProContent.step (ProContent.requestCredsAndMaybeFill (Some alice))
            (ProContent.mutation loginPage))
    with (ProContent.requestCredsAndMaybeFill (Some alice),
          [setVal 1 "alice"; setVal 2 "s3cr3t"; click 3]).
  cbv iota beta.
  destruct (ProContent.run _ _) as [s2 l2]. cbn [snd] in *.
  rewrite (clicks_app [setVal 1 "alice"; setVal 2 "s3cr3t"; click 3] l2), IH.
  change (clicks [setVal 1 "alice"; setVal 2 "s3cr3t"; click 3]) with 1.
  lia.
Qed.

(** Claim C6, evaluated on the Pro content script.  The first poll tick on
    a login page fills, clicks, tells the worker to clear the entry and stops
    the interval; a mutation notification that arrives afterwards fills both
    fields and clicks submit again.  (The anti-loop script stays silent once
    disarmed: [disarmed_is_silent].) *)
Theorem pro_observer_acts_after_completion :
  let start := ProContent.requestCredsAndMaybeFill (Some alice) in
  let done := ProContent.step start (ProContent.tick loginPage) in
  snd done = [setVal 1 "alice"; setVal 2 "s3cr3t"; click 3; send Msg.clearCreds;
              toast "Autofilled ✔︎"]
  /\ ProContent.intervalOn (fst done) = false
  /\ snd (ProContent.step (fst done) (ProContent.mutation loginPage))
     = [setVal 1 "alice"; setVal 2 "s3cr3t"; click 3].
Proof. repeat split. Qed.

(** Claim C4, evaluated on a page whose only input is a username field.
    The field is also returned as the password candidate, so in single-step
    mode the anti-loop script writes the username and then the password into
    it, reports completion, disarms and tells the worker to clear; the Pro
    script does the same and clicks the page's "Next" button as well. *)
Theorem username_only_page_taken_for_complete :
  let r := Content.script (Some alice) [Content.tick (at_ 1000 usernameOnlyPage)] in
  let q := ProContent.run (ProContent.requestCredsAndMaybeFill (Some alice))
             [ProContent.tick usernameOnlyPage] in
  snd (Content.findBestInputs usernameOnlyRoot) = Some usernameField
  /\ snd r = [setVal 1 "alice"; setVal 1 "s3cr3t"; send Msg.clearCreds]
  /\ Content.armed (Content.state (fst r)) = false
  /\ snd q = [setVal 1 "alice"; setVal 1 "s3cr3t"; click 4; send Msg.clearCreds;
              toast "Autofilled ✔︎"]
  /\ ProContent.intervalOn (fst q) = false.
Proof. repeat split. Qed.

(** Claim C3 fails for mutation notifications: on a page that shows a
    rejection, the mutation callback of an armed script leaves it armed. *)
Lemma mutation_skips_failure_detection : ~ Claimed.preempts Content.mutation.
Proof.
  intros H.
  destruct (H (Content.requestCreds (Content.initial Content.AUTO_SUBMIT_DEFAULT) (Some alice))
              (at_ 1000 rejectedPage) eq_refl eq_refl eq_refl eq_refl) as [A _].
  discriminate A.
Qed.

Section Worker.
Variable URL : string -> option Url.
Import Background.

Lemma markOriginFailure_sets_cooldown now st sender t :
  tab sender = Some t -> id t <> 0 -> originOf URL (tabUrl t) <> EmptyString ->
  failUntilByOrigin (fst (onMessage URL now st Msg.markOriginFailure sender))
    !! originOf URL (tabUrl t) = Some (now + 10 * 60 * 1000).
Proof.
  intros T I O. unfold onMessage, truthyTabId. rewrite T.
  destruct (id t =? 0) eqn:E; [apply Z.eqb_eq in E; contradiction|].
  destruct (originOf URL (tabUrl t)) eqn:Eo; [contradiction|].
  simpl. apply lookup_insert_eq.
Qed.

Lemma clearCreds_removes_entry now st sender t :
  tab sender = Some t -> id t <> 0 ->
  credsByTab (fst (onMessage URL now st Msg.clearCreds sender)) !! id t = None.
Proof.
  intros T I. unfold onMessage, truthyTabId. rewrite T.
  destruct (id t =? 0) eqn:E; [apply Z.eqb_eq in E; contradiction|].
  simpl. apply lookup_delete_eq.
Qed.

Lemma dropCached_keeps st tb :
  credsByTab (dropCached st tb) = credsByTab st
  /\ failUntilByOrigin (dropCached st tb) = failUntilByOrigin st.
Proof. unfold dropCached. destruct tb as [t|]; [|easy]. now destruct (Js.truthy _). Qed.

Lemma cooled_click_opens_unarmed now st info tb parsed :
  parseColonLink URL (clickedRaw st info tb) = Some parsed ->
  now < default 0 (failUntilByOrigin st !! originOf URL (url parsed)) ->
  (snd (onClicked URL now st info tb) = [tabsCreate (url parsed) None]
   \/ snd (onClicked URL now st info tb) = [windowsCreate (url parsed) true None])
  /\ credsByTab (fst (onClicked URL now st info tb)) = credsByTab st
  /\ (forall cmd newTab, In cmd (snd (onClicked URL now st info tb)) ->
        onCreated (fst (onClicked URL now st info tb)) cmd newTab
        = fst (onClicked URL now st info tb)).
Proof.
  intros P C. unfold onClicked. rewrite P.
  destruct (dropCached_keeps st tb) as [K1 K2]. cbv zeta. rewrite K2.
  destruct (now <? _) eqn:E; [|apply Z.ltb_ge in E; lia].
  destruct (_ || _); simpl.
  - split; [now right|]. split; [exact K1|]. intros cmd newTab [<-|[]]. reflexivity.
  - split; [now left|]. split; [exact K1|]. intros cmd newTab [<-|[]]. reflexivity.
Qed.
Lemma click_arms_unless_cooled now st info tb parsed :
  parseColonLink URL (clickedRaw st info tb) = Some parsed ->
  map Stated.armOf (snd (onClicked URL now st info tb))
  = [if now <? default 0 (failUntilByOrigin st !! originOf URL (url parsed)) then None
     else Some (Stated.payloadOf info parsed)].
Proof.
  intros P. unfold onClicked. rewrite P.
  destruct (dropCached_keeps st tb) as [K1 K2]. cbv zeta. rewrite K2.
  destruct (now <? _); destruct (_ || _); reflexivity.
Qed.

Lemma markOriginFailure_touches_one_origin now st sender t x :
  tab sender = Some t -> id t <> 0 -> URL (tabUrl t) = Some x -> origin x <> EmptyString ->
  fst (onMessage URL now st Msg.markOriginFailure sender)
  = {| credsByTab := credsByTab st; rawHrefPerTab := rawHrefPerTab st;
       failUntilByOrigin := <[origin x := now + 10 * 60 * 1000]> (failUntilByOrigin st) |}.
Proof.
  intros T I U O. unfold onMessage, truthyTabId, originOf. rewrite T.
  destruct (id t =? 0) eqn:E; [apply Z.eqb_eq in E; contradiction|].
  rewrite U. destruct (origin x); [contradiction|]. reflexivity.
Qed.
End Worker.

Lemma unarmed_script_is_silent (ts : list Content.Trigger) : snd (Content.script None ts) = [].
Proof. unfold Content.script. now apply disarmed_is_silent. Qed.

(** Claim C3, amended.  On every poll tick of an armed flow, failure
    detection runs first, and a positive detection disarms the flow, stops
    the interval, starts the local cooldown and sends exactly [clearCreds]
    and [markOriginFailure], with no fill and no click in that tick; the
    worker then drops the tab's entry and, when the tab's URL has an origin,
    puts that origin under cooldown.  A mutation notification never detects
    a failure: it only fills or clicks, and leaves [armed] as it was. *)
Theorem poll_tick_failure_preempts (URL : string -> option Url) :
  (forall s e,
     Content.armed (Content.state s) = true -> Content.intervalOn s = true ->
     Content.pageShowsLikelyFailure e (Content.anti s) = true ->
     snd (Content.step s (Content.tick e)) = [send Msg.clearCreds; send Msg.markOriginFailure]
     /\ Content.armed (Content.state (fst (Content.step s (Content.tick e)))) = false
     /\ Content.intervalOn (fst (Content.step s (Content.tick e))) = false
     /\ Content.coolDownUntil (Content.anti (fst (Content.step s (Content.tick e))))
        = now e + Content.SUBMIT_COOLDOWN_MS)
  /\ (forall now st sender t,
        Background.tab sender = Some t -> Background.id t <> 0 ->
        Background.credsByTab (fst (Background.onMessage URL now st Msg.clearCreds sender))
          !! Background.id t = None
        /\ (Background.originOf URL (Background.tabUrl t) <> EmptyString ->
            Background.failUntilByOrigin
              (fst (Background.onMessage URL now st Msg.markOriginFailure sender))
              !! Background.originOf URL (Background.tabUrl t)
            = Some (now + Background.SUBMIT_COOLDOWN_MS)))
  /\ (forall s e,
        Forall (fun ev => isAction ev = true) (snd (Content.step s (Content.mutation e)))
        /\ Content.armed (Content.state (fst (Content.step s (Content.mutation e))))
           = Content.armed (Content.state s)).
Proof.
  split; [|split].
  - intros s e A I F. simpl. rewrite I.
    destruct (Content.twoStep (Content.state s));
      unfold Content.tickTwoStep, Content.tickNormal; rewrite A, F; simpl; repeat split.
  - intros now st sender t T I. split.
    + now apply clearCreds_removes_entry.
    + intros O. now apply markOriginFailure_sets_cooldown.
  - apply mutation_only_refills.
Qed.

(** Claim C5.  [markOriginFailure] sets the cooldown of the origin the URL
    parser reports for the sender tab's address to ten minutes from now,
    whatever was stored before, and leaves every other origin as it was.  A
    context-menu click on a link whose origin is still cooling down opens the
    address (in a tab or an incognito window) but arms nothing, neither at
    once nor in the creation callback.  Taken together: after a failure
    reported from one address, a link to any address of the same origin is
    opened unarmed for the next ten minutes, while a link to another origin
    without a cooldown of its own is armed as usual.  A content script that
    gets no entry from the worker does nothing on any trigger. *)
Theorem origin_cooldown_blocks_arming (URL : string -> option Url) :
  (forall now st sender t x,
     Background.tab sender = Some t -> Background.id t <> 0 ->
     URL (Background.tabUrl t) = Some x -> origin x <> EmptyString ->
     Background.failUntilByOrigin
       (fst (Background.onMessage URL now st Msg.markOriginFailure sender)) !! origin x
     = Some (now + 10 * 60 * 1000)
     /\ (forall o, o <> origin x ->
           Background.failUntilByOrigin
             (fst (Background.onMessage URL now st Msg.markOriginFailure sender)) !! o
           = Background.failUntilByOrigin st !! o))
  /\ (forall now st info tb parsed y until,
        Background.parseColonLink URL (Background.clickedRaw st info tb) = Some parsed ->
        URL (Background.url parsed) = Some y ->
        Background.failUntilByOrigin st !! origin y = Some until ->
        now < until ->
        (snd (Background.onClicked URL now st info tb)
           = [Background.tabsCreate (Background.url parsed) None]
         \/ snd (Background.onClicked URL now st info tb)
           = [Background.windowsCreate (Background.url parsed) true None])
        /\ Background.credsByTab (fst (Background.onClicked URL now st info tb))
           = Background.credsByTab st
        /\ (forall cmd newTab, In cmd (snd (Background.onClicked URL now st info tb)) ->
              Background.onCreated (fst (Background.onClicked URL now st info tb)) cmd newTab
              = fst (Background.onClicked URL now st info tb)))
  /\ (forall t now st sender tabS x info tb parsed y,
        Background.tab sender = Some tabS -> Background.id tabS <> 0 ->
        URL (Background.tabUrl tabS) = Some x -> origin x <> EmptyString ->
        Background.parseColonLink URL (Background.clickedRaw st info tb) = Some parsed ->
        URL (Background.url parsed) = Some y ->
        (origin y = origin x -> now < t + 10 * 60 * 1000 ->
         map Stated.armOf
             (snd (Background.onClicked URL now
                     (fst (Background.onMessage URL t st Msg.markOriginFailure sender)) info tb))
         = [None])
        /\ (origin y <> origin x -> Background.failUntilByOrigin st !! origin y = None ->
            0 <= now ->
            map Stated.armOf
                (snd (Background.onClicked URL now
                        (fst (Background.onMessage URL t st Msg.markOriginFailure sender))
                        info tb))
            = [Some (Stated.payloadOf info parsed)]))
  /\ (forall ts, snd (Content.script None ts) = []).
Proof.
  split; [|split; [|split]].
  - intros now st sender t x T I U O.
    rewrite (markOriginFailure_touches_one_origin URL now st sender t x T I U O). simpl.
    split; [apply lookup_insert_eq|]. intros o N. now apply lookup_insert_ne.
  - intros now st info tb parsed y until P U F C.
    apply cooled_click_opens_unarmed; [exact P|].
    unfold Background.originOf. rewrite U, F. exact C.
  - intros t now st sender tabS x info tb parsed y T I U O P Uy.
    rewrite (markOriginFailure_touches_one_origin URL t st sender tabS x T I U O).
    set (st' := {| Background.credsByTab := _; Background.rawHrefPerTab := _;
                   Background.failUntilByOrigin := _ |}).
    assert (P' : Background.parseColonLink URL (Background.clickedRaw st' info tb) = Some parsed)
      by exact P.
    rewrite (click_arms_unless_cooled URL now st' info tb parsed P').
    unfold Background.originOf. rewrite Uy. unfold st'. cbn [Background.failUntilByOrigin].
    split.
    + intros E C. rewrite E, lookup_insert_eq. simpl.
      destruct (Z.ltb_spec now (t + 10 * 60 * 1000)); [reflexivity|lia].
    + intros N F C. rewrite lookup_insert_ne by congruence. rewrite F. simpl.
      destruct (Z.ltb_spec now 0); [lia|reflexivity].
  - apply unarmed_script_is_silent.
Qed.

(** Claim C8 fails as worded: no tolerance, however chosen, makes "switch
    exactly when within tolerance" true (a candidate of equal score 2 is not
    taken, one of equal score 5 is), and an e-mail field within two points of
    the best username score is passed over when the password field itself
    scores best as username. *)
Lemma switch_is_not_a_pure_tolerance :
  ~ (exists tol, Claimed.switchesExactlyWithin tol) /\ ~ Claimed.emailChosenWithin 2.
Proof.
  split.
  - intros [tol H]. destruct (Z_le_gt_dec 0 tol) as [P|N].
    + destruct (H newsletterRoot (field 1 "text" "" 1) 2 (field 2 "password" "pwd" 2) 8 2%nat
                  (field 3 "text" "" 2) 2 eq_refl eq_refl eq_refl eq_refl) as [_ B].
      specialize (B ltac:(lia)). vm_compute in B. discriminate B.
    + destruct (H twoEmailsRoot (field 1 "email" "" 1) 5 (field 2 "password" "pwd" 2) 8 2%nat
                  (field 3 "email" "" 2) 5 eq_refl eq_refl eq_refl eq_refl) as [A _].
      specialize (A eq_refl). lia.
  - intros H.
    specialize (H loginPasswordRoot (field 2 "password" "login_password" 2) (field 1 "email" "" 1)
                  eq_refl eq_refl eq_refl).
    assert (D : ProContent.formsDiffer (field 2 "password" "login_password" 2)
                  (field 1 "email" "" 1) <> None) by discriminate.
    specialize (H D). vm_compute in H. specialize (H ltac:(discriminate)). discriminate H.
Qed.

Section ProScorer.
Import ProContent.

Lemma password_typed_not_textLike el : typeAttrIs "password" el = true -> textLike el = false.
Proof.
  unfold textLike, typeAttrIs. destruct (typeAttr el) as [a|]; [|discriminate].
  intros H. apply String.eqb_eq in H. now rewrite H.
Qed.

(** Claim C8, amended.  In the Pro scorer, when the top-scoring username
    and password elements both have a form and the forms differ, the best
    text, e-mail or untyped input of the password field's form replaces
    the global best exactly when its score is at least
    [max 3 (userScore - 2)]: within two points of the original best and
    never below three.  In a root holding one password field and one
    e-mail field outside the password field's form, the e-mail field is
    chosen whenever it is the top-scoring username element. *)
Theorem same_form_username_rule :
  (forall root ub us pb ps pf c cs,
     scan scoreUsernameInput (inputs root) None (-1) = (Some ub, us) ->
     scan scorePasswordInput (inputs root) None (-1) = (Some pb, ps) ->
     formsDiffer pb ub = Some pf ->
     scan scoreUsernameInput (inputsIn root pf textLike) None (-1) = (Some c, cs) ->
     findBestInputs root = (Some (if Z.max 3 (us - 2) <=? cs then c else ub), Some pb))
  /\ (forall root pw em,
        inputs root = [pw; em] \/ inputs root = [em; pw] ->
        typeAttrIs "password" pw = true ->
        (forall f, form pw = Some f -> ~ In f (ancestorForms em)) ->
        fst (scan scoreUsernameInput (inputs root) None (-1)) = Some em ->
        fst (findBestInputs root) = Some em).
Proof.
  split.
  - intros root ub us pb ps pf c cs U P F C.
    unfold findBestInputs. rewrite P, U, F, C. now destruct (_ <=? cs).
  - intros root pw em I T O U.
    unfold findBestInputs.
    destruct (scan scorePasswordInput (inputs root) None (-1)) as [passBest passScore] eqn:P.
    destruct (scan scoreUsernameInput (inputs root) None (-1)) as [userBest userScore] eqn:Us.
    simpl in U. subst userBest.
    destruct passBest as [pb|]; [|reflexivity].
    destruct (formsDiffer pb em) as [pf|] eqn:F; [|reflexivity].
    assert (Hpb : pb = pw).
    { assert (In pb (inputs root)) as Hin.
      { destruct (scan_in scorePasswordInput (inputs root) None (-1) pb) as [H|H];
          [now rewrite P|exact H|discriminate]. }
      destruct I as [I|I]; rewrite I in Hin; simpl in Hin;
        destruct Hin as [H|[H|[]]]; try (now symmetry); subst pb;
        unfold formsDiffer in F; destruct (form em); try discriminate;
        now rewrite Nat.eqb_refl in F. }
    subst pb.
    assert (Hf : form pw = Some pf).
    { unfold formsDiffer in F. destruct (form pw) as [a|]; [|discriminate].
      destruct (form em); [|discriminate]. destruct (Nat.eqb a n); now inversion F. }
    assert (Hc : inputsIn root pf textLike = []).
    { assert (E1 : existsb (Nat.eqb pf) (ancestorForms em) = false).
      { apply not_true_is_false. intros H. apply existsb_exists in H as (f & Hin & Hq).
        apply Nat.eqb_eq in Hq. subst f. exact (O pf Hf Hin). }
      unfold inputsIn.
      destruct I as [I|I]; rewrite I; simpl;
        rewrite E1, (password_typed_not_textLike pw T), andb_false_r; reflexivity. }
    rewrite Hc. reflexivity.
Qed.

Lemma same_form_username_rule_witness :
  findBestInputs twoEmailsRoot = (Some (field 3 "email" "" 2), Some (field 2 "password" "pwd" 2))
  /\ fst (findBestInputs splitRoot) = Some (field 1 "email" "" 1).
Proof.
  split.
  - exact (proj1 same_form_username_rule twoEmailsRoot (field 1 "email" "" 1) 5
             (field 2 "password" "pwd" 2) 8 2%nat (field 3 "email" "" 2) 5
             eq_refl eq_refl eq_refl eq_refl).
  - apply (proj2 same_form_username_rule splitRoot (field 2 "password" "pwd" 2)).
    + left. reflexivity.
    + reflexivity.
    + intros f [= <-] [H|[]]. discriminate H.
    + reflexivity.
Defined.
End ProScorer.

(** Witnesses *)
Lemma poll_tick_failure_preempts_witness :
  snd (Content.step (Content.requestCreds (Content.initial false) (Some alice))
         (Content.tick (at_ 1000 rejectedPage)))
  = [send Msg.clearCreds; send Msg.markOriginFailure]
  /\ Background.failUntilByOrigin
       (fst (Background.onMessage Samples.sampleURL 1000 emptyStore Msg.markOriginFailure shopSender))
       !! "https://shop.test/login"%string = Some 601000.
Proof.
  split.
  - apply (proj1 (poll_tick_failure_preempts Samples.sampleURL)); reflexivity.
  - apply (proj2 (proj1 (proj2 (poll_tick_failure_preempts Samples.sampleURL)) 1000 emptyStore
                    shopSender shopTab eq_refl ltac:(discriminate))).
    discriminate.
Defined.

Lemma origin_cooldown_blocks_arming_witness :
  Background.failUntilByOrigin
    (fst (Background.onMessage originURL 1000 emptyStore Msg.markOriginFailure shopSender))
    !! "https://shop.test"%string = Some 601000
  /\ snd (Background.onClicked originURL 2000
            (fst (Background.onMessage originURL 1000 emptyStore Msg.markOriginFailure shopSender))
            accountClick None)
     = [Background.tabsCreate "https://shop.test/account" None]
  /\ map Stated.armOf
         (snd (Background.onClicked originURL 2000
                 (fst (Background.onMessage originURL 1000 emptyStore Msg.markOriginFailure
                         shopSender))
                 accountClick None))
     = [None]
  /\ map Stated.armOf
         (snd (Background.onClicked originURL 2000
                 (fst (Background.onMessage originURL 1000 emptyStore Msg.markOriginFailure
                         shopSender))
                 otherClick None))
     = [Some alice].
Proof.
  destruct (origin_cooldown_blocks_arming originURL) as (A & B & C & _).
  pose (x := {| toString := "https://shop.test/login"; origin := "https://shop.test" |}).
  destruct (A 1000 emptyStore shopSender shopTab x eq_refl ltac:(discriminate) eq_refl
              ltac:(discriminate)) as [A1 _].
  split; [exact A1|]. split; [|split].
  - destruct (B 2000
                (fst (Background.onMessage originURL 1000 emptyStore Msg.markOriginFailure
                        shopSender))
                accountClick None
                {| Background.url := "https://shop.test/account"; Background.u := "alice";
                   Background.p := "s3cr3t" |}
                {| toString := "https://shop.test/account"; origin := "https://shop.test" |}
                601000 eq_refl eq_refl A1 ltac:(lia)) as ([H|H] & _).
    + exact H.
    + vm_compute in H. discriminate H.
  - apply (proj1 (C 1000 2000 emptyStore shopSender shopTab x accountClick None
                    {| Background.url := "https://shop.test/account"; Background.u := "alice";
                       Background.p := "s3cr3t" |}
                    {| toString := "https://shop.test/account"; origin := "https://shop.test" |}
                    eq_refl ltac:(discriminate) eq_refl ltac:(discriminate) eq_refl eq_refl));
      [reflexivity|lia].
  - apply (proj2 (C 1000 2000 emptyStore shopSender shopTab x otherClick None
                    {| Background.url := "https://other.test/login"; Background.u := "alice";
                       Background.p := "s3cr3t" |}
                    {| toString := "https://other.test/login"; origin := "https://other.test" |}
                    eq_refl ltac:(discriminate) eq_refl ltac:(discriminate) eq_refl eq_refl));
      [discriminate|reflexivity|lia].
Defined.

Lemma credentials_decoded_or_kept_raw_witness :
  (exists r, Background.parseColonLink Samples.sampleURL
               "https://shop.test/login:bob%40x.com:p%40ss" = Some r
             /\ Background.u r = "bob@x.com"%string /\ Background.p r = "p@ss"%string)
  /\ (exists r, ProBackground.parseColonLinkFlexible Samples.sampleURL
                  "https://shop.test/login:bob%40x.com:p%40ss" = Some r
                /\ ProBackground.username r = "bob@x.com"%string
                /\ ProBackground.password r = "p@ss"%string)
  /\ (exists r, Background.parseColonLink Samples.sampleURL "example.com:100%:p%zz" = Some r
                /\ Background.u r = "100%"%string /\ Background.p r = "p%zz"%string)
  /\ (exists r, ProBackground.parseColonLinkFlexible Samples.sampleURL "example.com:100%:p%zz"
                = Some r
                /\ ProBackground.username r = "100%"%string
                /\ ProBackground.password r = "p%zz"%string).
Proof.
  destruct (credentials_decoded_or_kept_raw Samples.sampleURL
              "https://shop.test/login:bob%40x.com:p%40ss") as (A1 & B1 & C1 & D1).
  destruct (credentials_decoded_or_kept_raw Samples.sampleURL "example.com:100%:p%zz")
    as (A2 & B2 & C2 & D2).
  assert (L1 : colonLink "https://shop.test/login:bob%40x.com:p%40ss"
                 "https://shop.test/login" "bob%40x.com" "p%40ss")
    by (repeat split; discriminate).
  assert (L2 : colonLink "example.com:100%:p%zz" "example.com" "100%" "p%zz")
    by (repeat split; discriminate).
  split; [|split; [|split]].
  - destruct (C1 _ _ _ {| toString := "https://shop.test/login";
                          origin := "https://shop.test/login" |} L1 eq_refl eq_refl) as [r Hr].
    exists r. split; [exact Hr|].
    destruct (A1 r Hr) as (b & us & ps & L & _ & _ & (_ & Eu & _) & (_ & Ep & _)).
    destruct (colonLink_parts _ _ _ _ L) as (_ & -> & ->).
    split; [exact (Eu _ bob_decodes)|exact (Ep _ pass_decodes)].
  - destruct (D1 _ _ _ {| toString := "https://shop.test/login";
                          origin := "https://shop.test/login" |} L1 eq_refl) as [r Hr].
    exists r. split; [exact Hr|].
    destruct (B1 r Hr) as (b & us & ps & L & _ & _ & (_ & Eu & _) & (_ & Ep & _)).
    destruct (colonLink_parts _ _ _ _ L) as (_ & -> & ->).
    split; [exact (Eu _ bob_decodes)|exact (Ep _ pass_decodes)].
  - destruct (C2 _ _ _ {| toString := "https://example.com"; origin := "https://example.com" |}
                L2 eq_refl eq_refl) as [r Hr].
    exists r. split; [exact Hr|].
    destruct (A2 r Hr) as (b & us & ps & L & _ & _ & (_ & _ & Eu) & (_ & _ & Ep)).
    destruct (colonLink_parts _ _ _ _ L) as (_ & -> & ->).
    split; [exact (Eu cut_escape_has_no_decoding)|exact (Ep bad_digits_have_no_decoding)].
  - destruct (D2 _ _ _ {| toString := "https://example.com"; origin := "https://example.com" |}
                L2 eq_refl) as [r Hr].
    exists r. split; [exact Hr|].
    destruct (B2 r Hr) as (b & us & ps & L & _ & _ & (_ & _ & Eu) & (_ & _ & Ep)).
    destruct (colonLink_parts _ _ _ _ L) as (_ & -> & ->).
    split; [exact (Eu cut_escape_has_no_decoding)|exact (Ep bad_digits_have_no_decoding)].
Defined.

(** * Further facts

    Properties of the handlers, parsers and flows beyond the claims above. *)
Import Stated.

(** ** The worker of the anti-loop build: the credential map *)

Section WorkerVault.
Variable URL : string -> option Url.
Import Background.

Lemma truthyTabId_some sender t :
  tab sender = Some t -> id t <> 0 -> truthyTabId sender = Some (id t).
Proof.
  intros T I. unfold truthyTabId. rewrite T.
  destruct (id t =? 0) eqn:E; [apply Z.eqb_eq in E; contradiction|reflexivity].
Qed.

Lemma requestCreds_reply now st sender t :
  tab sender = Some t -> id t <> 0 ->
  onMessage URL now st Msg.requestCreds sender = (st, Some (credsByTab st !! id t)).
Proof. intros T I. unfold onMessage. now rewrite (truthyTabId_some _ _ T I). Qed.

Lemma onCreated_arms st cmd payload n :
  armOf cmd = Some payload -> n <> 0 ->
  credsByTab (onCreated st cmd (Some n)) !! n = Some payload.
Proof.
  intros A N. destruct cmd as [u a|u i a]; simpl in A; subst a; simpl.
  - apply lookup_insert_eq.
  - destruct (n =? 0) eqn:E; [apply Z.eqb_eq in E; contradiction|]. apply lookup_insert_eq.
Qed.

(** Property X1.  For a tab with a non-zero id: once the creation callback
    of a create command that arms [payload] has run for the tab, the worker
    answers [requestCreds] from that tab with [payload]; after [updateStage]
    the answer carries the new stage and is otherwise the same; after
    [clearCreds], or after the tab was closed, the answer is [null]. *)
Theorem worker_vault_lifecycle now st cmd payload sender t stage :
  tab sender = Some t -> id t <> 0 -> armOf cmd = Some payload ->
  let armed := onCreated st cmd (Some (id t)) in
  snd (onMessage URL now armed Msg.requestCreds sender) = Some (Some payload)
  /\ snd (onMessage URL now (fst (onMessage URL now armed (Msg.updateStage stage) sender))
            Msg.requestCreds sender)
     = Some (Some (Msg.setStage payload stage))
  /\ snd (onMessage URL now (fst (onMessage URL now armed Msg.clearCreds sender))
            Msg.requestCreds sender) = Some None
  /\ snd (onMessage URL now (onRemoved armed (id t)) Msg.requestCreds sender) = Some None.
Proof.
  intros T I A armed.
  assert (L : credsByTab armed !! id t = Some payload) by now apply onCreated_arms.
  rewrite !(requestCreds_reply _ _ _ _ T I). simpl.
  repeat split.
  - now rewrite L.
  - unfold onMessage. rewrite (truthyTabId_some _ _ T I), L. simpl.
    now rewrite lookup_insert_eq.
  - unfold onMessage. rewrite (truthyTabId_some _ _ T I). simpl.
    now rewrite lookup_delete_eq.
  - now rewrite lookup_delete_eq.
Qed.

(** Property X2.  A message handled for one tab leaves the entry and the
    cached href of every other tab as they were, and no message creates an
    entry of the credential map: a key present afterwards was present
    before. *)
Theorem worker_keeps_tabs_apart now st msg sender other :
  truthyTabId sender <> Some other ->
  credsByTab (fst (onMessage URL now st msg sender)) !! other = credsByTab st !! other
  /\ rawHrefPerTab (fst (onMessage URL now st msg sender)) !! other = rawHrefPerTab st !! other
  /\ (forall k c, credsByTab (fst (onMessage URL now st msg sender)) !! k = Some c ->
        exists c0, credsByTab st !! k = Some c0).
Proof.
  intros N. unfold onMessage.
  destruct (truthyTabId sender) as [tabId|] eqn:E; [|simpl; eauto].
  assert (D : tabId <> other) by congruence.
  destruct msg as [h| |s| |]; simpl.
  - repeat split; [now rewrite lookup_insert_ne|eauto].
  - eauto.
  - destruct (credsByTab st !! tabId) as [c|] eqn:L; simpl; [|eauto].
    repeat split; [now rewrite lookup_insert_ne|].
    intros k c1 H. destruct (decide (tabId = k)) as [<-|Hk]; [eauto|].
    rewrite lookup_insert_ne in H by exact Hk. eauto.
  - repeat split; [now rewrite lookup_delete_ne|].
    intros k c1 H. destruct (decide (tabId = k)) as [<-|Hk].
    + now rewrite lookup_delete_eq in H.
    + rewrite lookup_delete_ne in H by exact Hk. eauto.
  - destruct (Js.truthy _); simpl; eauto.
Qed.

End WorkerVault.

Lemma worker_vault_lifecycle_witness :
  snd (Background.onMessage Samples.sampleURL 5 (Background.onCreated emptyStore (Background.tabsCreate "https://shop.test/login" (Some alice)) (Some 7))
         Msg.requestCreds shopSender) = Some (Some alice).
Proof.
  exact (proj1 (worker_vault_lifecycle Samples.sampleURL 5 emptyStore
                  (Background.tabsCreate "https://shop.test/login" (Some alice)) alice shopSender shopTab
                  "userSubmitted" eq_refl ltac:(discriminate) eq_refl)).
Defined.


Lemma worker_keeps_tabs_apart_witness :
  Background.credsByTab (fst (Background.onMessage Samples.sampleURL 5
                     (Background.onCreated emptyStore (Background.tabsCreate "https://shop.test/login" (Some alice)) (Some 8))
                     Msg.clearCreds shopSender)) !! 8 = Some alice.
Proof.
  rewrite (proj1 (worker_keeps_tabs_apart Samples.sampleURL 5
                    (Background.onCreated emptyStore (Background.tabsCreate "https://shop.test/login" (Some alice)) (Some 8))
                    Msg.clearCreds shopSender 8 ltac:(discriminate))).
  reflexivity.
Defined.

(** ** The worker of the anti-loop build: context-menu clicks *)

Section WorkerClicks.
Variable URL : string -> option Url.
Import Background.

Lemma click_on_link now st info tb parsed :
  parseColonLink URL (clickedRaw st info tb) = Some parsed ->
  exists cmd,
    snd (onClicked URL now st info tb) = [cmd]
    /\ urlOf cmd = url parsed
    /\ incognitoOf cmd = (String.eqb (menuItemId info) "cl-open-incog"
                          || String.eqb (menuItemId info) "cl-open-incog-2step")
    /\ armOf cmd
       = (if now <? default 0 (failUntilByOrigin st !! originOf URL (url parsed)) then None
          else Some (payloadOf info parsed))
    /\ credsByTab (fst (onClicked URL now st info tb)) = credsByTab st
    /\ failUntilByOrigin (fst (onClicked URL now st info tb)) = failUntilByOrigin st.
Proof.
  intros P. unfold onClicked. rewrite P.
  destruct (dropCached_keeps st tb) as [K1 K2]. cbv zeta. rewrite K2.
  destruct (now <? _); destruct (_ || _) eqn:I; simpl;
    eexists; repeat split; try exact K1; try exact K2; try reflexivity; simpl; now rewrite ?I.
Qed.

(** Property X3.  A context-menu click whose text parses, on an origin
    that is not cooling down, asks for exactly one tab or window at the
    parsed address, incognito for the two incognito items, and arms the
    link's credentials at stage ["init"] (two-step for the two-step items);
    the credential map is untouched by the click itself, the entry appears
    under the new tab's id when the creation callback gets a tab, and
    nothing is stored when it gets none. *)
Theorem fresh_click_arms_in_callback now st info tb parsed :
  parseColonLink URL (clickedRaw st info tb) = Some parsed ->
  default 0 (failUntilByOrigin st !! originOf URL (url parsed)) <= now ->
  exists cmd,
    snd (onClicked URL now st info tb) = [cmd]
    /\ urlOf cmd = url parsed
    /\ incognitoOf cmd = (String.eqb (menuItemId info) "cl-open-incog"
                          || String.eqb (menuItemId info) "cl-open-incog-2step")
    /\ armOf cmd = Some (payloadOf info parsed)
    /\ credsByTab (fst (onClicked URL now st info tb)) = credsByTab st
    /\ (forall n, n <> 0 ->
          credsByTab (onCreated (fst (onClicked URL now st info tb)) cmd (Some n)) !! n
          = Some (payloadOf info parsed))
    /\ onCreated (fst (onClicked URL now st info tb)) cmd None
       = fst (onClicked URL now st info tb).
Proof.
  intros P C. destruct (click_on_link now st info tb parsed P) as (cmd & E & U & I & A & K & _).
  destruct (now <? _) eqn:L; [apply Z.ltb_lt in L; lia|].
  exists cmd. repeat split; try assumption.
  - intros n N. now apply onCreated_arms.
  - now destruct cmd as [? [?|]|? ? [?|]].
Qed.

(** Property X4.  After [markOriginFailure] from a tab at time [t], a
    click on a link of that tab's origin opens the address unarmed at every
    time before [t + 600000] and armed from [t + 600000] on. *)
Theorem cooldown_lasts_ten_minutes t now st sender tabS info tb parsed :
  tab sender = Some tabS -> id tabS <> 0 ->
  parseColonLink URL (clickedRaw st info tb) = Some parsed ->
  originOf URL (url parsed) = originOf URL (tabUrl tabS) ->
  originOf URL (tabUrl tabS) <> EmptyString ->
  map armOf (snd (onClicked URL now (fst (onMessage URL t st Msg.markOriginFailure sender))
                    info tb))
  = [if now <? t + 10 * 60 * 1000 then None else Some (payloadOf info parsed)].
Proof.
  intros T I P O N.
  set (st' := fst (onMessage URL t st Msg.markOriginFailure sender)).
  assert (R : rawHrefPerTab st' = rawHrefPerTab st).
  { unfold st', onMessage. rewrite (truthyTabId_some _ _ T I). simpl. rewrite T.
    now destruct (Js.truthy _). }
  assert (P' : parseColonLink URL (clickedRaw st' info tb) = Some parsed).
  { unfold clickedRaw in *. now rewrite R. }
  destruct (click_on_link now st' info tb parsed P') as (cmd & E & _ & _ & A & _).
  rewrite E. simpl. rewrite A, O.
  unfold st'. rewrite (markOriginFailure_sets_cooldown URL t st sender tabS T I N). reflexivity.
Qed.

(** Property X5.  A non-empty href stored for a tab is the text the next
    context-menu click from that tab parses, whatever the click reports; the
    click consumes it, so the click after it falls back on the selection and
    the link address, and so does a click after a right-click off any
    link, which stores the empty string. *)
Theorem stored_href_is_used_once now now' st h sender t info info' :
  tab sender = Some t -> id t <> 0 -> h <> EmptyString ->
  clickedRaw (fst (onMessage URL now st (Msg.storeRawHref h) sender)) info (Some t) = h
  /\ clickedRaw (fst (onClicked URL now' (fst (onMessage URL now st (Msg.storeRawHref h) sender))
                        info (Some t))) info' (Some t)
     = Js.orElse (selectionText info') (Js.orElse (linkUrl info') EmptyString)
  /\ clickedRaw (fst (onMessage URL now' (fst (onMessage URL now st (Msg.storeRawHref h) sender))
                        (ContentBoot.onContextMenu None) sender)) info' (Some t)
     = Js.orElse (selectionText info') (Js.orElse (linkUrl info') EmptyString).
Proof.
  intros T I H.
  assert (Hh : Js.orElse h EmptyString = h) by (destruct h; [contradiction|reflexivity]).
  assert (Th : Js.truthy h = true) by (destruct h; [contradiction|reflexivity]).
  unfold onMessage at 1 2 3. rewrite (truthyTabId_some _ _ T I). simpl fst.
  set (st1 := {| credsByTab := credsByTab st; rawHrefPerTab := _; failUntilByOrigin := _ |}).
  assert (L : rawHrefPerTab st1 !! id t = Some h).
  { unfold st1. simpl. rewrite Hh. apply lookup_insert_eq. }
  split; [|split].
  - unfold clickedRaw. rewrite L. simpl. unfold Js.orElse at 1. now rewrite Th.
  - assert (D : rawHrefPerTab (fst (onClicked URL now' st1 info (Some t))) !! id t = None).
    { assert (G : fst (onClicked URL now' st1 info (Some t)) = dropCached st1 (Some t)).
      { unfold onClicked. destruct (parseColonLink _ _); [|reflexivity]. cbv zeta.
        destruct (now' <? _); destruct (_ || _); reflexivity. }
      rewrite G. unfold dropCached. rewrite L. simpl. rewrite Th. simpl.
      apply lookup_delete_eq. }
    unfold clickedRaw. rewrite D. reflexivity.
  - unfold ContentBoot.onContextMenu, onMessage. rewrite (truthyTabId_some _ _ T I).
    simpl. unfold clickedRaw. simpl. rewrite lookup_insert_eq. reflexivity.
Qed.

(** Property X6.  A context-menu click on a text with fewer than two
    colons past its first character opens nothing and changes neither the
    credential map nor the cooldowns. *)
Theorem non_link_click_is_inert now st info tb :
  (colonsAfterFirst (clickedRaw st info tb) < 2)%nat ->
  snd (onClicked URL now st info tb) = []
  /\ credsByTab (fst (onClicked URL now st info tb)) = credsByTab st
  /\ failUntilByOrigin (fst (onClicked URL now st info tb)) = failUntilByOrigin st.
Proof.
  intros H.
  assert (P : parseColonLink URL (clickedRaw st info tb) = None).
  { destruct (parseColonLink URL (clickedRaw st info tb)) as [r|] eqn:E; [|reflexivity].
    destruct (parseColonLink_some_link _ _ _ E) as (b & us & ps & L).
    pose proof (colonLink_count _ _ _ _ L).
    pose proof (colonsAfterFirst_trim (clickedRaw st info tb)). lia. }
  unfold onClicked. rewrite P. simpl. split; [reflexivity|]. apply dropCached_keeps.
Qed.
End WorkerClicks.

Lemma fresh_click_arms_in_callback_witness :
  exists cmd,
    snd (Background.onClicked Samples.sampleURL 2000 emptyStore linkClick None) = [cmd]
    /\ armOf cmd = Some alice.
Proof.
  destruct (fresh_click_arms_in_callback Samples.sampleURL 2000 emptyStore linkClick None
              {| Background.url := "https://shop.test/login"; Background.u := "alice";
                 Background.p := "s3cr3t" |} eq_refl ltac:(vm_compute; discriminate))
    as (cmd & E & _ & _ & A & _).
  exists cmd. split; [exact E|exact A].
Defined.

Lemma cooldown_lasts_ten_minutes_witness :
  map armOf (snd (Background.onClicked Samples.sampleURL 601000 cooledStore linkClick None))
  = [Some alice].
Proof.
  exact (cooldown_lasts_ten_minutes Samples.sampleURL 1000 601000 emptyStore shopSender shopTab
           linkClick None
           {| Background.url := "https://shop.test/login"; Background.u := "alice";
              Background.p := "s3cr3t" |}
           eq_refl ltac:(discriminate) eq_refl eq_refl ltac:(discriminate)).
Defined.

Lemma stored_href_is_used_once_witness :
  Background.clickedRaw
    (fst (Background.onMessage Samples.sampleURL 5 emptyStore
            (Msg.storeRawHref "example.com:alice:s3cr3t") shopSender))
    linkClick (Some shopTab) = "example.com:alice:s3cr3t"%string.
Proof.
  exact (proj1 (stored_href_is_used_once Samples.sampleURL 5 6 emptyStore
                  "example.com:alice:s3cr3t" shopSender shopTab linkClick linkClick
                  eq_refl ltac:(discriminate) ltac:(discriminate))).
Defined.

Lemma non_link_click_is_inert_witness :
  snd (Background.onClicked Samples.sampleURL 5 emptyStore
         {| Background.menuItemId := "cl-open"; Background.selectionText := "hello: world";
            Background.linkUrl := "" |} None) = [].
Proof.
  apply (non_link_click_is_inert Samples.sampleURL 5 emptyStore
           {| Background.menuItemId := "cl-open"; Background.selectionText := "hello: world";
              Background.linkUrl := "" |} None).
  vm_compute. lia.
Defined.

(** ** The shape of a link and the scheme of its base *)

Section LinkShape.

(** A text holding [c] splits at the last occurrence of [c]. *)
Lemma split_at_last c (t : string) :
  (1 <= count c t)%nat -> exists t1 t2, t = t1 +:+ String c t2 /\ absent c t2.
Proof.
  induction t as [|a t IH]; simpl; [lia|]. intros H.
  destruct (Nat.eq_dec (count c t) 0%nat) as [Z|N].
  - destruct (Ascii.eqb a c) eqn:E; [|simpl in H; lia].
    apply Ascii.eqb_eq in E. subst a. exists EmptyString, t. now split.
  - destruct (IH ltac:(lia)) as (t1 & t2 & -> & A). exists (String a t1), t2. now split.
Qed.

(** Two colons past the first character make a colon-link shape. *)
Lemma two_colons_make_a_link (s : string) :
  (2 <= colonsAfterFirst s)%nat -> exists b us ps, colonLink s b us ps.
Proof.
  unfold colonsAfterFirst. destruct s as [|a t]; simpl; [lia|]. intros H.
  destruct (split_at_last ":" t ltac:(lia)) as (t1 & ps & -> & Ap).
  rewrite count_app in H. simpl in H. unfold absent in Ap.
  destruct (split_at_last ":" t1 ltac:(lia)) as (t0 & us & -> & Au).
  exists (String a t0), us, ps. repeat split; try assumption; [|discriminate].
  simpl. now rewrite append_assoc.
Qed.

Lemma link_shape_iff (s : string) :
  (0 < Js.lastIndexOf ":" s /\ 0 < Js.lastIndexOfFrom ":" s (Js.lastIndexOf ":" s - 1))
  <-> (2 <= colonsAfterFirst s)%nat.
Proof.
  split.
  - intros [L P]. destruct (two_colons_decompose s L P) as (b & us & ps & H).
    now apply colonLink_count in H.
  - intros H. destruct (two_colons_make_a_link s H) as (b & us & ps & K).
    destruct (colonLink_indices _ _ _ _ K) as (L & P & B). rewrite P, L. lia.
Qed.

(** Property X7.  At start-up the anti-loop content script
    sends the page address to the worker exactly when the address has two
    colons past its first character, and it sends the address unchanged. *)
Theorem salvage_sends_exactly_link_shaped_addresses (href : string) :
  ContentBoot.salvageAddressBar href
  = if (2 <=? colonsAfterFirst href)%nat then [Msg.storeRawHref href] else [].
Proof.
  unfold ContentBoot.salvageAddressBar. cbv zeta.
  destruct (2 <=? colonsAfterFirst href)%nat eqn:E.
  - apply Nat.leb_le in E. apply link_shape_iff in E as [L P].
    apply Z.ltb_lt in L, P. now rewrite L, P.
  - apply Nat.leb_gt in E.
    destruct (0 <? Js.lastIndexOf ":" href) eqn:L; [|reflexivity].
    destruct (0 <? Js.lastIndexOfFrom ":" href (Js.lastIndexOf ":" href - 1)) eqn:P;
      [|reflexivity].
    apply Z.ltb_lt in L, P. pose proof (proj1 (link_shape_iff href) (conj L P)). lia.
Qed.
End LinkShape.

Section SchemeFacts.
Variable URL : string -> option Url.

Lemma https_prefix_added (b : string) : Background.hasHttpPrefix ("https://" +:+ b) = true.
Proof. unfold Background.hasHttpPrefix. simpl. now destruct (Js.toLowerCase b). Qed.

Lemma coerced_base_has_scheme (b : string) :
  Background.hasHttpPrefix (if Background.hasHttpPrefix b then b else "https://" +:+ b) = true.
Proof. destruct (Background.hasHttpPrefix b) eqn:E; [exact E|apply https_prefix_added]. Qed.

(** Property X8.  All three parsers hand the URL parser a base that
    starts with [http://] or [https://] (any case), and the address of a
    successful parse is the serialisation of what the URL parser made of
    that base. *)
Theorem parsed_url_comes_from_http_base (raw : string) :
  (forall r, Background.parseColonLink URL raw = Some r ->
     exists base x, Background.hasHttpPrefix base = true /\ URL base = Some x
                    /\ Background.url r = toString x)
  /\ (forall r, ProBackground.parseColonLinkFlexible URL raw = Some r ->
     exists base x, Background.hasHttpPrefix base = true /\ URL base = Some x
                    /\ ProBackground.url r = toString x)
  /\ (forall r, ProLinks.parseColonLinkFlexible URL raw = Some r ->
     exists base x, Background.hasHttpPrefix base = true /\ URL base = Some x
                    /\ ProBackground.url r = toString x).
Proof.
  split; [|split]; intros r E.
  - destruct (parseColonLink_some_link _ _ _ E) as (b & us & ps & L).
    rewrite (parseColonLink_on_link _ _ _ _ _ L) in E.
    destruct (Background.bareScheme _); [discriminate|].
    destruct (URL _) as [x|] eqn:U; [|discriminate]. injection E as <-.
    eexists _, x. split; [apply coerced_base_has_scheme|]. split; [exact U|reflexivity].
  - destruct (parseColonLinkFlexible_some_link _ _ _ E) as (b & us & ps & L).
    rewrite (parseColonLinkFlexible_on_link _ _ _ _ _ L) in E.
    destruct (URL _) as [x|] eqn:U; [|discriminate]. injection E as <-.
    eexists _, x. split; [apply coerced_base_has_scheme|]. split; [exact U|reflexivity].
  - unfold ProLinks.parseColonLinkFlexible in E.
    destruct (negb (Js.truthy raw)); [discriminate|]. cbv zeta in E.
    destruct (_ || _); [discriminate|].
    destruct (URL _) as [x|] eqn:U; [|discriminate]. injection E as <-.
    eexists _, x. split; [apply coerced_base_has_scheme|]. split; [exact U|reflexivity].
Qed.

End SchemeFacts.

Lemma parsed_url_comes_from_http_base_witness :
  exists base x, Background.hasHttpPrefix base = true /\ Samples.sampleURL base = Some x
                 /\ toString x = "https://example.com"%string.
Proof.
  destruct (proj1 (parsed_url_comes_from_http_base Samples.sampleURL "example.com:alice:s3cr3t")
              {| Background.url := "https://example.com"; Background.u := "alice";
                 Background.p := "s3cr3t" |} eq_refl) as (base & x & H & U & E).
  exists base, x. repeat split; [exact H|exact U|]. now rewrite <- E.
Defined.

(** ** Trimming *)

Section TrimFacts.

Lemma trimStart_length (s : string) : (String.length (Js.trimStart s) <= String.length s)%nat.
Proof.
  destruct (trimStart_suffix s) as (w & H).
  assert (L : Z.of_nat (String.length s)
              = Z.of_nat (String.length w) + Z.of_nat (String.length (Js.trimStart s))).
  { rewrite H at 1. apply app_length_Z. }
  lia.
Qed.

Lemma startsWs_trimStart (s : string) : startsWs (Js.trimStart s) = false.
Proof.
  assert (G : forall n (s : string), (String.length s <= n)%nat -> startsWs (Js.trimStart s) = false).
  { induction n as [|n IH]; intros [|a r] L; simpl in L; try lia; try reflexivity.
    simpl Js.trimStart. destruct (Js.ws1 a) eqn:W1; [apply IH; lia|].
    destruct r as [|b r2]; [simpl; now rewrite W1|].
    destruct (Js.ws2 a b) eqn:W2; [apply IH; simpl in L; lia|].
    destruct r2 as [|c r3]; [simpl; now rewrite W1, W2|].
    destruct (Js.ws3 a b c) eqn:W3; [apply IH; simpl in L; lia|].
    simpl. now rewrite W1, W2, W3. }
  exact (G _ s (le_n _)).
Qed.

Lemma trimStart_id (s : string) : startsWs s = false -> Js.trimStart s = s.
Proof.
  destruct s as [|a [|b [|c r]]]; simpl; try reflexivity;
    destruct (Js.ws1 a); simpl; try discriminate; try reflexivity;
    destruct (Js.ws2 a b); simpl; try discriminate; try reflexivity;
    destruct (Js.ws3 a b c); simpl; try discriminate; reflexivity.
Qed.

Lemma startsWs_prefix (u w : string) : startsWs (u +:+ w) = false -> startsWs u = false.
Proof.
  destruct u as [|a [|b [|c r]]]; simpl; try reflexivity; try trivial;
    destruct (Js.ws1 a); simpl; try discriminate; try reflexivity;
    try (destruct (Js.ws2 a b); simpl; try discriminate; reflexivity).
Qed.

Lemma trimStart_app_blank (x y : string) :
  Js.blank x = true -> Js.trimStart (x +:+ y) = Js.trimStart y.
Proof.
  assert (G : forall n (x : string), (String.length x <= n)%nat ->
                Js.blank x = true -> Js.trimStart (x +:+ y) = Js.trimStart y).
  { unfold Js.blank. induction n as [|n IH]; intros [|a r] L; simpl in L; try lia;
      try reflexivity.
    simpl. destruct (Js.ws1 a) eqn:W1; [intros B; apply IH; [lia|exact B]|].
    destruct r as [|b r2]; [discriminate|]. simpl.
    destruct (Js.ws2 a b) eqn:W2; [intros B; apply IH; [simpl in L; lia|exact B]|].
    destruct r2 as [|c r3]; [discriminate|]. simpl.
    destruct (Js.ws3 a b c) eqn:W3; [intros B; apply IH; [simpl in L; lia|exact B]|].
    discriminate. }
  exact (G _ x (le_n _)).
Qed.

Lemma blank_app (x y : string) : Js.blank x = true -> Js.blank y = true -> Js.blank (x +:+ y) = true.
Proof. intros X Y. unfold Js.blank. rewrite (trimStart_app_blank x y X). exact Y. Qed.

Lemma trimEnd_removes_blank (r : string) :
  exists w, r = Js.trimEnd r +:+ w /\ Js.blank w = true.
Proof.
  induction r as [|a r IH]; [now exists EmptyString|].
  simpl. destruct (Js.blank (String a r)) eqn:B.
  - now exists (String a r).
  - destruct IH as (w & Hw & Bw). exists w. simpl. now rewrite <- Hw.
Qed.

Lemma trimEnd_idem (s : string) : Js.trimEnd (Js.trimEnd s) = Js.trimEnd s.
Proof.
  induction s as [|a r IH]; [reflexivity|].
  simpl. destruct (Js.blank (String a r)) eqn:B; [reflexivity|].
  simpl. rewrite IH.
  destruct (Js.blank (String a (Js.trimEnd r))) eqn:B2; [|reflexivity].
  destruct (trimEnd_removes_blank r) as (w & Hw & Bw).
  pose proof (blank_app _ _ B2 Bw) as C. simpl in C. rewrite <- Hw in C. congruence.
Qed.

Lemma trim_idem (s : string) : Js.trim (Js.trim s) = Js.trim s.
Proof.
  unfold Js.trim.
  destruct (trimEnd_prefix (Js.trimStart s)) as (w & Hw).
  assert (S : startsWs (Js.trimEnd (Js.trimStart s)) = false).
  { apply (startsWs_prefix _ w). rewrite <- Hw. apply startsWs_trimStart. }
  rewrite (trimStart_id _ S). apply trimEnd_idem.
Qed.
End TrimFacts.

(** ** The parser of the Pro content script and of the popup *)

Section PageParser.
Variable URL : string -> option Url.

Lemma page_parser_on_link (href b us ps : string) :
  colonLink (Js.trim href) b us ps ->
  ProLinks.parseColonLinkFlexible URL href =
    match URL (if Background.hasHttpPrefix b then b else "https://" +:+ b) with
    | Some x => Some {| ProBackground.url := toString x;
                        ProBackground.username := Js.trim (ProLinks.decodeTrimmed us);
                        ProBackground.password := Js.trim (ProLinks.decodeTrimmed ps) |}
    | None => None
    end.
Proof.
  intros H. unfold ProLinks.parseColonLinkFlexible.
  rewrite (truthy_trim _ (colonLink_truthy _ _ _ _ H)). simpl negb. cbv iota.
  destruct (colonLink_indices _ _ _ _ H) as (L & P & B).
  destruct (colonLink_slices _ _ _ _ H) as (S1 & S2 & S3).
  cbv zeta. rewrite P, L.
  replace (_ <=? 0) with false by (symmetry; apply Z.leb_gt; lia).
  replace (_ <=? 0) with false by (symmetry; apply Z.leb_gt; lia).
  simpl orb. cbv iota. rewrite S1, S2, S3. reflexivity.
Qed.

Lemma page_parser_some_link (href : string) r :
  ProLinks.parseColonLinkFlexible URL href = Some r ->
  exists b us ps, colonLink (Js.trim href) b us ps.
Proof.
  unfold ProLinks.parseColonLinkFlexible.
  destruct (negb (Js.truthy href)); [discriminate|]. cbv zeta.
  destruct (Js.lastIndexOf ":" (Js.trim href) <=? 0) eqn:E1; [discriminate|].
  destruct (Js.lastIndexOfFrom ":" (Js.trim href) (Js.lastIndexOf ":" (Js.trim href) - 1) <=? 0)
    eqn:E2; [discriminate|]. intros _.
  apply Z.leb_gt in E1, E2. now apply two_colons_decompose.
Qed.

Lemma decodeTrimmed_trim (seg : string) :
  exists x, decodedOrRaw (Js.trim seg) x /\ Js.trim (ProLinks.decodeTrimmed seg) = Js.trim x.
Proof.
  unfold decodedOrRaw, ProLinks.decodeTrimmed.
  destruct (Js.decodeURIComponent (Js.trim seg)) as [d|].
  - now exists d.
  - exists (Js.trim seg). split; [reflexivity|]. now rewrite trim_idem.
Qed.

(** Property X9.  The parser of the Pro content script and of the
    popup returns [null] on a text with fewer than two colons past its first
    character; on success both credentials are free of surrounding white
    space, and each is the trimmed percent-decoding of its trimmed segment,
    or the trimmed segment when decoding throws. *)
Theorem page_parser_trims_credentials (href : string) :
  ((colonsAfterFirst href < 2)%nat -> ProLinks.parseColonLinkFlexible URL href = None)
  /\ (forall r, ProLinks.parseColonLinkFlexible URL href = Some r ->
        Js.trim (ProBackground.username r) = ProBackground.username r
        /\ Js.trim (ProBackground.password r) = ProBackground.password r
        /\ exists b us ps x y,
             colonLink (Js.trim href) b us ps
             /\ decodedOrRaw (Js.trim us) x /\ ProBackground.username r = Js.trim x
             /\ decodedOrRaw (Js.trim ps) y /\ ProBackground.password r = Js.trim y).
Proof.
  split.
  - intros H.
    destruct (ProLinks.parseColonLinkFlexible URL href) as [r|] eqn:E; [|reflexivity].
    destruct (page_parser_some_link _ _ E) as (b & us & ps & L).
    pose proof (colonLink_count _ _ _ _ L). pose proof (colonsAfterFirst_trim href). lia.
  - intros r E. destruct (page_parser_some_link _ _ E) as (b & us & ps & L).
    rewrite (page_parser_on_link _ _ _ _ L) in E.
    destruct (URL _); [|discriminate]. injection E as <-. simpl.
    split; [apply trim_idem|]. split; [apply trim_idem|].
    destruct (decodeTrimmed_trim us) as (x & Dx & Ex).
    destruct (decodeTrimmed_trim ps) as (y & Dy & Ey).
    exists b, us, ps, x, y. split; [exact L|]. split; [exact Dx|]. split; [exact Ex|].
    split; [exact Dy|exact Ey].
Qed.
End PageParser.

Lemma page_parser_trims_credentials_witness :
  ProLinks.parseColonLinkFlexible Samples.sampleURL "example.com:alice" = None
  /\ Js.trim "alice" = "alice"%string.
Proof.
  destruct (page_parser_trims_credentials Samples.sampleURL "example.com:alice") as [A _].
  destruct (page_parser_trims_credentials Samples.sampleURL " example.com:%20alice:s3cr3t ")
    as [_ B].
  split.
  - apply A. vm_compute. lia.
  - exact (proj1 (B {| ProBackground.url := "https://example.com";
                       ProBackground.username := "alice";
                       ProBackground.password := "s3cr3t" |} eq_refl)).
Defined.

(** ** Runs of the anti-loop content script *)

Section Occurrences.

Lemma occurrences_app kind (l1 l2 : list Event) :
  occurrences kind (l1 ++ l2) = (occurrences kind l1 + occurrences kind l2)%nat.
Proof. unfold occurrences. now rewrite List.filter_app, List.length_app. Qed.

Lemma occurrences_actions kind (l : list Event) :
  (forall ev, isAction ev = true -> kind ev = false) ->
  Forall (fun ev => isAction ev = true) l -> occurrences kind l = 0%nat.
Proof.
  intros K H. unfold occurrences. induction H as [|ev l A _ IH]; [reflexivity|].
  simpl. now rewrite (K ev A).
Qed.

Lemma send_kind_not_action kind :
  (forall ev, kind ev = true -> isSend ev = true) ->
  forall ev, isAction ev = true -> kind ev = false.
Proof.
  intros K ev A. destruct (kind ev) eqn:E; [|reflexivity].
  apply K in E. destruct ev; discriminate.
Qed.

Lemma clear_is_send ev : isClearCreds ev = true -> isSend ev = true.
Proof. now destruct ev. Qed.

Lemma mark_is_send ev : isMarkOriginFailure ev = true -> isSend ev = true.
Proof. now destruct ev. Qed.

Lemma update_is_send ev : isUpdateStage ev = true -> isSend ev = true.
Proof. now destruct ev. Qed.
End Occurrences.

Section ContentRuns.
Import Content.

(** Property X10.  Over any sequence of callbacks after the worker's
    answer, the number of clicks the anti-loop content script has made
    equals its submit counter, the counter never exceeds
    [MAX_SUBMITS_PER_TAB], and the auto-submit switch keeps its initial
    value. *)
Theorem clicks_are_counted_and_capped (auto : bool) (res : option Msg.Creds) (ts : list Trigger) :
  clicks (snd (run (requestCreds (initial auto) res) ts))
  = submittedCount (anti (fst (run (requestCreds (initial auto) res) ts)))
  /\ submittedCount (anti (fst (run (requestCreds (initial auto) res) ts))) <= MAX_SUBMITS_PER_TAB
  /\ autoSubmit (anti (fst (run (requestCreds (initial auto) res) ts))) = auto.
Proof.
  pose proof (run_capped (requestCreds (initial auto) res) ts) as (C & B & A & _).
  assert (Z : submittedCount (anti (requestCreds (initial auto) res)) = 0)
    by (destruct res; reflexivity).
  assert (Y : autoSubmit (anti (requestCreds (initial auto) res)) = auto)
    by (destruct res; reflexivity).
  rewrite Z in *. rewrite Y in A. unfold MAX_SUBMITS_PER_TAB in *. repeat split; [lia|lia|exact A].
Qed.

(** Property X11.  A disarmed anti-loop content script stays disarmed
    and does nothing, whatever callbacks follow.  Hence the whole log of an
    armed script whose first interval callback detects a failure is
    [clearCreds; markOriginFailure], and the whole log of an armed one-page
    script whose first interval callback fills the form is that fill
    followed by [clearCreds]. *)
Theorem nothing_happens_after_disarming (s : Script) (e : Env) (ts : list Trigger) :
  (armed (state s) = false ->
     snd (run s ts) = [] /\ armed (state (fst (run s ts))) = false)
  /\ (armed (state s) = true -> intervalOn s = true ->
      pageShowsLikelyFailure e (anti s) = true ->
      snd (run s (tick e :: ts)) = [send Msg.clearCreds; send Msg.markOriginFailure])
  /\ (armed (state s) = true -> intervalOn s = true -> twoStep (state s) = false ->
      pageShowsLikelyFailure e (anti s) = false ->
      fst (fst (fillBoth e (u (state s)) (p (state s)) (anti s))) = true ->
      snd (run s (tick e :: ts))
      = snd (fillBoth e (u (state s)) (p (state s)) (anti s)) ++ [send Msg.clearCreds]).
Proof.
  split; [|split].
  - apply disarmed_is_silent.
  - intros A I F. cbn [run]. simpl step. rewrite I.
    assert (S : (if twoStep (state s) then tickTwoStep e s else tickNormal e s)
                = failed e s (attempts s + 1)).
    { destruct (twoStep (state s)); unfold tickTwoStep, tickNormal; now rewrite A, F. }
    rewrite S. unfold failed.
    destruct (disarmed_is_silent
                {| state := setArmed (state s) false; anti := onFailureCoolDown e (anti s);
                   attempts := attempts s + 1; intervalOn := false; observerOn := observerOn s |}
                ts eq_refl) as [L _].
    destruct (run _ ts) as [s2 l2]. simpl in *. now rewrite L.
  - intros A I T F B. cbn [run]. simpl step. rewrite I, T. unfold tickNormal. rewrite A, F.
    simpl negb. cbv iota.
    destruct (fillBoth e (u (state s)) (p (state s)) (anti s)) as [[ok a] log]. simpl in B.
    subst ok.
    destruct (disarmed_is_silent
                {| state := setArmed (state s) false; anti := a;
                   attempts := attempts s + 1; intervalOn := false; observerOn := observerOn s |}
                ts eq_refl) as [L _].
    destruct (run _ ts) as [s2 l2]. simpl in *. now rewrite L, app_nil_r.
Qed.
End ContentRuns.

(** ** The messages of the anti-loop content script *)

Section ContentMessages.
Import Content.

(** What one callback does, case by case: it keeps the stage and the
    two-step flag, and its log is a list of fills and clicks followed by
    nothing, by [clearCreds] (then the script is disarmed), or by
    [clearCreds] and [markOriginFailure] (a detected failure at an armed
    tick, then the script is disarmed). *)
Lemma step_shape s t :
  exists acts tail,
    snd (step s t) = acts ++ tail
    /\ Forall (fun ev => isAction ev = true) acts
    /\ stage (state (fst (step s t))) = stage (state s)
    /\ twoStep (state (fst (step s t))) = twoStep (state s)
    /\ (tail = []
        \/ (tail = [send Msg.clearCreds] /\ armed (state (fst (step s t))) = false)
        \/ (tail = [send Msg.clearCreds; send Msg.markOriginFailure]
            /\ acts = []
            /\ armed (state (fst (step s t))) = false
            /\ armed (state s) = true
            /\ exists e, t = tick e /\ pageShowsLikelyFailure e (anti s) = true)).
Proof.
  destruct t as [e|e|]; simpl.
  - destruct (intervalOn s); [|exists [], []; simpl; repeat split; auto].
    destruct (armed (state s)) eqn:A.
    2:{ destruct (twoStep (state s)) eqn:T; unfold tickTwoStep, tickNormal; rewrite A;
          exists [], []; simpl; repeat split; auto. }
    destruct (pageShowsLikelyFailure e (anti s)) eqn:F.
    { assert (S : (if twoStep (state s) then tickTwoStep e s else tickNormal e s)
                  = failed e s (attempts s + 1)).
      { destruct (twoStep (state s)); unfold tickTwoStep, tickNormal; now rewrite A, F. }
      rewrite S. exists [], [send Msg.clearCreds; send Msg.markOriginFailure].
      simpl. repeat split; auto. right. right. repeat split; eauto. }
    destruct (twoStep (state s)) eqn:T.
    + unfold tickTwoStep. rewrite A, F. simpl negb. cbv iota.
      destruct (String.eqb (stage (state s)) "init").
      * pose proof (actsOnly_fillBoth e (u (state s)) (p (state s)) (anti s)) as H.
        destruct (fillBoth e _ _ (anti s)) as [[ok a] log]. simpl in H.
        rewrite (fillUser_never_fills e (u (state s)) a).
        destruct ok.
        { exists log, [send Msg.clearCreds]. simpl. repeat split; auto. }
        { exists log, []. simpl. rewrite !app_nil_r. repeat split; auto. }
      * pose proof (actsOnly_fillPass e (p (state s)) (anti s)) as H.
        destruct (fillPass e _ (anti s)) as [[ok a] log]. simpl in H.
        destruct ok.
        { exists log, [send Msg.clearCreds]. simpl. repeat split; auto. }
        { exists log, []. simpl. rewrite !app_nil_r. repeat split; auto. }
    + unfold tickNormal. rewrite A, F. simpl negb. cbv iota.
      pose proof (actsOnly_fillBoth e (u (state s)) (p (state s)) (anti s)) as H.
      destruct (fillBoth e _ _ (anti s)) as [[ok a] log]. simpl in H.
      destruct ok.
      { exists log, [send Msg.clearCreds]. simpl. repeat split; auto. }
      { exists log, []. simpl. rewrite !app_nil_r. repeat split; auto. }
  - destruct (observerOn s); [|exists [], []; simpl; repeat split; auto].
    destruct (twoStep (state s)) eqn:T; unfold mutationTwoStep, mutationNormal;
      (destruct (negb (armed (state s))); [exists [], []; simpl; repeat split; auto|]).
    + destruct (String.eqb (stage (state s)) "userSubmitted").
      * pose proof (actsOnly_fillPass e (p (state s)) (anti s)) as H.
        destruct (fillPass e (p (state s)) (anti s)) as [[ok a] log]. simpl in H.
        exists log, []. rewrite app_nil_r. simpl. repeat split; auto.
      * pose proof (actsOnly_fillBoth e (u (state s)) (p (state s)) (anti s)) as H.
        destruct (fillBoth e (u (state s)) (p (state s)) (anti s)) as [[ok a] log]. simpl in H.
        exists log, []. rewrite app_nil_r. simpl. repeat split; auto.
    + pose proof (actsOnly_fillBoth e (u (state s)) (p (state s)) (anti s)) as H.
      destruct (fillBoth e (u (state s)) (p (state s)) (anti s)) as [[ok a] log]. simpl in H.
      exists log, []. rewrite app_nil_r. simpl. repeat split; auto.
  - exists [], []; simpl; repeat split; auto.
Qed.

Lemma armed_before_step s t :
  armed (state (fst (step s t))) = true -> armed (state s) = true.
Proof.
  intros H. destruct (armed (state s)) eqn:A; [reflexivity|].
  destruct (step_disarmed s t A) as [_ D]. congruence.
Qed.

(** The log of a whole run has the shape of the log of one callback:
    once [clearCreds] is sent the script is disarmed and silent. *)
Lemma run_shape s ts :
  exists acts tail,
    snd (run s ts) = acts ++ tail
    /\ Forall (fun ev => isAction ev = true) acts
    /\ stage (state (fst (run s ts))) = stage (state s)
    /\ twoStep (state (fst (run s ts))) = twoStep (state s)
    /\ (tail = []
        \/ (tail = [send Msg.clearCreds] /\ armed (state (fst (run s ts))) = false)
        \/ (tail = [send Msg.clearCreds; send Msg.markOriginFailure]
            /\ armed (state (fst (run s ts))) = false
            /\ armed (state s) = true
            /\ exists e, In (tick e) ts)).
Proof.
  revert s; induction ts as [|t rest IH]; intros s; cbn [run].
  - exists [], []. simpl. repeat split; auto.
  - destruct (step_shape s t) as (acts & tail & E & A & St & Tw & Cases).
    pose proof (armed_before_step s t) as AB.
    destruct (step s t) as [s1 l1]. simpl in E, St, Tw, Cases, AB. subst l1.
    destruct Cases as [->|[[-> D]|(-> & -> & D & Ar & e & -> & _)]].
    + destruct (IH s1) as (acts2 & tail2 & E2 & A2 & St2 & Tw2 & Cases2).
      destruct (run s1 rest) as [s2 l2]. simpl in *. subst l2.
      exists (acts ++ acts2), tail2. rewrite !app_nil_r, <- app_assoc.
      split; [reflexivity|]. split; [now apply Forall_app|].
      split; [congruence|]. split; [congruence|].
      destruct Cases2 as [->|[[-> D2]|(-> & D2 & Ar2 & e & I)]]; auto.
      right. right. repeat split; auto. exists e. now right.
    + destruct (disarmed_is_silent s1 rest D) as [L F].
      destruct (IH s1) as (_ & _ & _ & _ & St2 & Tw2 & _).
      destruct (run s1 rest) as [s2 l2]. simpl in *. subst l2.
      exists acts, [send Msg.clearCreds]. rewrite app_nil_r.
      repeat split; auto; congruence.
    + destruct (disarmed_is_silent s1 rest D) as [L F].
      destruct (IH s1) as (_ & _ & _ & _ & St2 & Tw2 & _).
      destruct (run s1 rest) as [s2 l2]. simpl in *. subst l2.
      exists [], [send Msg.clearCreds; send Msg.markOriginFailure].
      repeat split; auto; try congruence. right. right. repeat split; auto.
      exists e. now left.
Qed.

(** Property X12.  Over any sequence of callbacks from any state,
    the anti-loop content script sends [clearCreds] at most once and
    [markOriginFailure] at most as often; [clearCreds] is only sent by an
    armed script, which is disarmed afterwards, and [markOriginFailure] only
    when an interval callback ran. *)
Theorem credentials_are_cleared_at_most_once (s : Script) (ts : list Trigger) :
  (occurrences isClearCreds (snd (run s ts)) <= 1)%nat
  /\ (occurrences isMarkOriginFailure (snd (run s ts))
       <= occurrences isClearCreds (snd (run s ts)))%nat
  /\ (occurrences isClearCreds (snd (run s ts)) = 1%nat ->
       armed (state s) = true /\ armed (state (fst (run s ts))) = false)
  /\ (occurrences isMarkOriginFailure (snd (run s ts)) = 1%nat ->
       exists e, In (tick e) ts).
Proof.
  destruct (run_shape s ts) as (acts & tail & E & A & _ & _ & Cases).
  rewrite E, !occurrences_app.
  rewrite (occurrences_actions isClearCreds acts
             (send_kind_not_action _ clear_is_send) A).
  rewrite (occurrences_actions isMarkOriginFailure acts
             (send_kind_not_action _ mark_is_send) A).
  destruct Cases as [->|[[-> D]|(-> & D & Ar & X)]]; cbn.
  - repeat split; try lia; discriminate.
  - repeat split; try lia; try discriminate; auto.
    destruct (armed (state s)) eqn:Ar; [reflexivity|].
    destruct (disarmed_is_silent s ts Ar) as [L _]. rewrite L in E.
    destruct acts; discriminate.
  - repeat split; try lia; auto.
Qed.

(** Property X13.  Over any sequence of callbacks from any state, the
    anti-loop content script keeps its stage and its two-step flag and never
    sends [updateStage]: the username step of the two-step flow never
    succeeds. *)
Theorem stage_never_advances (s : Script) (ts : list Trigger) :
  stage (state (fst (run s ts))) = stage (state s)
  /\ twoStep (state (fst (run s ts))) = twoStep (state s)
  /\ occurrences isUpdateStage (snd (run s ts)) = 0%nat.
Proof.
  destruct (run_shape s ts) as (acts & tail & E & A & St & Tw & Cases).
  rewrite E, occurrences_app.
  rewrite (occurrences_actions isUpdateStage acts
             (send_kind_not_action _ update_is_send) A).
  repeat split; auto.
  destruct Cases as [->|[[-> _]|(-> & _)]]; reflexivity.
Qed.
End ContentMessages.

(** ** Polling and failure detection *)

Section Polling.
Import Content.

Ltac poll :=
  simpl; unfold pollLimit in *;
  repeat match goal with
         | |- context [?a <=? ?b] => destruct (Z.leb_spec a b)
         end;
  simpl; repeat split; intros; try lia; try discriminate; auto.

Lemma step_polls s t :
  0 <= attempts s <= pollLimit (twoStep (state s)) ->
  (intervalOn s = true -> attempts s < pollLimit (twoStep (state s))) ->
  0 <= attempts (fst (step s t)) <= pollLimit (twoStep (state s))
  /\ (intervalOn (fst (step s t)) = true ->
      attempts (fst (step s t)) < pollLimit (twoStep (state s)))
  /\ attempts s <= attempts (fst (step s t))
  /\ attempts (fst (step s t)) <= attempts s + (if isTick t then 1 else 0).
Proof.
  intros B I. destruct t as [e|e|]; simpl.
  - destruct (intervalOn s) eqn:On; [specialize (I eq_refl)|poll; congruence].
    destruct (twoStep (state s)); unfold tickTwoStep, tickNormal;
      (destruct (negb (armed (state s))); [poll|]);
      (destruct (pageShowsLikelyFailure e (anti s)); [poll|]).
    + destruct (String.eqb (stage (state s)) "init").
      * destruct (fillBoth e (u (state s)) (p (state s)) (anti s)) as [[ok a] log].
        destruct ok; [poll|].
        destruct (fillUser e (u (state s)) a) as [[ok2 a2] log2].
        destruct ok2; poll.
      * destruct (fillPass e (p (state s)) (anti s)) as [[ok a] log].
        destruct ok; poll.
    + destruct (fillBoth e (u (state s)) (p (state s)) (anti s)) as [[ok a] log].
      destruct ok; poll.
  - destruct (observerOn s); [|poll].
    destruct (twoStep (state s)); unfold mutationTwoStep, mutationNormal;
      (destruct (negb (armed (state s))); [poll|]).
    + destruct (String.eqb (stage (state s)) "userSubmitted").
      * destruct (fillPass e (p (state s)) (anti s)) as [[ok a] log]. poll; auto.
      * destruct (fillBoth e (u (state s)) (p (state s)) (anti s)) as [[ok a] log]. poll; auto.
    + destruct (fillBoth e (u (state s)) (p (state s)) (anti s)) as [[ok a] log]. poll; auto.
  - poll; auto.
Qed.

Lemma run_polls s ts :
  0 <= attempts s <= pollLimit (twoStep (state s)) ->
  (intervalOn s = true -> attempts s < pollLimit (twoStep (state s))) ->
  0 <= attempts (fst (run s ts)) <= pollLimit (twoStep (state s))
  /\ (intervalOn (fst (run s ts)) = true ->
      attempts (fst (run s ts)) < pollLimit (twoStep (state s)))
  /\ attempts (fst (run s ts)) <= attempts s + Z.of_nat (length (List.filter isTick ts)).
Proof.
  revert s; induction ts as [|t rest IH]; intros s B I; cbn [run].
  - simpl. repeat split; try lia. exact I.
  - destruct (step_polls s t B I) as (B1 & I1 & _ & U1).
    destruct (step_shape s t) as (_ & _ & _ & _ & _ & Tw & _).
    destruct (step s t) as [s1 l1]. simpl in B1, I1, U1, Tw.
    rewrite <- Tw in *.
    destruct (IH s1 B1 I1) as (B2 & I2 & U2).
    destruct (run s1 rest) as [s2 l2]. simpl in *.
    repeat split; try lia; auto.
    destruct (isTick t); simpl length; lia.
Qed.

(** Property X14.  After any sequence of callbacks the attempt
    counter of the anti-loop content script is at most 400 (1000 in
    two-step mode) and at most the number of interval callbacks so far; when
    it has reached that ceiling the interval is cleared. *)
Theorem polling_stops_at_the_attempt_ceiling
  (auto : bool) (res : option Msg.Creds) (ts : list Trigger) :
  0 <= attempts (fst (run (requestCreds (initial auto) res) ts))
    <= pollLimit (twoStep (state (fst (run (requestCreds (initial auto) res) ts))))
  /\ attempts (fst (run (requestCreds (initial auto) res) ts))
     <= Z.of_nat (length (List.filter isTick ts))
  /\ (attempts (fst (run (requestCreds (initial auto) res) ts))
      = pollLimit (twoStep (state (fst (run (requestCreds (initial auto) res) ts)))) ->
      intervalOn (fst (run (requestCreds (initial auto) res) ts)) = false).
Proof.
  destruct (run_shape (requestCreds (initial auto) res) ts) as (_ & _ & _ & _ & _ & Tw & _).
  rewrite Tw.
  destruct (run_polls (requestCreds (initial auto) res) ts) as (B & I & U).
  - destruct res; simpl; unfold pollLimit; [destruct (Msg.twoStep _)|]; lia.
  - destruct res; simpl; unfold pollLimit; [destruct (Msg.twoStep _)|]; intros; lia || discriminate.
  - assert (Z0 : attempts (requestCreds (initial auto) res) = 0) by (destruct res; reflexivity).
    rewrite Z0 in U. repeat split; try lia.
    intros E. destruct (intervalOn _); [|reflexivity]. specialize (I eq_refl). lia.
Qed.
End Polling.

Section UrlHeuristic.
Import Content.

Lemma step_keeps_url s t :
  autoSubmit (anti s) = false ->
  lastUrlAfterSubmit (anti (fst (step s t))) = lastUrlAfterSubmit (anti s).
Proof.
  intros Off. destruct t as [e|e|]; simpl; [| |reflexivity].
  - destruct (intervalOn s); [|reflexivity].
    destruct (twoStep (state s)); unfold tickTwoStep, tickNormal;
      (destruct (negb (armed (state s))); [reflexivity|]);
      (destruct (pageShowsLikelyFailure e (anti s)); [reflexivity|]).
    + destruct (String.eqb (stage (state s)) "init").
      * destruct (fillBoth e (u (state s)) (p (state s)) (anti s)) as [[ok a] log] eqn:E1.
        destruct (governed_fillBoth _ _ _ _ _ _ _ E1) as (_ & _ & _ & _ & Q).
        destruct (Q Off) as [-> _].
        rewrite fillUser_never_fills. destruct ok; reflexivity.
      * destruct (fillPass e (p (state s)) (anti s)) as [[ok a] log] eqn:E1.
        destruct (governed_fillPass _ _ _ _ _ _ E1) as (_ & _ & _ & _ & Q).
        destruct (Q Off) as [-> _]. destruct ok; reflexivity.
    + destruct (fillBoth e (u (state s)) (p (state s)) (anti s)) as [[ok a] log] eqn:E1.
      destruct (governed_fillBoth _ _ _ _ _ _ _ E1) as (_ & _ & _ & _ & Q).
      destruct (Q Off) as [-> _]. destruct ok; reflexivity.
  - destruct (observerOn s); [|reflexivity].
    destruct (twoStep (state s)); unfold mutationTwoStep, mutationNormal;
      (destruct (negb (armed (state s))); [reflexivity|]).
    + destruct (String.eqb (stage (state s)) "userSubmitted").
      * destruct (fillPass e (p (state s)) (anti s)) as [[ok a] log] eqn:E1.
        destruct (governed_fillPass _ _ _ _ _ _ E1) as (_ & _ & _ & _ & Q).
        destruct (Q Off) as [-> _]. reflexivity.
      * destruct (fillBoth e (u (state s)) (p (state s)) (anti s)) as [[ok a] log] eqn:E1.
        destruct (governed_fillBoth _ _ _ _ _ _ _ E1) as (_ & _ & _ & _ & Q).
        destruct (Q Off) as [-> _]. reflexivity.
    + destruct (fillBoth e (u (state s)) (p (state s)) (anti s)) as [[ok a] log] eqn:E1.
      destruct (governed_fillBoth _ _ _ _ _ _ _ E1) as (_ & _ & _ & _ & Q).
      destruct (Q Off) as [-> _]. reflexivity.
Qed.

Lemma run_keeps_url s ts :
  autoSubmit (anti s) = false ->
  lastUrlAfterSubmit (anti (fst (run s ts))) = lastUrlAfterSubmit (anti s).
Proof.
  revert s; induction ts as [|t rest IH]; intros s Off; cbn [run]; [reflexivity|].
  pose proof (step_keeps_url s t Off) as K.
  destruct (step_capped s t) as (_ & _ & A & _).
  destruct (step s t) as [s1 l1]. simpl in K, A.
  assert (Off1 : autoSubmit (anti s1) = false) by congruence.
  specialize (IH s1 Off1). destruct (run s1 rest) as [s2 l2]. simpl in *. congruence.
Qed.

(** Property X15.  In the script as shipped (automatic submission
    off) [lastUrlAfterSubmit] stays empty, so on every page the failure
    detector answers exactly as its text test does. *)
Theorem shipped_detector_is_the_text_test (res : option Msg.Creds) (ts : list Trigger) (e : Env) :
  lastUrlAfterSubmit (anti (fst (script res ts))) = ""%string
  /\ pageShowsLikelyFailure e (anti (fst (script res ts))) = showsFailureText (page e).
Proof.
  assert (U : lastUrlAfterSubmit (anti (fst (script res ts))) = ""%string).
  { unfold script. rewrite run_keeps_url by (destruct res; reflexivity).
    destruct res; reflexivity. }
  split; [exact U|].
  unfold pageShowsLikelyFailure, showsFailureText. rewrite U.
  destruct (bodyText (page e)) as [body|].
  - assert (O : Js.orElse body EmptyString = body) by (destruct body; reflexivity).
    rewrite O. destruct (existsb _ FAILURE_TERMS); [reflexivity|].
    destruct (snd (findBestInputs _)); reflexivity.
  - destruct (snd (findBestInputs _)); reflexivity.
Qed.

(** Property X16.  Once a submit has been recorded at
    the current address, every page at that address whose document has an
    input of any kind is taken for a failed login. *)
Theorem unchanged_address_after_submit_is_failure (e : Env) (a : Anti) (x : Input) :
  In x (inputs (document (page e))) ->
  Js.truthy (lastUrlAfterSubmit a) = true ->
  lastUrlAfterSubmit a = href (page e) ->
  pageShowsLikelyFailure e a = true.
Proof.
  intros I T E. unfold pageShowsLikelyFailure.
  destruct (match bodyText (page e) with Some _ => _ | None => _ end); [reflexivity|].
  destruct (snd (findBestInputs (document (page e)))) eqn:H.
  - rewrite T, E. now rewrite String.eqb_refl.
  - apply any_input_is_password_candidate in H. rewrite H in I. destruct I.
Qed.
End UrlHeuristic.

(** ** The worker of the Pro build *)

Section ProVault.
Import ProWorker.

Lemma pro_truthyTabId (t : Background.Tab) :
  Background.id t <> 0 ->
  Background.truthyTabId {| Background.tab := Some t |} = Some (Background.id t).
Proof.
  intros N. unfold Background.truthyTabId. simpl.
  destruct (Z.eqb_spec (Background.id t) 0); [contradiction|reflexivity].
Qed.

(** Property X17.  The Pro worker stores nothing when it handles
    [openArmedTab]: it asks for one tab that arms the given credentials at
    stage ["init"], with the given mode or the empty one, and stores nothing
    either when the creation callback gets no tab.  Once the callback has
    run for a tab with a non-zero id, [requestCreds] from that tab is
    answered with the entry, with the new stage after [updateStage], and
    with the empty object after [clearCreds] or [disarmTab]. *)
Theorem pro_vault_lifecycle
  (st : Store) (url u p g : string) (mode : option Msg.Mode)
  (sender : Background.Sender) (t : Background.Tab) :
  Background.id t <> 0 ->
  let payload := {| Msg.u := u; Msg.p := p;
                    Msg.mode := default {| Msg.twoStep := false |} mode;
                    Msg.stage := "init" |} in
  let from := {| Background.tab := Some t |} in
  let armed := onCreated st (tabsCreate url payload) (Some (Background.id t)) in
  onMessage st (openArmedTab url u p mode) sender = (st, [tabsCreate url payload], None)
  /\ onCreated st (tabsCreate url payload) None = st
  /\ snd (onMessage armed requestCreds from) = Some (Some payload)
  /\ snd (onMessage (fst (fst (onMessage armed (updateStage g) from))) requestCreds from)
     = Some (Some (Msg.setStage payload g))
  /\ snd (onMessage (fst (fst (onMessage armed clearCreds from))) requestCreds from)
     = Some None
  /\ snd (onMessage (fst (fst (onMessage armed disarmTab from))) requestCreds from)
     = Some None.
Proof.
  intros N payload from armed.
  pose proof (pro_truthyTabId t N) as T. fold from in T.
  split; [reflexivity|]. split; [reflexivity|].
  repeat split; unfold armed, onMessage, onCreated, setCreds, deleteCreds;
    repeat (rewrite ?T; cbn [fst snd credsByTab rawHrefByTab];
            rewrite ?lookup_insert_eq, ?lookup_delete_eq); reflexivity.
Qed.

(** Property X18.  In the Pro worker a non-empty href reported for
    a tab with a non-zero id is what every context-menu click from that tab
    parses: the click's own link address is ignored, and no message other
    than [setRawHrefForTab] changes the stored hrefs. *)
Theorem pro_stored_href_outlives_the_click
  (URL : string -> option Url) (st : Store) (t : Background.Tab) (h : string) :
  Background.id t <> 0 ->
  Js.truthy h = true ->
  let st1 := fst (fst (onMessage st (setRawHrefForTab h) {| Background.tab := Some t |})) in
  (forall info, clickedRaw st1 info (Some t) = h)
  /\ (forall info info', menuItemId info = menuItemId info' ->
        onClicked URL st1 info (Some t) = onClicked URL st1 info' (Some t))
  /\ (forall msg sender,
        (forall h', msg <> setRawHrefForTab h') ->
        rawHrefByTab (fst (fst (onMessage st1 msg sender))) = rawHrefByTab st1).
Proof.
  intros N T st1.
  assert (C : forall info, clickedRaw st1 info (Some t) = h).
  { intros info. unfold clickedRaw, st1. simpl.
    destruct (Z.eqb_spec (Background.id t) 0); [contradiction|].
    rewrite lookup_insert_eq. simpl. now rewrite T. }
  split; [exact C|]. split.
  - intros info info' E. unfold onClicked. rewrite !C, E. reflexivity.
  - intros msg sender NS. destruct msg as [h0| | | | | |]; simpl; try reflexivity.
    + exfalso. now apply (NS h0).
    + destruct (Background.truthyTabId sender); reflexivity.
    + destruct (Background.truthyTabId sender); reflexivity.
    + destruct (Background.truthyTabId sender) as [k|]; [|reflexivity].
      destruct (_ !! k); reflexivity.
    + destruct (Background.truthyTabId sender); reflexivity.
Qed.
End ProVault.

Lemma pro_vault_lifecycle_witness :
  snd (ProWorker.onMessage
         (ProWorker.onCreated
            {| ProWorker.credsByTab := ∅; ProWorker.rawHrefByTab := ∅ |}
            (ProWorker.tabsCreate "https://shop.test/login" alice) (Some 7))
         ProWorker.requestCreds shopSender)
  = Some (Some alice).
Proof.
  exact (proj1 (proj2 (proj2
    (pro_vault_lifecycle {| ProWorker.credsByTab := ∅; ProWorker.rawHrefByTab := ∅ |}
       "https://shop.test/login" "alice" "s3cr3t" "userSubmitted" None shopSender shopTab
       ltac:(discriminate))))).
Defined.

Lemma pro_stored_href_outlives_the_click_witness :
  ProWorker.clickedRaw
    (fst (fst (ProWorker.onMessage
                 {| ProWorker.credsByTab := ∅; ProWorker.rawHrefByTab := ∅ |}
                 (ProWorker.setRawHrefForTab "shop.test:alice:s3cr3t") shopSender)))
    {| ProWorker.menuItemId := "openColonLink"; ProWorker.linkUrl := "https://other.test/" |}
    (Some shopTab)
  = "shop.test:alice:s3cr3t"%string.
Proof.
  exact (proj1 (pro_stored_href_outlives_the_click Samples.sampleURL
                  {| ProWorker.credsByTab := ∅; ProWorker.rawHrefByTab := ∅ |}
                  shopTab "shop.test:alice:s3cr3t" ltac:(discriminate) eq_refl)
           {| ProWorker.menuItemId := "openColonLink"; ProWorker.linkUrl := "https://other.test/" |}).
Defined.

(** ** The popup *)

Section PopupBatch.
Import Popup.
Variable URL : string -> option Url.

Lemma omap_length_le {A B : Type} (f : A -> option B) (g : A -> bool) (l : list A) :
  (forall x, g x = false -> f x = None) ->
  (length (omap f l) <= length (List.filter g l))%nat.
Proof.
  intros H. induction l as [|x l IH]; simpl; [lia|].
  change (list_omap A B f l) with (omap f l).
  destruct (g x) eqn:G.
  - destruct (f x); simpl; lia.
  - rewrite (H x G). exact IH.
Qed.

Lemma in_firstn {A : Type} (x : A) (n : nat) (l : list A) : In x (firstn n l) -> In x l.
Proof.
  revert n. induction l as [|y l IH]; intros [|n]; simpl; auto.
  - intros [].
  - intros [->|H]; eauto.
Qed.

(** Property X19.  The Open button of the popup sends at most 100
    messages and at most one per checked row; every message is an
    [openArmedTab] for the parse of a checked row's text, in one-page
    mode. *)
Theorem popup_batch_is_bounded_and_selected (rows : list Row) :
  (length (openSelected URL rows) <= 100)%nat
  /\ (length (openSelected URL rows) <= length (List.filter checked rows))%nat
  /\ Forall (fun m => exists r l,
                 In r rows /\ checked r = true
                 /\ ProLinks.parseColonLinkFlexible URL (urlText r) = Some l
                 /\ m = ProWorker.openArmedTab (ProBackground.url l) (ProBackground.username l)
                          (ProBackground.password l) (Some {| Msg.twoStep := false |}))
            (openSelected URL rows).
Proof.
  unfold openSelected. rewrite length_map. split; [|split].
  - rewrite length_firstn. lia.
  - rewrite length_firstn.
    pose proof (omap_length_le
                  (fun r => if checked r then ProLinks.parseColonLinkFlexible URL (urlText r)
                            else None) checked rows) as H.
    etransitivity; [apply Nat.le_min_r|]. apply H. intros x ->. reflexivity.
  - apply List.Forall_forall. intros m Hm. apply List.in_map_iff in Hm.
    destruct Hm as (l & <- & Hl).
    assert (Hl' : In l (omap (fun r => if checked r
                                       then ProLinks.parseColonLinkFlexible URL (urlText r)
                                       else None) rows)).
    { exact (in_firstn _ _ _ Hl). }
    clear Hl. induction rows as [|r rows IH]; simpl in Hl'; [destruct Hl'|].
    destruct (checked r) eqn:C.
    + destruct (ProLinks.parseColonLinkFlexible URL (urlText r)) as [l0|] eqn:P.
      * destruct Hl' as [->|Hl'].
        { exists r, l. repeat split; auto. now left. }
        destruct (IH Hl') as (r' & l' & I & R). exists r', l'. split; [now right|exact R].
      * destruct (IH Hl') as (r' & l' & I & R). exists r', l'. split; [now right|exact R].
    + destruct (IH Hl') as (r' & l' & I & R). exists r', l'. split; [now right|exact R].
Qed.

Lemma omap_cons {A B : Type} (f : A -> option B) (x : A) (l : list A) :
  omap f (x :: l) = match f x with Some y => y :: omap f l | None => omap f l end.
Proof. reflexivity. Qed.

Lemma count_first (f : nat -> bool) (n : nat) (bs : list bool) :
  (forall i, f i = (i <? n)%nat) ->
  length (List.filter (fun b : bool => b) (imap (fun i _ => f i) bs)) = Nat.min n (length bs).
Proof.
  revert f n. induction bs as [|b bs IH]; intros f n H.
  - now destruct n.
  - rewrite imap_cons. cbn [List.filter]. rewrite (H 0%nat).
    destruct n as [|n].
    + cbn [Nat.ltb Nat.leb]. apply (IH (f ∘ S) 0%nat). intros i. unfold compose.
      now rewrite (H (S i)).
    + cbn [Nat.ltb Nat.leb length Nat.min]. f_equal.
      apply (IH (f ∘ S) n). intros i. apply (H (S i)).
Qed.

Lemma count_all (bs : list bool) :
  length (List.filter (fun b : bool => b) (map (fun _ => true) bs)) = length bs.
Proof. induction bs as [|b bs IH]; simpl; [reflexivity|]. now rewrite IH. Qed.

(** Pairing succeeds when every row has its cell and its checkbox. *)
Lemma pairRows_first (f : nat -> bool) (texts : list string) (bs : list bool) :
  (length texts <= length bs)%nat ->
  pairRows (map Some texts) (imap (fun i _ => f i) bs)
  = Some (imap (fun i t => {| urlText := t; checked := f i |}) texts).
Proof.
  revert f bs. induction texts as [|t texts IH]; intros f bs L; [reflexivity|].
  destruct bs as [|b bs]; [simpl in L; lia|].
  rewrite !imap_cons. cbn [map pairRows].
  pose proof (IH (f ∘ S) bs ltac:(simpl in L; lia)) as K.
  unfold compose in *. cbv beta in *. now rewrite K.
Qed.

Lemma pairRows_short (cs : list (option string)) (bs : list bool) :
  (length bs < length cs)%nat -> pairRows cs bs = None.
Proof.
  revert bs. induction cs as [|c cs IH]; intros bs L; [simpl in L; lia|].
  destruct c as [t|]; [|reflexivity]. destruct bs as [|b bs]; [reflexivity|].
  cbn [pairRows]. rewrite IH; [reflexivity|simpl in L; lia].
Qed.

Lemma open_first (f : nat -> bool) (n : nat) (texts : list string) :
  (forall i, f i = (i <? n)%nat) ->
  omap (fun r => if checked r then ProLinks.parseColonLinkFlexible URL (urlText r) else None)
       (imap (fun i t => {| urlText := t; checked := f i |}) texts)
  = omap (ProLinks.parseColonLinkFlexible URL) (firstn n texts).
Proof.
  revert f n. induction texts as [|t texts IH]; intros f n H.
  - now destruct n.
  - rewrite imap_cons, omap_cons. cbn [checked urlText]. rewrite (H 0%nat).
    destruct n as [|n].
    + cbn [Nat.ltb Nat.leb firstn].
      apply (IH (f ∘ S) 0%nat). intros i. unfold compose. now rewrite (H (S i)).
    + cbn [Nat.ltb Nat.leb firstn]. rewrite omap_cons.
      destruct (ProLinks.parseColonLinkFlexible URL t); [f_equal|];
        apply (IH (f ∘ S) n); intros i; apply (H (S i)).
Qed.

Lemma omap_length {A B : Type} (f : A -> option B) (l : list A) :
  (length (omap f l) <= length l)%nat.
Proof.
  induction l as [|x l IH]; [reflexivity|]. rewrite omap_cons.
  destruct (f x); simpl; lia.
Qed.

(** Property X20.  The "first 100" button leaves the first 100 checkboxes
    under the list checked and the others unchecked, so the counter shows 100
    or the number of checkboxes if that is smaller; after "select all" it
    shows the number of checkboxes.  When every row has its url cell and
    there are at least as many checkboxes as rows, Open after "first 100"
    sends one one-page [openArmedTab] for each of the first 100 rows whose
    text parses, whatever was checked before.  When there are fewer
    checkboxes than rows the Open handler throws and sends nothing. *)
Theorem first_100_button_selects_a_batch (l : Listing) (texts : list string) :
  countSelected (select100 l) = Nat.min 100 (length (boxes l))
  /\ countSelected (selectAll l) = length (boxes l)
  /\ (cells l = map Some texts -> (length texts <= length (boxes l))%nat ->
      openSelectedBtn URL (select100 l)
      = map openRequest (omap (ProLinks.parseColonLinkFlexible URL) (firstn 100 texts)))
  /\ ((length (boxes l) < length (cells l))%nat -> openSelectedBtn URL l = []).
Proof.
  split; [|split; [|split]].
  - unfold countSelected, select100. cbn [boxes]. now apply count_first.
  - unfold countSelected, selectAll. cbn [boxes]. apply count_all.
  - intros C L. unfold openSelectedBtn, select100. cbn [cells boxes]. rewrite C.
    rewrite (pairRows_first (fun i => (i <? 100)%nat) texts (boxes l) L).
    unfold openSelected. rewrite (open_first _ 100) by reflexivity.
    rewrite firstn_all2; [reflexivity|].
    etransitivity; [apply omap_length|]. rewrite length_firstn. lia.
  - intros L. unfold openSelectedBtn. now rewrite (pairRows_short _ _ L).
Qed.
End PopupBatch.

Lemma first_100_button_selects_a_batch_witness :
  Popup.openSelectedBtn Samples.sampleURL
    (Popup.select100
       {| Popup.cells := [Some "shop.test:alice:s3cr3t"; Some "not a link";
                          Some "bank.test:bob:hunter2"]%string;
          Popup.boxes := [false; true; false; false] |})
  = [ProWorker.openArmedTab "https://shop.test" "alice" "s3cr3t" (Some {| Msg.twoStep := false |});
     ProWorker.openArmedTab "https://bank.test" "bob" "hunter2" (Some {| Msg.twoStep := false |})]
  /\ Popup.openSelectedBtn Samples.sampleURL
       {| Popup.cells := [Some "shop.test:alice:s3cr3t"; Some "bank.test:bob:hunter2"]%string;
          Popup.boxes := [true] |}
     = [].
Proof.
  split.
  - apply (proj1 (proj2 (proj2 (first_100_button_selects_a_batch Samples.sampleURL
             {| Popup.cells := [Some "shop.test:alice:s3cr3t"; Some "not a link";
                                Some "bank.test:bob:hunter2"]%string;
                Popup.boxes := [false; true; false; false] |}
             ["shop.test:alice:s3cr3t"; "not a link"; "bank.test:bob:hunter2"]%string))));
      [reflexivity|simpl; lia].
  - apply (proj2 (proj2 (proj2 (first_100_button_selects_a_batch Samples.sampleURL
             {| Popup.cells := [Some "shop.test:alice:s3cr3t"; Some "bank.test:bob:hunter2"]%string;
                Popup.boxes := [true] |} [])))).
    simpl; lia.
Defined.

(** ** The scoring loop, and the stage of the Pro content script *)

Section ScanRule.
Variable score : Input -> Z.

(** What the scoring loop returns: the accumulator it was given when no
    element beats it, else the first element with the highest score. *)
Lemma scan_first_best els b bs :
  (fst (scan score els b bs) = b /\ snd (scan score els b bs) = bs
   /\ Forall (fun y => score y <= bs) els)
  \/ (exists x, fst (scan score els b bs) = Some x /\ snd (scan score els b bs) = score x
                /\ bs < score x /\ firstBest score els x).
Proof.
  revert b bs; induction els as [|el rest IH]; intros b bs; simpl.
  - left. repeat split. constructor.
  - destruct (Z.ltb_spec bs (score el)) as [L|L].
    + right. destruct (IH (Some el) (score el)) as [(E1 & E2 & F)|(x & E1 & E2 & G & before & after & E & B & A)].
      * exists el. rewrite E1, E2. repeat split; auto.
        exists [], rest. repeat split; auto.
      * exists x. rewrite E1, E2. repeat split; auto; [lia|].
        exists (el :: before), after. rewrite E. repeat split; auto.
    + destruct (IH b bs) as [(E1 & E2 & F)|(x & E1 & E2 & G & before & after & E & B & A)].
      * left. repeat split; auto.
      * right. exists x. rewrite E1, E2. repeat split; auto.
        exists (el :: before), after. rewrite E. repeat split; auto.
        constructor; [lia|exact B].
Qed.

Lemma scan_picks_first_best el rest :
  0 <= score el ->
  exists x, fst (scan score (el :: rest) None (-1)) = Some x
            /\ firstBest score (el :: rest) x.
Proof.
  intros H.
  destruct (scan_first_best (el :: rest) None (-1)) as [(_ & _ & F)|(x & E & _ & _ & FB)].
  - inversion F; subst. lia.
  - eauto.
Qed.
End ScanRule.

Section BestInputs.

(** Property X21.  On a root without inputs the anti-loop
    scorer finds nothing; on any other root it finds both a username and a
    password candidate, each the first input with the highest score of its
    kind. *)
Theorem best_inputs_are_first_with_highest_score (root : Root) :
  (inputs root = [] -> Content.findBestInputs root = (None, None))
  /\ (inputs root <> [] ->
      exists ub pb,
        Content.findBestInputs root = (Some ub, Some pb)
        /\ firstBest Content.userScoreOf (inputs root) ub
        /\ firstBest Content.passScoreOf (inputs root) pb).
Proof.
  unfold Content.findBestInputs. split.
  - intros ->. reflexivity.
  - destruct (inputs root) as [|el rest]; [congruence|]. intros _.
    destruct (scan_picks_first_best Content.userScoreOf el rest (userScoreOf_nonneg el))
      as (ub & E1 & F1).
    destruct (scan_picks_first_best Content.passScoreOf el rest (passScoreOf_nonneg el))
      as (pb & E2 & F2).
    exists ub, pb. rewrite E1, E2. auto.
Qed.
End BestInputs.

Lemma best_inputs_are_first_with_highest_score_witness :
  exists ub pb,
    Content.findBestInputs loginRoot = (Some ub, Some pb)
    /\ firstBest Content.userScoreOf (inputs loginRoot) ub
    /\ firstBest Content.passScoreOf (inputs loginRoot) pb.
Proof.
  apply (proj2 (best_inputs_are_first_with_highest_score loginRoot)). discriminate.
Defined.

Section ProStage.
Import ProContent.

Lemma scorePasswordInput_nonneg el : 0 <= scorePasswordInput el.
Proof.
  unfold scorePasswordInput.
  destruct (String.eqb _ "password"), (hasTerm (_ +:+ _) _), (hasTerm (norm (placeholder el)) _),
    (hasTerm (norm (default _ _)) _), (Js.includes _ _); lia.
Qed.

Lemma pro_findBestInputs_parts root :
  snd (findBestInputs root) = fst (scan scorePasswordInput (inputs root) None (-1))
  /\ (inputs root = [] -> fst (findBestInputs root) = None).
Proof.
  unfold findBestInputs. split.
  - destruct (scan scorePasswordInput (inputs root) None (-1)) as [pb ps].
    destruct (scan scoreUsernameInput (inputs root) None (-1)) as [ub us].
    destruct pb as [pb|], ub as [ub|]; try reflexivity.
    destruct (formsDiffer pb ub); [|reflexivity].
    destruct (scan scoreUsernameInput _ None (-1)) as [[b|] bsc]; [|reflexivity].
    destruct (Z.max 3 (us - 2) <=? bsc); reflexivity.
  - intros ->. reflexivity.
Qed.

Lemma pro_user_without_password_impossible root ub :
  findBestInputs root <> (Some ub, None).
Proof.
  intros H. destruct (pro_findBestInputs_parts root) as [P N].
  rewrite H in P, N. simpl in P, N.
  destruct (inputs root) as [|el rest]; [now specialize (N eq_refl)|].
  destruct (scan_nonempty scorePasswordInput el rest (scorePasswordInput_nonneg el)) as [x Hx].
  congruence.
Qed.

Lemma fillUsernameOnly_never_fills pg u : fillUsernameOnly pg u = (false, []).
Proof.
  unfold fillUsernameOnly. induction (allRoots pg) as [|root rest IH]; simpl; [reflexivity|].
  destruct (findBestInputs root) as [[ub|] [pb|]] eqn:E; try exact IH.
  exfalso. exact (pro_user_without_password_impossible root ub E).
Qed.

Lemma occurrences_none kind (l : list Event) :
  Forall (fun ev => kind ev = false) l -> occurrences kind l = 0%nat.
Proof.
  intros H. unfold occurrences. induction H as [|ev l A _ IH]; [reflexivity|].
  simpl. now rewrite A.
Qed.

Lemma quiet_clickOf c : Forall (fun ev => isUpdateStage ev = false) (clickOf c).
Proof. destruct c; repeat constructor. Qed.

Lemma quiet_setVal (o : option Input) (c : bool) (v : string) :
  Forall (fun ev => isUpdateStage ev = false)
    match o with
    | Some el => if c then [setVal (eid el) v] else []
    | None => []
    end.
Proof. destruct o; [destruct c|]; repeat constructor. Qed.

Lemma quiet_fillBoth u p roots any :
  Forall (fun ev => isUpdateStage ev = false) (snd (fillBothIfPresentFrom u p roots any)).
Proof.
  revert any; induction roots as [|root rest IH]; intros any; cbn [fillBothIfPresentFrom];
    [constructor|].
  destruct (findBestInputs root) as [ub pb].
  assert (Q1 : Forall (fun ev => isUpdateStage ev = false)
                 match ub with
                 | Some el => if isSome ub && Js.truthy u then [setVal (eid el) u] else []
                 | None => []
                 end).
  { apply quiet_setVal. }
  assert (Q2 : Forall (fun ev => isUpdateStage ev = false)
                 match pb with
                 | Some el => if isSome pb && Js.truthy p then [setVal (eid el) p] else []
                 | None => []
                 end).
  { apply quiet_setVal. }
  destruct pb as [pb|].
  - destruct (any || _ || _).
    + simpl. apply Forall_app; split; [exact Q1|]. apply Forall_app; split; [exact Q2|].
      apply quiet_clickOf.
    + specialize (IH false). destruct (fillBothIfPresentFrom u p rest false) as [ok l3].
      simpl in *. apply Forall_app; split; [exact Q1|]. apply Forall_app; split; auto.
  - match goal with
    | |- context [fillBothIfPresentFrom u p rest ?a] =>
        specialize (IH a); destruct (fillBothIfPresentFrom u p rest a) as [ok l3]
    end.
    simpl in *. apply Forall_app; split; [exact Q1|]. exact IH.
Qed.

Lemma quiet_fillPassword p roots :
  Forall (fun ev => isUpdateStage ev = false) (snd (fillPasswordIfPresentFrom p roots)).
Proof.
  induction roots as [|root rest IH]; cbn [fillPasswordIfPresentFrom]; [constructor|].
  destruct (snd (findBestInputs root)); [|exact IH].
  destruct (Js.truthy p); [|exact IH].
  simpl. constructor; [reflexivity|apply quiet_clickOf].
Qed.

Lemma quiet_toast (b : bool) (x y : string) :
  occurrences isUpdateStage [toast (if b then x else y)] = 0%nat.
Proof. now destruct b. Qed.

Lemma onManualFill_updates pg res :
  occurrences isUpdateStage (onManualFill pg res)
  = if advancesStage (manualFill pg res) then 1%nat else 0%nat.
Proof.
  unfold onManualFill, advancesStage. destruct res as [c|]; [|reflexivity].
  destruct (Msg.twoStep (Msg.mode c)); cbn [andb].
  - destruct (String.eqb (Msg.stage c) "userSubmitted"); cbn [negb andb].
    + pose proof (quiet_fillPassword (Msg.p c) (allRoots pg)) as Q.
      fold (fillPasswordIfPresent pg (Msg.p c)) in Q.
      destruct (fillPasswordIfPresent pg (Msg.p c)) as [ok log]. cbn [snd] in Q.
      rewrite !occurrences_app, (occurrences_none _ _ Q). now destruct ok.
    + rewrite fillUsernameOnly_never_fills.
      pose proof (quiet_fillBoth (Msg.u c) (Msg.p c) (allRoots pg) false) as Q.
      fold (fillBothIfPresent pg (Msg.u c) (Msg.p c)) in Q.
      destruct (fillBothIfPresent pg (Msg.u c) (Msg.p c)) as [ok log]. cbn [fst snd] in *.
      rewrite !occurrences_app, (occurrences_none _ _ Q). now destruct ok.
  - pose proof (quiet_fillBoth (Msg.u c) (Msg.p c) (allRoots pg) false) as Q.
    fold (fillBothIfPresent pg (Msg.u c) (Msg.p c)) in Q.
    destruct (fillBothIfPresent pg (Msg.u c) (Msg.p c)) as [ok log]. cbn [snd] in Q.
    rewrite !occurrences_app, (occurrences_none _ _ Q). now destruct ok.
Qed.

Lemma pro_flow_keeps_stage s t :
  isManualFill t = false ->
  stage (fst (step s t)) = stage s
  /\ Forall (fun ev => isUpdateStage ev = false) (snd (step s t)).
Proof.
  intros M. unfold step. destruct t as [pg|pg| |pg res|]; [| | |discriminate M|].
  - destruct (creds s) as [c|]; [|split; [reflexivity|constructor]].
    destruct (intervalOn s); [|split; [reflexivity|constructor]].
    destruct (Msg.twoStep (Msg.mode c)).
    + unfold tickTwoStep. destruct (String.eqb (stage s) "init").
      * pose proof (quiet_fillBoth (Msg.u c) (Msg.p c) (allRoots pg) false) as Q.
        fold (fillBothIfPresent pg (Msg.u c) (Msg.p c)) in Q.
        destruct (fillBothIfPresent pg (Msg.u c) (Msg.p c)) as [ok log]. simpl in Q.
        destruct ok.
        { split; [reflexivity|]. simpl. apply Forall_app; split; [exact Q|repeat constructor]. }
        rewrite fillUsernameOnly_never_fills. simpl. rewrite app_nil_r. now split.
      * pose proof (quiet_fillPassword (Msg.p c) (allRoots pg)) as Q.
        fold (fillPasswordIfPresent pg (Msg.p c)) in Q.
        destruct (fillPasswordIfPresent pg (Msg.p c)) as [ok log]. simpl in Q.
        destruct ok; split; try reflexivity; simpl; auto.
        apply Forall_app; split; [exact Q|repeat constructor].
    + unfold tickNormal.
      pose proof (quiet_fillBoth (Msg.u c) (Msg.p c) (allRoots pg) false) as Q.
      fold (fillBothIfPresent pg (Msg.u c) (Msg.p c)) in Q.
      destruct (fillBothIfPresent pg (Msg.u c) (Msg.p c)) as [ok log]. simpl in Q.
      destruct ok; split; try reflexivity; simpl; auto.
      apply Forall_app; split; [exact Q|repeat constructor].
  - destruct (creds s) as [c|]; [|split; [reflexivity|constructor]].
    destruct (observerOn s); [|split; [reflexivity|constructor]].
    destruct (Msg.twoStep (Msg.mode c)).
    + unfold mutationTwoStep. destruct (String.eqb (stage s) "userSubmitted").
      * pose proof (quiet_fillPassword (Msg.p c) (allRoots pg)) as Q.
        fold (fillPasswordIfPresent pg (Msg.p c)) in Q.
        destruct (fillPasswordIfPresent pg (Msg.p c)) as [ok log]. simpl in Q.
        destruct ok; split; try reflexivity; simpl; auto.
        apply Forall_app; split; [exact Q|repeat constructor].
      * split; [reflexivity|]. apply quiet_fillBoth.
    + unfold mutationNormal. split; [reflexivity|]. apply quiet_fillBoth.
  - destruct (creds s); split; try reflexivity; constructor.
  - split; [reflexivity|]. repeat constructor.
Qed.

Lemma pro_step_updates s t :
  stage (fst (step s t)) = stage s
  /\ occurrences isUpdateStage (snd (step s t))
     = if advancesStage t then 1%nat else 0%nat.
Proof.
  destruct (isManualFill t) eqn:M.
  - destruct t as [pg|pg| |pg res|]; try discriminate M.
    split; [reflexivity|]. apply onManualFill_updates.
  - destruct (pro_flow_keeps_stage s t M) as [St Q]. split; [exact St|].
    rewrite (occurrences_none _ _ Q). now destruct t as [pg|pg| |pg res|].
Qed.

(** Property X22.  The username-only step of the Pro content script fills
    nothing on any page.  Hence, over any sequence of callbacks (interval,
    observer, unload, [manualFill] and [disarmed] messages), the script keeps
    its stage, and [updateStage] goes out once for every manual fill that is
    answered with a two-step entry not yet at ["userSubmitted"] on a page
    where [fillBothIfPresent] succeeds, and at no other time; in particular
    the two flows never send it. *)
Theorem pro_two_step_never_leaves_its_stage (s : Script) (ts : list Trigger) (pg : Page) (u : string) :
  fillUsernameOnly pg u = (false, [])
  /\ stage (fst (run s ts)) = stage s
  /\ occurrences isUpdateStage (snd (run s ts)) = length (List.filter advancesStage ts)
  /\ (Forall (fun t => isManualFill t = false) ts ->
      occurrences isUpdateStage (snd (run s ts)) = 0%nat).
Proof.
  split; [apply fillUsernameOnly_never_fills|].
  assert (K : stage (fst (run s ts)) = stage s
              /\ occurrences isUpdateStage (snd (run s ts))
                 = length (List.filter advancesStage ts)).
  { revert s; induction ts as [|t rest IH]; intros s; cbn [run].
    - split; reflexivity.
    - destruct (pro_step_updates s t) as [St Q].
      destruct (step s t) as [s1 l1]. simpl in St, Q.
      destruct (IH s1) as [St2 Q2]. destruct (run s1 rest) as [s2 l2]. simpl in *.
      split; [congruence|]. rewrite occurrences_app, Q2, Q.
      now destruct (advancesStage t). }
  destruct K as [K1 K2]. split; [exact K1|]. split; [exact K2|].
  intros F. rewrite K2. clear K1 K2.
  induction F as [|t rest M _ IH]; [reflexivity|]. simpl.
  assert (A : advancesStage t = false) by (destruct t; try reflexivity; discriminate M).
  now rewrite A.
Qed.
End ProStage.

Lemma pro_two_step_never_leaves_its_stage_witness :
  occurrences isUpdateStage
    (snd (ProContent.run (ProContent.requestCredsAndMaybeFill (Some aliceTwoStep))
            [ProContent.tick usernameOnlyPage; ProContent.mutation usernameOnlyPage;
             ProContent.beforeunload; ProContent.disarmed])) = 0%nat
  /\ occurrences isUpdateStage
       (snd (ProContent.run ProContent.idle
               [ProContent.manualFill loginPage (Some aliceTwoStep)])) = 1%nat.
Proof.
  split.
  - apply (proj2 (proj2 (proj2 (pro_two_step_never_leaves_its_stage
             (ProContent.requestCredsAndMaybeFill (Some aliceTwoStep))
             [ProContent.tick usernameOnlyPage; ProContent.mutation usernameOnlyPage;
              ProContent.beforeunload; ProContent.disarmed] loginPage "alice")))).
    repeat constructor.
  - rewrite (proj1 (proj2 (proj2 (pro_two_step_never_leaves_its_stage ProContent.idle
               [ProContent.manualFill loginPage (Some aliceTwoStep)] loginPage "alice")))).
    reflexivity.
Defined.

(** ** Instances on the sample pages *)

Lemma nothing_happens_after_disarming_witness :
  snd (Content.run (Content.initial false) [Content.tick (at_ 0 loginPage)]) = []
  /\ snd (Content.run (Content.requestCreds (Content.initial false) (Some alice))
            [Content.tick (at_ 1000 rejectedPage); Content.tick (at_ 1800 rejectedPage)])
     = [send Msg.clearCreds; send Msg.markOriginFailure]
  /\ snd (Content.run (Content.requestCreds (Content.initial false) (Some alice))
            [Content.tick (at_ 1000 loginPage); Content.tick (at_ 1800 loginPage)])
     = [setVal 1 "alice"; setVal 2 "s3cr3t"; send Msg.clearCreds].
Proof.
  split; [|split].
  - apply (proj1 (nothing_happens_after_disarming (Content.initial false) (at_ 0 loginPage)
                    [Content.tick (at_ 0 loginPage)])).
    reflexivity.
  - apply (proj1 (proj2 (nothing_happens_after_disarming
                           (Content.requestCreds (Content.initial false) (Some alice))
                           (at_ 1000 rejectedPage) [Content.tick (at_ 1800 rejectedPage)])));
      reflexivity.
  - apply (proj2 (proj2 (nothing_happens_after_disarming
                           (Content.requestCreds (Content.initial false) (Some alice))
                           (at_ 1000 loginPage) [Content.tick (at_ 1800 loginPage)])));
      reflexivity.
Defined.

Lemma credentials_are_cleared_at_most_once_witness :
  (Content.armed (Content.state (Content.requestCreds (Content.initial false) (Some alice))) = true
   /\ Content.armed
        (Content.state
           (fst (Content.run (Content.requestCreds (Content.initial false) (Some alice))
                   [Content.tick (at_ 1000 rejectedPage)]))) = false)
  /\ exists e, In (Content.tick e) [Content.tick (at_ 1000 rejectedPage)].
Proof.
  split.
  - apply (proj1 (proj2 (proj2 (credentials_are_cleared_at_most_once
                                  (Content.requestCreds (Content.initial false) (Some alice))
                                  [Content.tick (at_ 1000 rejectedPage)])))).
    reflexivity.
  - apply (proj2 (proj2 (proj2 (credentials_are_cleared_at_most_once
                                  (Content.requestCreds (Content.initial false) (Some alice))
                                  [Content.tick (at_ 1000 rejectedPage)])))).
    reflexivity.
Defined.

Lemma unchanged_address_after_submit_is_failure_witness :
  Content.pageShowsLikelyFailure (at_ 1000 loginPage)
    {| Content.autoSubmit := true; Content.submittedCount := 1; Content.lastSubmitAt := 200;
       Content.coolDownUntil := 0; Content.lastUrlAfterSubmit := "https://shop.test/login" |}
  = true.
Proof.
  apply (unchanged_address_after_submit_is_failure (at_ 1000 loginPage)
           {| Content.autoSubmit := true; Content.submittedCount := 1;
              Content.lastSubmitAt := 200; Content.coolDownUntil := 0;
              Content.lastUrlAfterSubmit := "https://shop.test/login" |} usernameField).
  - left. reflexivity.
  - reflexivity.
  - reflexivity.
Defined.

Lemma polling_stops_at_the_attempt_ceiling_witness :
  Content.intervalOn
    (fst (Content.run (Content.requestCreds (Content.initial false) (Some alice))
            (repeat (Content.tick
                       (at_ 0 (pageOf "Welcome back"
                                 {| inputs := []; controls := []; controlsIn := fun _ => [] |})))
                    400)))
  = false.
Proof.
  apply (proj2 (proj2 (polling_stops_at_the_attempt_ceiling false (Some alice)
                         (repeat (Content.tick
                                    (at_ 0 (pageOf "Welcome back"
                                              {| inputs := []; controls := [];
                                                 controlsIn := fun _ => [] |})))
                                 400)))).
  vm_compute. reflexivity.
Defined.

(** ** Pasted lists and clicked links of the Pro build *)

Section PopupParse.
Import Popup.
Variable URL : string -> option Url.

Lemma splitLines_nonempty (s : string) : splitLines s <> [].
Proof.
  induction s as [|c r IH]; simpl; [discriminate|].
  destruct (Ascii.eqb c LF); [discriminate|].
  assert (K : consHead c (splitLines r) <> []).
  { unfold consHead. destruct (splitLines r); discriminate. }
  destruct (Ascii.eqb c CR); [|exact K].
  destruct r as [|d r']; [exact K|]. destruct (Ascii.eqb d LF); [discriminate|exact K].
Qed.

Lemma splitLines_unbroken_cons (c : ascii) (r : string) :
  Ascii.eqb c LF = false -> Ascii.eqb c CR = false ->
  splitLines (String c r) = consHead c (splitLines r).
Proof. intros A B. simpl. now rewrite A, B. Qed.

Lemma splitLines_line_LF (l r : string) :
  unbroken l = true -> splitLines (l +:+ String LF r) = l :: splitLines r.
Proof.
  induction l as [|c l IH]; intros U.
  - reflexivity.
  - simpl in U. apply andb_prop in U as [U U3]. apply andb_prop in U as [U1 U2].
    apply negb_true_iff in U1, U2.
    change (String c l +:+ String LF r) with (String c (l +:+ String LF r)).
    rewrite (splitLines_unbroken_cons _ _ U1 U2), (IH U3). reflexivity.
Qed.

Lemma splitLines_line_CRLF (l r : string) :
  unbroken l = true -> splitLines (l +:+ String CR (String LF r)) = l :: splitLines r.
Proof.
  induction l as [|c l IH]; intros U.
  - reflexivity.
  - simpl in U. apply andb_prop in U as [U U3]. apply andb_prop in U as [U1 U2].
    apply negb_true_iff in U1, U2.
    change (String c l +:+ String CR (String LF r))
      with (String c (l +:+ String CR (String LF r))).
    rewrite (splitLines_unbroken_cons _ _ U1 U2), (IH U3). reflexivity.
Qed.

Lemma splitLines_line (l : string) : unbroken l = true -> splitLines l = [l].
Proof.
  induction l as [|c l IH]; intros U.
  - reflexivity.
  - simpl in U. apply andb_prop in U as [U U3]. apply andb_prop in U as [U1 U2].
    apply negb_true_iff in U1, U2.
    rewrite (splitLines_unbroken_cons _ _ U1 U2), (IH U3). reflexivity.
Qed.

Lemma splitLines_joined (sep : string) (ls : list string) :
  sep = String LF EmptyString \/ sep = String CR (String LF EmptyString) ->
  ls <> [] -> Forall (fun l => unbroken l = true) ls ->
  splitLines (joinWith sep ls) = ls.
Proof.
  intros S N F. induction F as [|l rest U F IH]; [congruence|].
  destruct rest as [|l2 rest].
  - simpl. now apply splitLines_line.
  - change (joinWith sep (l :: l2 :: rest)) with (l +:+ sep +:+ joinWith sep (l2 :: rest)).
    destruct S as [-> | ->].
    + change (String LF EmptyString +:+ joinWith (String LF EmptyString) (l2 :: rest))
        with (String LF (joinWith (String LF EmptyString) (l2 :: rest))).
      rewrite (splitLines_line_LF _ _ U), IH; [reflexivity|discriminate].
    + change (String CR (String LF EmptyString)
              +:+ joinWith (String CR (String LF EmptyString)) (l2 :: rest))
        with (String CR (String LF (joinWith (String CR (String LF EmptyString)) (l2 :: rest)))).
      rewrite (splitLines_line_CRLF _ _ U), IH; [reflexivity|discriminate].
Qed.

(** Property X23.  For pasted text made of lines without line breaks
    of their own, separated by line feeds or by carriage return and line
    feed, the Parse button lists exactly the trimmed lines that are not
    blank, in order; each item holds the parse of its line, an item marked
    valid has a parse, and without URL validation an item is valid exactly
    when it has one. *)
Theorem parse_button_lists_the_non_blank_lines
  (sep : string) (ls : list string) (validate : bool) :
  sep = String LF EmptyString \/ sep = String CR (String LF EmptyString) ->
  ls <> [] -> Forall (fun l => unbroken l = true) ls ->
  map raw (parseBtn URL (joinWith sep ls) validate) = List.filter Js.truthy (map Js.trim ls)
  /\ Forall (fun it =>
               parsed it = ProLinks.parseColonLinkFlexible URL (raw it)
               /\ (valid it = true -> exists l, parsed it = Some l)
               /\ (validate = false -> valid it = isSome (parsed it)))
            (parseBtn URL (joinWith sep ls) validate).
Proof.
  intros S N F. unfold parseBtn. rewrite (splitLines_joined sep ls S N F). split.
  - rewrite map_map. simpl. apply map_id.
  - apply List.Forall_forall. intros it I. apply List.in_map_iff in I.
    destruct I as (r & <- & _). simpl. split; [reflexivity|].
    destruct (ProLinks.parseColonLinkFlexible URL r) as [l|]; split;
      try discriminate; eauto; intros ->; reflexivity.
Qed.

Variable innerHTML : string -> Fragment.

Lemma parsed_item_has_markup (validate : bool) (line : string) (idx : nat) :
  exists markup,
    rowMarkup idx
      {| raw := line; parsed := ProLinks.parseColonLinkFlexible URL line;
         valid := match ProLinks.parseColonLinkFlexible URL line with
                  | Some l => if validate then Background.hasHttpPrefix (ProBackground.url l)
                              else true
                  | None => false
                  end |} = Some markup.
Proof.
  unfold rowMarkup. cbn [valid parsed raw].
  destruct (ProLinks.parseColonLinkFlexible URL line) as [l|]; [|eauto].
  destruct (if validate then _ else true); eauto.
Qed.

Lemma pairRows_plain (rows : list Row) :
  pairRows (map (fun r => Some (urlText r)) rows) (map checked rows) = Some rows.
Proof.
  induction rows as [|[t b] rows IH]; [reflexivity|]. cbn [map pairRows urlText checked].
  now rewrite IH.
Qed.

Lemma open_plain (validate : bool) (lines : list string) :
  omap (fun r => if checked r then ProLinks.parseColonLinkFlexible URL (urlText r) else None)
       (map (fun line =>
               {| urlText := line;
                  checked := match ProLinks.parseColonLinkFlexible URL line with
                             | Some l => if validate
                                         then Background.hasHttpPrefix (ProBackground.url l)
                                         else true
                             | None => false
                             end |}) lines)
  = omap (fun line =>
            match ProLinks.parseColonLinkFlexible URL line with
            | Some l => if validate && negb (Background.hasHttpPrefix (ProBackground.url l))
                        then None else Some l
            | None => None
            end) lines.
Proof.
  induction lines as [|line lines IH]; [reflexivity|].
  cbn [map]. rewrite !omap_cons, IH. cbn [checked urlText].
  destruct (ProLinks.parseColonLinkFlexible URL line) as [k|]; [|reflexivity].
  destruct validate; [|reflexivity].
  destruct (Background.hasHttpPrefix (ProBackground.url k)); reflexivity.
Qed.

Lemma render_plain (mk : string -> Item) (idx : nat) (lines : list string) :
  (forall line i, exists markup, rowMarkup i (mk line) = Some markup) ->
  (forall i line markup,
     lines !! i = Some line -> rowMarkup (idx + i) (mk line) = Some markup ->
     innerHTML markup
     = {| urlCell := Some (raw (mk line)); innerRows := [];
          innerBoxes := [valid (mk line)] |}) ->
  renderFrom innerHTML idx (map mk lines)
  = {| cells := map (fun line => Some (raw (mk line))) lines;
       boxes := map (fun line => valid (mk line)) lines |}.
Proof.
  intros M. revert idx. induction lines as [|line lines IH]; intros idx H; [reflexivity|].
  cbn [map renderFrom]. destruct (M line idx) as [markup E]. rewrite E.
  rewrite (H 0%nat line markup eq_refl); [|now rewrite Nat.add_0_r].
  rewrite (IH (S idx)).
  - reflexivity.
  - intros i l2 m2 L R. apply (H (S i) l2 m2 L). now rewrite Nat.add_succ_r.
Qed.

(** Property X24.  When the markup of every listed item parses to just what
    the template says (one checkbox, checked when the item is valid, and a
    url cell that reads back as the line; no element brought in by the
    line, the address or the username), Parse followed by Open sends one
    one-page [openArmedTab] for each of the first 100 non-blank trimmed
    lines that parse (with URL validation on: that parse to an address
    starting with [http://] or [https://]), in the order of the lines. *)
Theorem parse_then_open_sends_the_valid_lines (value : string) (validate : bool) :
  (forall i it markup,
     parseBtn URL value validate !! i = Some it -> rowMarkup i it = Some markup ->
     innerHTML markup
     = {| urlCell := Some (raw it); innerRows := []; innerBoxes := [valid it] |}) ->
  openSelectedBtn URL (renderList innerHTML (parseBtn URL value validate))
  = map openRequest
      (firstn 100
         (omap (fun line =>
                  match ProLinks.parseColonLinkFlexible URL line with
                  | Some l => if validate && negb (Background.hasHttpPrefix (ProBackground.url l))
                              then None else Some l
                  | None => None
                  end)
               (List.filter Js.truthy (map Js.trim (splitLines value))))).
Proof.
  intros H. unfold renderList, parseBtn in *. cbv zeta in *.
  set (lines := List.filter Js.truthy (map Js.trim (splitLines value))) in *.
  set (mk := fun raw : string => {| raw := raw; parsed := _; valid := _ |}) in *.
  rewrite (render_plain mk 0 lines).
  - unfold openSelectedBtn. cbn [cells boxes].
    pose proof (pairRows_plain (map (fun line => {| urlText := raw (mk line);
                                                    checked := valid (mk line) |}) lines)) as P.
    rewrite !map_map in P. cbn [urlText checked] in P. rewrite P. clear P H.
    unfold openSelected, mk. cbn [raw valid]. now rewrite open_plain.
  - intros line i. apply parsed_item_has_markup.
  - intros i line markup L R. apply (H i (mk line) markup); [|exact R].
    rewrite list_lookup_fmap, L. reflexivity.
Qed.
End PopupParse.

Lemma parse_button_lists_the_non_blank_lines_witness :
  map Popup.raw
      (Popup.parseBtn Samples.sampleURL
         (joinWith (String Popup.LF EmptyString) ["shop.test:alice:s3cr3t"; "  "; " not a link "])
         false)
  = ["shop.test:alice:s3cr3t"; "not a link"]%string.
Proof.
  exact (proj1 (parse_button_lists_the_non_blank_lines Samples.sampleURL
                  (String Popup.LF EmptyString)
                  ["shop.test:alice:s3cr3t"; "  "; " not a link "]%string false
                  (or_introl eq_refl) ltac:(discriminate)
                  ltac:(repeat constructor))).
Defined.

Lemma parse_then_open_sends_the_valid_lines_witness :
  Popup.openSelectedBtn Samples.sampleURL
    (Popup.renderList PopupSamples.plainHTML
       (Popup.parseBtn Samples.sampleURL
          (joinWith (String Popup.LF EmptyString) ["shop.test:alice:s3cr3t"; " not a link "])
          true))
  = [ProWorker.openArmedTab "https://shop.test" "alice" "s3cr3t"
       (Some {| Msg.twoStep := false |})].
Proof.
  rewrite (parse_then_open_sends_the_valid_lines Samples.sampleURL PopupSamples.plainHTML
             (joinWith (String Popup.LF EmptyString) ["shop.test:alice:s3cr3t"; " not a link "])
             true).
  - reflexivity.
  - intros i it markup L R. destruct i as [|[|i]].
    + vm_compute in L. injection L as <-. vm_compute in R. injection R as <-. reflexivity.
    + vm_compute in L. injection L as <-. vm_compute in R. injection R as <-. reflexivity.
    + vm_compute in L. discriminate L.
Defined.

Section LinkClicks.
Import ProWorker.
Variable URL : string -> option Url.

(** Property X25.  A click the Pro content script takes over, on an
    anchor whose [href] does not parse, sends nothing; on one that parses
    it sends [openArmedTab], which the worker turns into one tab at the
    parsed address without changing its maps, and once the creation
    callback has run for a tab with a non-zero id that tab's [requestCreds]
    is answered with the link's credentials at stage ["init"], two-step
    exactly when Alt was held. *)
Theorem pro_link_click_arms_the_new_tab
  (st : Store) (href : string) (alt : bool) (sender : Background.Sender) (t : Background.Tab) :
  Background.id t <> 0 ->
  match ProLinks.parseColonLinkFlexible URL href with
  | None => ProLinks.onLinkClick URL (Some href) alt = None
  | Some l =>
      exists req cmd,
        ProLinks.onLinkClick URL (Some href) alt = Some req
        /\ onMessage st req sender = (st, [cmd], None)
        /\ cmd = tabsCreate (ProBackground.url l)
                   {| Msg.u := ProBackground.username l; Msg.p := ProBackground.password l;
                      Msg.mode := {| Msg.twoStep := alt |}; Msg.stage := "init" |}
        /\ snd (onMessage (onCreated st cmd (Some (Background.id t))) requestCreds
                  {| Background.tab := Some t |})
           = Some (Some {| Msg.u := ProBackground.username l; Msg.p := ProBackground.password l;
                           Msg.mode := {| Msg.twoStep := alt |}; Msg.stage := "init" |})
  end.
Proof.
  intros N.
  assert (O : Js.orElse (default EmptyString (Some href)) EmptyString = href)
    by (destruct href; reflexivity).
  unfold ProLinks.onLinkClick. rewrite O.
  destruct (ProLinks.parseColonLinkFlexible URL href) as [l|]; [|reflexivity].
  eexists _, _. split; [reflexivity|]. split; [reflexivity|]. split; [reflexivity|].
  unfold onMessage at 1. rewrite (pro_truthyTabId t N).
  unfold onCreated, setCreds. cbn [snd credsByTab]. now rewrite lookup_insert_eq.
Qed.
End LinkClicks.

Lemma pro_link_click_arms_the_new_tab_witness :
  exists req cmd,
    ProLinks.onLinkClick Samples.sampleURL (Some "shop.test:alice:s3cr3t"%string) true = Some req
    /\ ProWorker.onMessage {| ProWorker.credsByTab := ∅; ProWorker.rawHrefByTab := ∅ |}
         req shopSender
       = ({| ProWorker.credsByTab := ∅; ProWorker.rawHrefByTab := ∅ |}, [cmd], None)
    /\ cmd = ProWorker.tabsCreate "https://shop.test"
               {| Msg.u := "alice"; Msg.p := "s3cr3t"; Msg.mode := {| Msg.twoStep := true |};
                  Msg.stage := "init" |}.
Proof.
  pose proof (pro_link_click_arms_the_new_tab Samples.sampleURL
                {| ProWorker.credsByTab := ∅; ProWorker.rawHrefByTab := ∅ |}
                "shop.test:alice:s3cr3t" true shopSender shopTab ltac:(discriminate)) as H.
  change (ProLinks.parseColonLinkFlexible Samples.sampleURL "shop.test:alice:s3cr3t")
    with (Some {| ProBackground.url := "https://shop.test"; ProBackground.username := "alice";
                  ProBackground.password := "s3cr3t" |}) in H.
  destruct H as (req & cmd & E & M & C & _).
  exists req, cmd. split; [exact E|]. split; [exact M|exact C].
Defined.
